(** * AUTOMATA02: rule-based file classification, organisation and the
      debounced file-system event pipeline

    A shallow embedding of [core/classifier.py], [core/organizer.py],
    [core/file_watcher.py], [core/config_manager.py] and the part of
    [core/database.py] they call, followed by the properties of the
    specification stated and proved (or refuted) on that embedding.

    Conventions.
    - Python [str] is [string]; the text is ASCII, so [str.lower] only
      touches the letters [A]-[Z].
    - Python [int] is [Z]; counters and calendar fields, which the code
      never makes negative, are [nat].
    - [pathlib] is modelled as [PurePosixPath] of CPython 3.10 to 3.13.
    - The regular-expression engine, the [mimetypes] table, the file
      system and SQLite are interfaces (type classes): the code is
      verified for every implementation of them.
    - An exception is a value of [exn]; code that can raise returns a
      [result]. *)

From Stdlib Require Import ZArith QArith Lia Ascii String.
From stdpp Require Import base option strings list gmap.

Local Open Scope Z_scope.
Local Open Scope Q_scope.
Local Open Scope Z_scope.
Local Open Scope stdpp_scope.

(* ===================================================================== *)
(** * Part I: the embedding                                               *)
(* ===================================================================== *)

(** ** Python string primitives *)

Module Str.

Definition len (s : string) : Z := Z.of_nat (String.length s).

(** [s.startswith(p)] *)
Fixpoint startswith (s p : string) : bool :=
  match p, s with
  | EmptyString, _ => true
  | String _ _, EmptyString => false
  | String a p', String b s' =>
      if decide (a = b) then startswith s' p' else false
  end.

(** [sub in s] *)
Fixpoint contains (sub s : string) : bool :=
  startswith s sub ||
  match s with
  | EmptyString => false
  | String _ s' => contains sub s'
  end.

(** [x in l] for a list of strings *)
Definition mem (x : string) (l : list string) : bool :=
  bool_decide (x ∈ l).

Definition lower_char (c : ascii) : ascii :=
  let n := nat_of_ascii c in
  if ((65 <=? n) && (n <=? 90))%nat then ascii_of_nat (n + 32) else c.

(** [s.lower()] *)
Fixpoint lower (s : string) : string :=
  match s with
  | EmptyString => EmptyString
  | String c s' => String (lower_char c) (lower s')
  end.

(** [s[n:]] and [s[:n]] for [0 <= n] *)
Fixpoint drop (n : nat) (s : string) : string :=
  match n, s with
  | O, _ => s
  | S _, EmptyString => EmptyString
  | S n', String _ s' => drop n' s'
  end.

Fixpoint take (n : nat) (s : string) : string :=
  match n, s with
  | O, _ => EmptyString
  | S _, EmptyString => EmptyString
  | S n', String c s' => String c (take n' s')
  end.

(** Index of the last occurrence of a character, if any. *)
Fixpoint rfind_nat (c : ascii) (s : string) : option nat :=
  match s with
  | EmptyString => None
  | String a s' =>
      match rfind_nat c s' with
      | Some i => Some (S i)
      | None => if decide (a = c) then Some O else None
      end
  end.

(** [s.rfind(c)]: [-1] when [c] does not occur. *)
Definition rfind (s : string) (c : ascii) : Z :=
  match rfind_nat c s with
  | Some i => Z.of_nat i
  | None => -1
  end.

(** [s.split(sep)] for a one-character separator. *)
Fixpoint split (s : string) (sep : ascii) : list string :=
  match s with
  | EmptyString => [EmptyString]
  | String c s' =>
      let r := split s' sep in
      if decide (c = sep) then EmptyString :: r
      else match r with
           | h :: t => String c h :: t
           | [] => [String c EmptyString]
           end
  end.

(** [sep.join(l)] *)
Fixpoint join (sep : string) (l : list string) : string :=
  match l with
  | [] => EmptyString
  | [x] => x
  | x :: l' => x +:+ sep +:+ join sep l'
  end.

(** [s.endswith(suffix)] *)
Definition endswith (s suffix : string) : bool :=
  (String.length suffix <=? String.length s)%nat &&
  bool_decide (drop (String.length s - String.length suffix) s = suffix).

(** [s.lstrip(c)] *)
Fixpoint lstrip (s : string) (c : ascii) : string :=
  match s with
  | EmptyString => EmptyString
  | String a s' => if decide (a = c) then lstrip s' c else s
  end.

(** The scan of [s.replace(old, new)] for a non-empty [old]: leftmost
    occurrences, not overlapping.  [skip] counts the characters of the
    occurrence just replaced that are still to be passed over. *)
Fixpoint replace_go (old new : string) (skip : nat) (s : string) : string :=
  match s with
  | EmptyString => EmptyString
  | String c s' =>
      match skip with
      | S k => replace_go old new k s'
      | O =>
          if startswith s old
          then new +:+ replace_go old new (String.length old - 1) s'
          else String c (replace_go old new O s')
      end
  end.

(** With an empty [old], Python puts [new] before every character and
    at the end. *)
Fixpoint replace_empty (new s : string) : string :=
  match s with
  | EmptyString => new
  | String c s' => new +:+ String c (replace_empty new s')
  end.

(** [s.replace(old, new)] *)
Definition replace (s old new : string) : string :=
  match old with
  | EmptyString => replace_empty new s
  | String _ _ => replace_go old new O s
  end.

Definition digit_char (d : nat) : ascii :=
  ascii_of_nat (48 + d).

Fixpoint digits_go (fuel n : nat) (acc : string) : string :=
  match fuel with
  | O => acc
  | S fuel' =>
      let acc' := String (digit_char (n mod 10)) acc in
      if (n / 10 =? 0)%nat then acc' else digits_go fuel' (n / 10) acc'
  end.

(** [str(n)] for a natural number. *)
Definition of_nat (n : nat) : string := digits_go (S n) n EmptyString.

(** [f"{n:02d}"] for a natural number. *)
Definition fmt_02d (n : nat) : string :=
  if (n <? 10)%nat then String "0" (of_nat n) else of_nat n.

(** Every character of [s] satisfies [P]. *)
Fixpoint all_chars (P : ascii -> Prop) (s : string) : Prop :=
  match s with
  | EmptyString => True
  | String a s' => P a /\ all_chars P s'
  end.

Definition is_digit (c : ascii) : Prop :=
  exists d, (d < 10)%nat /\ c = digit_char d.

End Str.

(** ** Exceptions *)

Inductive exn : Type :=
  | KeyError (key : string)
  | ReError (pattern : string)
  | OSError (msg : string)
  | RuntimeError (msg : string)
  | SqliteError (msg : string)
  | JSONDecodeError (msg : string).

(** [str(e)] *)
Definition exn_str (e : exn) : string :=
  match e with
  | KeyError k => "'" +:+ k +:+ "'"
  | ReError p => p
  | OSError m => m
  | RuntimeError m => m
  | SqliteError m => m
  | JSONDecodeError m => m
  end.

Inductive result (A : Type) : Type :=
  | Ok (a : A)
  | Raise (e : exn).
Arguments Ok {A} a.
Arguments Raise {A} e.

Definition rbind {A B : Type} (m : result A) (k : A -> result B) : result B :=
  match m with
  | Ok a => k a
  | Raise e => Raise e
  end.

Notation "'let?' x ':=' m 'in' k" := (rbind m (fun x => k))
  (at level 10, x name, m at level 100, k at level 200).

(** [try: body  except Exception as e: handler(e)] *)
Definition try_except {A : Type} (body : result A) (handler : exn -> A) : A :=
  match body with
  | Ok a => a
  | Raise e => handler e
  end.

(** ** [pathlib.PurePosixPath] *)

Module Pathlib.

Record Path : Type := mkPath { root : string; parts : list string }.

#[global] Instance Path_eq_dec : EqDecision Path.
Proof. solve_decision. Defined.

(** [_PosixFlavour.splitroot]: exactly two leading slashes are kept. *)
Definition splitroot (part : string) : string * string :=
  if Str.startswith part "/" then
    let stripped_part := Str.lstrip part "/" in
    if (String.length part - String.length stripped_part =? 2)%nat
    then ("//", stripped_part)
    else ("/", stripped_part)
  else ("", part).

Definition is_part (x : string) : bool :=
  negb (bool_decide (x = "")) && negb (bool_decide (x = ".")).

(** [Path(s)] *)
Definition of_str (s : string) : Path :=
  let '(r, rel) := splitroot s in
  {| root := r; parts := List.filter is_part (Str.split rel "/") |}.

(** [str(p)] *)
Definition str (p : Path) : string :=
  match root p, parts p with
  | EmptyString, [] => "."
  | r, ps => r +:+ Str.join "/" ps
  end.

(** [p.name] *)
Definition name (p : Path) : string := List.last (parts p) "".

(** The suffix and the stem of a file name, as [p.suffix] and
    [p.stem] compute them from [p.name]. *)
Definition name_suffix (name : string) : string :=
  let i := Str.rfind name "." in
  if (0 <? i) && (i <? Str.len name - 1)
  then Str.drop (Z.to_nat i) name
  else "".

Definition name_stem (name : string) : string :=
  let i := Str.rfind name "." in
  if (0 <? i) && (i <? Str.len name - 1)
  then Str.take (Z.to_nat i) name
  else name.

(** [p.suffix] *)
Definition suffix (p : Path) : string := name_suffix (name p).

(** [p.stem] *)
Definition stem (p : Path) : string := name_stem (name p).

(** [p.parent] *)
Definition parent (p : Path) : Path :=
  {| root := root p; parts := removelast (parts p) |}.

(** [p / key] *)
Definition joinpath (p : Path) (key : string) : Path :=
  let q := of_str key in
  match root q with
  | EmptyString => {| root := root p; parts := parts p ++ parts q |}
  | String _ _ => q
  end.

End Pathlib.

Abbreviation Path := Pathlib.Path.
Infix "</>" := Pathlib.joinpath (at level 40, left associativity).

(** ** Rules ([rules.json]) *)

(** The [when] mapping: a key that is absent is [None]. *)
Record Conditions : Type := mkConditions {
  filename_regex : option string;
  mime_in : option (list string);
  mime_startswith : option string;
  path_regex : option string;
  size_lt_bytes : option Z;
  size_gt_bytes : option Z
}.

(** The [then] mapping. *)
Record Actions : Type := mkActions {
  label : option string;
  tags_add : option (list string);
  move_to : option string;
  rename_to : option string
}.

(** A rule.  A key that is absent is [None]; a key that is present
    holds a value of the type the application writes: a string for
    [name], an integer for [priority], a boolean for [active].  Other
    JSON values ([null] or a number as a name, [null], a fraction or a
    string as a priority) are not rules of this type. *)
Record Rule : Type := mkRule {
  name : option string;
  priority : option Z;
  active : option bool;
  when : option Conditions;
  then_ : option Actions
}.

(** [{}] *)
Definition no_conditions : Conditions := mkConditions None None None None None None.
Definition no_actions : Actions := mkActions None None None None.

(** ** [ConfigManager] *)

Module ConfigManager.

(** What [json.load] finds in [rules.json]. *)
Inductive rules_json : Type :=
  | Unreadable (e : exn)
  | NotAList
  | RuleList (rules : list Rule).

(** How writing [rules.json] fails.  [open(..., 'w')] raises and the
    file is as it was; or the file is opened, which empties it, and
    [json.dump] or the closing of the file raises, with the whole
    document in the file ([complete]) or only a part of it. *)
Inductive write_failure : Type :=
  | OpenRaises (e : exn)
  | DumpRaises (e : exn) (complete : bool).

Record t : Type := mk {
  rules_file : rules_json;
  (** [None]: the file can be written; [Some failure]: writing fails *)
  rules_file_write_error : option write_failure
}.

Definition json_load (self : t) : result rules_json :=
  match rules_file self with
  | Unreadable e => Raise e
  | j => Ok j
  end.

Definition get_rules (self : t) : list Rule :=
  try_except
    (let? rules := json_load self in
     Ok (match rules with RuleList l => l | _ => [] end))
    (fun _e => []).

(** [with open(self.rules_file, 'w') as f: json.dump(rules, f, indent=2)]:
    the state of the file afterwards, and the exception if one is
    raised.  A part of a JSON document does not load. *)
Definition json_dump (self : t) (rules : list Rule) : t * result unit :=
  match rules_file_write_error self with
  | None =>
      ({| rules_file := RuleList rules; rules_file_write_error := None |}, Ok tt)
  | Some (OpenRaises e) => (self, Raise e)
  | Some (DumpRaises e complete) =>
      ({| rules_file := if complete then RuleList rules
                        else Unreadable (JSONDecodeError "Expecting value");
          rules_file_write_error := rules_file_write_error self |},
       Raise e)
  end.

Definition _save_rules (self : t) (rules : list Rule) : t :=
  let '(self', r) := json_dump self rules in
  try_except (let? _u := r in Ok self') (fun _e => self').

Definition save_rules (self : t) (rules : list Rule) : t :=
  _save_rules self rules.

Definition add_rule (self : t) (rule : Rule) : t * bool :=
  try_except
    (let rules := get_rules self in
     let rules := rules ++ [rule] in
     let self' := save_rules self rules in
     Ok (self', true))
    (fun _e => (self, false)).

(** [update_rule(index, rule)]: [rules[index] = rule] for an index in
    range. *)
Definition update_rule (self : t) (index : Z) (rule : Rule) : t * bool :=
  try_except
    (let rules := get_rules self in
     if (0 <=? index) && (index <? Z.of_nat (length rules))
     then
       let rules := <[Z.to_nat index := rule]> rules in
       let self' := save_rules self rules in
       Ok (self', true)
     else Ok (self, false))
    (fun _e => (self, false)).

(** [delete_rule(index)]: [del rules[index]] for an index in range. *)
Definition delete_rule (self : t) (index : Z) : t * bool :=
  try_except
    (let rules := get_rules self in
     if (0 <=? index) && (index <? Z.of_nat (length rules))
     then
       let rules := delete (Z.to_nat index) rules in
       let self' := save_rules self rules in
       Ok (self', true)
     else Ok (self, false))
    (fun _e => (self, false)).

End ConfigManager.

(** ** External interfaces of the classifier *)

(** Python's [re] module: [re.compile(pattern, flags)] fails with
    [re.error] on a malformed pattern; a compiled pattern is searched
    anywhere in the text. *)
Class RegexEngine : Type := {
  Pattern : Type;
  re_compile : string -> forall IGNORECASE : bool, option Pattern;
  Pattern_search : Pattern -> string -> bool
}.

(** [re.search(pattern, string, flags)], as a truth value *)
Definition re_search `{RegexEngine} (pattern s : string) (IGNORECASE : bool)
  : result bool :=
  match re_compile pattern IGNORECASE with
  | Some p => Ok (Pattern_search p s)
  | None => Raise (ReError pattern)
  end.

(** [mimetypes.guess_type(path)[0]] *)
Class Mimetypes : Type := {
  guess_type : string -> option string
}.

Record stat_result : Type := mk_stat { st_size : Z }.

(** The file system: a state [FS] and the calls the code makes on it.
    A call that changes the state returns the new state, also when it
    raises.  [Path.exists()] answers [False] for a path that is not
    there and raises the other errors of [stat] ([EACCES],
    [ENAMETOOLONG], ...); [os.path.exists] answers [False] on every
    error. *)
Class FileSystem : Type := {
  FS : Type;
  Path_stat : FS -> Path -> result stat_result;
  Path_exists : FS -> Path -> result bool;
  os_path_exists : FS -> string -> bool;
  Path_mkdir_parents : FS -> Path -> FS * result unit;
  shutil_move : FS -> string -> string -> FS * result unit
}.

(** ** [FileClassifier] *)

Record Metadata : Type := mkMetadata {
  md_filename : string;
  md_extension : string;
  md_size_bytes : Z
}.

(** The classification dict.  [cls_metadata] is [None] for the empty
    dict of the failure case; a key that is absent or [None] is [None]. *)
Record Classification : Type := mkClassification {
  cls_label : string;
  cls_tags : list string;
  cls_mime_type : string;
  cls_confidence : Q;
  cls_metadata : option Metadata;
  cls_rule_matched : option string;
  cls_move_to : option string;
  cls_rename_to : option string
}.

(** What [_apply_rule_actions] returns. *)
Record RuleActions : Type := mkRuleActions {
  ra_label : string;
  ra_tags : list string;
  ra_rule_matched : string;
  ra_move_to : option string;
  ra_rename_to : option string
}.

(** What [_fallback_classification] returns. *)
Record Fallback : Type := mkFallback {
  fb_label : string;
  fb_tags : list string
}.

Module FileClassifier.

(** [rule['name']] *)
Definition rule_name (rule : Rule) : result string :=
  match name rule with
  | Some n => Ok n
  | None => Raise (KeyError "name")
  end.

Definition _guess_mime_from_extension (extension : string) : string :=
  let mime_map : list (string * string) :=
    [ (".pdf", "application/pdf");
      (".doc", "application/msword");
      (".docx", "application/vnd.openxmlformats-officedocument.wordprocessingml.document");
      (".xls", "application/vnd.ms-excel");
      (".xlsx", "application/vnd.openxmlformats-officedocument.spreadsheetml.sheet");
      (".txt", "text/plain");
      (".jpg", "image/jpeg");
      (".jpeg", "image/jpeg");
      (".png", "image/png");
      (".gif", "image/gif");
      (".mp4", "video/mp4");
      (".avi", "video/avi");
      (".mp3", "audio/mpeg");
      (".wav", "audio/wav");
      (".zip", "application/zip");
      (".py", "text/x-python") ] in
  match List.find (fun kv => bool_decide (fst kv = extension)) mime_map with
  | Some kv => snd kv
  | None => "application/octet-stream"
  end.

Section Matching.
Context `{RegexEngine}.

Definition _rule_matches (file_path : Path) (mime_type : string)
    (stat : stat_result) (rule : Rule) : result bool :=
  let conditions := default no_conditions (when rule) in
  (* Filename regex *)
  let? c_filename :=
    match filename_regex conditions with
    | Some pattern => re_search pattern (Pathlib.name file_path) true
    | None => Ok true
    end in
  if negb c_filename then Ok false else
  (* MIME type conditions *)
  if match mime_in conditions with
     | Some l => negb (Str.mem mime_type l)
     | None => false
     end
  then Ok false else
  if match mime_startswith conditions with
     | Some p => bool_decide (mime_type = "") || negb (Str.startswith mime_type p)
     | None => false
     end
  then Ok false else
  (* Path regex *)
  let? c_path :=
    match path_regex conditions with
    | Some pattern => re_search pattern (Pathlib.str file_path) true
    | None => Ok true
    end in
  if negb c_path then Ok false else
  (* Size conditions *)
  if match size_lt_bytes conditions with
     | Some bound => st_size stat >=? bound
     | None => false
     end
  then Ok false else
  if match size_gt_bytes conditions with
     | Some bound => st_size stat <=? bound
     | None => false
     end
  then Ok false else
  Ok true.

Definition _apply_rule_actions (rule : Rule) : result RuleActions :=
  let actions := default no_actions (then_ rule) in
  let? n := rule_name rule in
  Ok {| ra_label := default "other" (label actions);
        ra_tags := default [] (tags_add actions);
        ra_rule_matched := n;
        ra_move_to := move_to actions;
        ra_rename_to := rename_to actions |}.

(** [lambda x: x.get('priority', 100)] *)
Definition priority_key (x : Rule) : Z := default 100 (priority x).

(** [sorted(rules, key=...)]: a stable sort, by insertion.  A rule
    goes before the first rule already placed whose key is not
    smaller, so rules with equal keys keep their order. *)
Fixpoint sorted_insert (x : Rule) (l : list Rule) : list Rule :=
  match l with
  | [] => [x]
  | y :: l' =>
      if priority_key x <=? priority_key y then x :: l
      else y :: sorted_insert x l'
  end.

Fixpoint sorted (rules : list Rule) : list Rule :=
  match rules with
  | [] => []
  | x :: rules' => sorted_insert x (sorted rules')
  end.

(** The [for rule in sorted_rules] loop. *)
Fixpoint _apply_rules_loop (file_path : Path) (mime_type : string)
    (stat : stat_result) (sorted_rules : list Rule)
    : result (option RuleActions) :=
  match sorted_rules with
  | [] => Ok None
  | rule :: rest =>
      if negb (default true (active rule))
      then _apply_rules_loop file_path mime_type stat rest
      else
        let? m := _rule_matches file_path mime_type stat rule in
        if m then
          (* the debug message formats rule['name'] *)
          let? _n := rule_name rule in
          let? a := _apply_rule_actions rule in
          Ok (Some a)
        else _apply_rules_loop file_path mime_type stat rest
  end.

Definition _apply_rules (file_path : Path) (mime_type : string)
    (stat : stat_result) (rules : list Rule) : result (option RuleActions) :=
  let sorted_rules := sorted rules in
  _apply_rules_loop file_path mime_type stat sorted_rules.

End Matching.

(** [rule.get('active', True)] *)
Definition is_active (rule : Rule) : bool := default true (active rule).

(** The keys of a list of rules do not decrease. *)
Fixpoint ordered_by_priority (rules : list Rule) : Prop :=
  match rules with
  | [] => True
  | x :: rules' =>
      (forall y, In y rules' -> (priority_key x <= priority_key y)%Z) /\
      ordered_by_priority rules'
  end.

Definition finance_patterns : list string :=
  ["invoice"; "bill"; "statement"; "receipt"; "transaction";
   "bank"; "credit"; "debit"; "payment"; "expense"].
Definition document_types : list string :=
  [".pdf"; ".doc"; ".docx"; ".txt"; ".rtf"].
Definition code_extensions : list string :=
  [".py"; ".js"; ".html"; ".css"; ".java"; ".cpp"; ".c"; ".h";
   ".php"; ".rb"; ".go"; ".rs"; ".swift"; ".kt"].
Definition archive_extensions : list string :=
  [".zip"; ".rar"; ".tar"; ".gz"; ".7z"].

Definition _fallback_classification (file_path : Path) (mime_type : string)
    : Fallback :=
  let filename_lower := Str.lower (Pathlib.name file_path) in
  let extension := Str.lower (Pathlib.suffix file_path) in
  if existsb (fun pattern => Str.contains pattern filename_lower) finance_patterns
  then mkFallback "finance" ["auto-classified"]
  else if negb (bool_decide (mime_type = "")) && Str.startswith mime_type "image/"
  then mkFallback "media" ["image"; "auto-classified"]
  else if negb (bool_decide (mime_type = "")) && Str.startswith mime_type "video/"
  then mkFallback "media" ["video"; "auto-classified"]
  else if negb (bool_decide (mime_type = "")) && Str.startswith mime_type "audio/"
  then mkFallback "media" ["audio"; "auto-classified"]
  else if Str.mem extension document_types
  then mkFallback "documents" ["document"; "auto-classified"]
  else if Str.mem extension code_extensions
  then mkFallback "code" ["source-code"; "auto-classified"]
  else if Str.mem extension archive_extensions
  then mkFallback "archives" ["archive"; "auto-classified"]
  else mkFallback "other" ["unclassified"].

Section Classify.
Context `{RegexEngine} `{Mimetypes} `{FileSystem}.

(** The MIME type [classify_file] resolves before anything can fail. *)
Definition resolve_mime (file_path_obj : Path) : string :=
  match guess_type (Pathlib.str file_path_obj) with
  | Some m => if bool_decide (m = "")
              then _guess_mime_from_extension (Str.lower (Pathlib.suffix file_path_obj))
              else m
  | None => _guess_mime_from_extension (Str.lower (Pathlib.suffix file_path_obj))
  end.

Definition classify_file (config_manager : ConfigManager.t) (fs : FS)
    (file_path : string) : Classification :=
  let file_path_obj := Pathlib.of_str file_path in
  let mime_type := resolve_mime file_path_obj in
  try_except
    (let? stat := Path_stat fs file_path_obj in
     let classification :=
       {| cls_label := "other";
          cls_tags := [];
          cls_mime_type := mime_type;
          cls_confidence := 0.0;
          cls_metadata := Some {| md_filename := Pathlib.name file_path_obj;
                                  md_extension := Str.lower (Pathlib.suffix file_path_obj);
                                  md_size_bytes := st_size stat |};
          cls_rule_matched := None;
          cls_move_to := None;
          cls_rename_to := None |} in
     let rules := ConfigManager.get_rules config_manager in
     let? matched_rule := _apply_rules file_path_obj mime_type stat rules in
     match matched_rule with
     | Some m =>
         Ok {| cls_label := ra_label m;
               cls_tags := ra_tags m;
               cls_mime_type := cls_mime_type classification;
               cls_confidence := 0.9;
               cls_metadata := cls_metadata classification;
               cls_rule_matched := Some (ra_rule_matched m);
               cls_move_to := ra_move_to m;
               cls_rename_to := ra_rename_to m |}
     | None =>
         let fallback := _fallback_classification file_path_obj mime_type in
         Ok {| cls_label := fb_label fallback;
               cls_tags := fb_tags fallback;
               cls_mime_type := cls_mime_type classification;
               cls_confidence := 0.5;
               cls_metadata := cls_metadata classification;
               cls_rule_matched := cls_rule_matched classification;
               cls_move_to := cls_move_to classification;
               cls_rename_to := cls_rename_to classification |}
     end)
    (fun _e =>
       {| cls_label := "other";
          cls_tags := [];
          cls_mime_type := if bool_decide (mime_type = "")
                           then "application/octet-stream" else mime_type;
          cls_confidence := 0.0;
          cls_metadata := None;
          cls_rule_matched := None;
          cls_move_to := None;
          cls_rename_to := None |}).

End Classify.

End FileClassifier.

(** [datetime.now()] *)
Record DateTime : Type := mkDateTime {
  year : nat; month : nat; day : nat;
  hour : nat; minute : nat; second : nat
}.

(** ** Templates, as the specification reads them *)

(** A template is read as a sequence of literal text and placeholders
    [{{name}}]. *)
Inductive Token : Type :=
  | Lit (text : string)
  | Placeholder (name : string).

Definition placeholder (name : string) : string := "{{" +:+ name +:+ "}}".

Definition render_token (t : Token) : string :=
  match t with
  | Lit text => text
  | Placeholder name => placeholder name
  end.

Fixpoint render (toks : list Token) : string :=
  match toks with
  | [] => ""
  | t :: toks' => render_token t +:+ render toks'
  end.

(** The ten placeholders of the specification. *)
Definition recognized : list string :=
  ["YYYY"; "MM"; "DD"; "HH"; "mm"; "ss"; "BASENAME"; "STEM"; "EXT"; "HOME"].

(** The value the specification gives to a recognized placeholder;
    [{{HOME}}] has a value when [Path.home()] returns one. *)
Definition placeholder_value (source_path : Path) (now : DateTime)
    (home : result Path) (name : string) : option string :=
  if decide (name = "YYYY") then Some (Str.of_nat (year now))
  else if decide (name = "MM") then Some (Str.fmt_02d (month now))
  else if decide (name = "DD") then Some (Str.fmt_02d (day now))
  else if decide (name = "HH") then Some (Str.fmt_02d (hour now))
  else if decide (name = "mm") then Some (Str.fmt_02d (minute now))
  else if decide (name = "ss") then Some (Str.fmt_02d (second now))
  else if decide (name = "BASENAME") then Some (Pathlib.name source_path)
  else if decide (name = "STEM") then Some (Pathlib.stem source_path)
  else if decide (name = "EXT") then Some (Pathlib.suffix source_path)
  else if decide (name = "HOME")
       then match home with Ok h => Some (Pathlib.str h) | Raise _ => None end
  else None.

(** A placeholder that has a value becomes its value; literal text
    and any other placeholder stay as they are written. *)
Definition expand_token (source_path : Path) (now : DateTime)
    (home : result Path) (t : Token) : string :=
  match t with
  | Lit text => text
  | Placeholder name =>
      default (placeholder name) (placeholder_value source_path now home name)
  end.

Fixpoint expand_tokens (source_path : Path) (now : DateTime)
    (home : result Path) (toks : list Token) : string :=
  match toks with
  | [] => ""
  | t :: toks' =>
      expand_token source_path now home t +:+ expand_tokens source_path now home toks'
  end.

(** [c] does not occur in [s]. *)
Definition no_char (c : ascii) (s : string) : Prop := Str.rfind_nat c s = None.

(** Literal text has no opening brace, a name no brace at all. *)
Definition well_formed_token (t : Token) : Prop :=
  match t with
  | Lit text => no_char "{" text
  | Placeholder name => no_char "{" name /\ no_char "}" name
  end.

(** One replacement, on tokens: the placeholder [K] becomes the text
    [v]. *)
Definition subst_token (K v : string) (t : Token) : Token :=
  match t with
  | Lit _ => t
  | Placeholder n => if decide (n = K) then Lit v else t
  end.

(** The [N]th name the loop of [_resolve_filename_conflict] tries:
    [_N] between the stem and the extension, in the directory of the
    destination. *)
Definition candidate (p : Path) (N : nat) : Path :=
  Pathlib.parent p </>
    (Pathlib.stem p +:+ "_" +:+ Str.of_nat N +:+ Pathlib.suffix p).

(** ** What it means for the conditions of a rule to hold *)

Section ConditionsHold.
Context `{RegexEngine}.

(** Every condition present in [conditions] holds, as the code tests
    them: the two regular expressions are searched ignoring case; the
    MIME type is compared as it is written, and [mime_startswith]
    wants a MIME type that is not empty. *)
Definition conditions_hold (file_path : Path) (mime_type : string)
    (stat : stat_result) (conditions : Conditions) : Prop :=
  (forall pattern, filename_regex conditions = Some pattern ->
     re_search pattern (Pathlib.name file_path) true = Ok true) /\
  (forall l, mime_in conditions = Some l -> mime_type ∈ l) /\
  (forall prefix, mime_startswith conditions = Some prefix ->
     mime_type <> "" /\ Str.startswith mime_type prefix = true) /\
  (forall pattern, path_regex conditions = Some pattern ->
     re_search pattern (Pathlib.str file_path) true = Ok true) /\
  (forall bound, size_lt_bytes conditions = Some bound -> (st_size stat < bound)%Z) /\
  (forall bound, size_gt_bytes conditions = Some bound -> (st_size stat > bound)%Z).

(** The conditions as the specification words them, every comparison
    of text ignoring case: the MIME type is a member of [mime_in], or
    starts with [mime_startswith], up to the case of the letters. *)
Definition spec_conditions_hold (file_path : Path) (mime_type : string)
    (stat : stat_result) (conditions : Conditions) : Prop :=
  (forall pattern, filename_regex conditions = Some pattern ->
     re_search pattern (Pathlib.name file_path) true = Ok true) /\
  (forall l, mime_in conditions = Some l ->
     Str.lower mime_type ∈ List.map Str.lower l) /\
  (forall prefix, mime_startswith conditions = Some prefix ->
     Str.startswith (Str.lower mime_type) (Str.lower prefix) = true) /\
  (forall pattern, path_regex conditions = Some pattern ->
     re_search pattern (Pathlib.str file_path) true = Ok true) /\
  (forall bound, size_lt_bytes conditions = Some bound -> (st_size stat < bound)%Z) /\
  (forall bound, size_gt_bytes conditions = Some bound -> (st_size stat > bound)%Z).

End ConditionsHold.

(** ** Rule validation, as the specification words it *)

Section RuleValidation.
Context `{RegexEngine}.

Definition compiles (pattern : option string) : Prop :=
  forall p, pattern = Some p -> is_Some (re_compile p true).

(** The specification accepts a rule that has a name and whose
    [filename_regex] and [path_regex], when present, compile. *)
Definition spec_rule_valid (rule : Rule) : Prop :=
  is_Some (name rule) /\
  compiles (filename_regex (default no_conditions (when rule))) /\
  compiles (path_regex (default no_conditions (when rule))).

End RuleValidation.

(** ** [DatabaseManager]: the activity log *)

Record ActivityRow : Type := mkActivityRow {
  row_action : string;
  row_file_path : string;
  row_details : list (string * string);
  row_status : string
}.

(** SQLite: the [INSERT INTO activity_log] of [log_activity], which may
    raise. *)
Class Sqlite : Type := {
  DB : Type;
  insert_activity_log : DB -> ActivityRow -> DB * result unit
}.

Module DatabaseManager.
Section Db.
Context `{Sqlite}.

(** [log_activity(action, file_path, details, status)]: the insert
    runs inside [try]; a failure is written to the logger only. *)
Definition log_activity (db : DB) (action file_path : string)
    (details : list (string * string)) (status : string) : DB :=
  let '(db', r) := insert_activity_log db
                     (mkActivityRow action file_path details status) in
  try_except (let? _u := r in Ok db') (fun _e => db').

End Db.
End DatabaseManager.

(** ** [FileOrganizer] *)

(** The dict [dry_run_organize] returns; [destination_exists] is set
    only when the file would move. *)
Record DryRun : Type := mkDryRun {
  dr_source : string;
  dr_would_move : bool;
  dr_destination : option string;
  dr_label : string;
  dr_tags : list string;
  dr_rule_matched : string;
  dr_destination_exists : option bool
}.

(** What [dry_run_organize] returns: the dict above, or the dict of its
    handler, [{'source': file_path, 'error': str(e), 'would_move':
    False}]. *)
Inductive DryRunResult : Type :=
  | DryRunPlan (plan : DryRun)
  | DryRunFailed (source error : string).

Module FileOrganizer.

(** [_expand_path_template(template, source_path, classification)].
    [now] is the value of [datetime.now()]; [home] is the value of
    [Path.home()], or the exception it raises.  The replacements
    rebind [template] one after the other; the handler returns
    [template] as it stands when the exception occurs. *)
Definition _expand_path_template (template : string) (source_path : Path)
    (now : DateTime) (home : result Path) : string :=
  (* Date variables *)
  let template := Str.replace template "{{YYYY}}" (Str.of_nat (year now)) in
  let template := Str.replace template "{{MM}}" (Str.fmt_02d (month now)) in
  let template := Str.replace template "{{DD}}" (Str.fmt_02d (day now)) in
  let template := Str.replace template "{{HH}}" (Str.fmt_02d (hour now)) in
  let template := Str.replace template "{{mm}}" (Str.fmt_02d (minute now)) in
  let template := Str.replace template "{{ss}}" (Str.fmt_02d (second now)) in
  (* File variables *)
  let template := Str.replace template "{{BASENAME}}" (Pathlib.name source_path) in
  let template := Str.replace template "{{STEM}}" (Pathlib.stem source_path) in
  let template := Str.replace template "{{EXT}}" (Pathlib.suffix source_path) in
  (* Environment variables *)
  try_except
    (let? h := home in
     Ok (Str.replace template "{{HOME}}" (Pathlib.str h)))
    (fun _e => template).

Section Organize.
Context `{FileSystem} `{Sqlite}.

(** The [while True] loop of [_resolve_filename_conflict], with the
    number of iterations it may still make as [fuel]; [None] when
    the fuel runs out before the loop ends.  The loop ends by
    returning a path or by the exception [exists()] raises. *)
Fixpoint _resolve_loop (fs : FS) (destination_path parent : Path)
    (stem suffix : string) (fuel counter : nat) : option (result Path) :=
  match fuel with
  | O => None
  | S fuel' =>
      let new_name := stem +:+ "_" +:+ Str.of_nat counter +:+ suffix in
      let new_path := parent </> new_name in
      match Path_exists fs new_path with
      | Raise e => Some (Raise e)
      | Ok found =>
          if negb found then Some (Ok new_path)
          else
            let counter := (counter + 1)%nat in
            (* Safety check to avoid infinite loop *)
            if (1000 <? counter)%nat then Some (Ok destination_path)
            else _resolve_loop fs destination_path parent stem suffix fuel' counter
      end
  end.

Definition _resolve_filename_conflict_fuel (fuel : nat) (fs : FS)
    (destination_path : Path) : option (result Path) :=
  match Path_exists fs destination_path with
  | Raise e => Some (Raise e)
  | Ok found =>
      if negb found then Some (Ok destination_path)
      else
        let stem := Pathlib.stem destination_path in
        let suffix := Pathlib.suffix destination_path in
        let parent := Pathlib.parent destination_path in
        _resolve_loop fs destination_path parent stem suffix fuel 1
  end.

(** The loop ends within 1000 iterations (lemma
    [_resolve_filename_conflict_fuel_enough]), so the default is never
    taken. *)
Definition loop_fuel : nat := 1000.

Definition _resolve_filename_conflict (fs : FS) (destination_path : Path)
    : result Path :=
  default (Ok destination_path)
    (_resolve_filename_conflict_fuel loop_fuel fs destination_path).

(** The body of the [try] of [organize_file]: the state after it and
    the value it returns or the exception it raises. *)
Definition organize_file_try (fs : FS) (db : DB) (now : DateTime)
    (home : result Path) (file_path : string)
    (classification : Classification) : FS * DB * result string :=
  let source_path := Pathlib.of_str file_path in
  (* Check if file should be moved *)
  match cls_move_to classification with
  | None => (fs, db, Ok (Pathlib.str source_path))
  | Some EmptyString => (fs, db, Ok (Pathlib.str source_path))
  | Some move_to =>
      (* Expand template variables *)
      let destination := _expand_path_template move_to source_path now home in
      let destination_path := Pathlib.of_str destination in
      (* Create destination directory if it doesn't exist *)
      match Path_mkdir_parents fs (Pathlib.parent destination_path) with
      | (fs1, Raise e) => (fs1, db, Raise e)
      | (fs1, Ok _) =>
          (* Handle filename conflicts *)
          match _resolve_filename_conflict fs1 destination_path with
          | Raise e => (fs1, db, Raise e)
          | Ok final_destination =>
              (* Move the file *)
              match shutil_move fs1 (Pathlib.str source_path)
                                    (Pathlib.str final_destination) with
              | (fs2, Raise e) => (fs2, db, Raise e)
              | (fs2, Ok _) =>
                  (* Log the move operation *)
                  let db1 :=
                    DatabaseManager.log_activity db "file_organized"
                      (Pathlib.str source_path)
                      [("destination", Pathlib.str final_destination);
                       ("label", cls_label classification);
                       ("rule", default "fallback" (cls_rule_matched classification))]
                      "success" in
                  (fs2, db1, Ok (Pathlib.str final_destination))
              end
          end
      end
  end.

(** [organize_file(file_path, classification)] *)
Definition organize_file (fs : FS) (db : DB) (now : DateTime)
    (home : result Path) (file_path : string)
    (classification : Classification) : FS * DB * result string :=
  match organize_file_try fs db now home file_path classification with
  | (fs', db', Ok final) => (fs', db', Ok final)
  | (fs', db', Raise e) =>
      let db'' :=
        DatabaseManager.log_activity db' "file_organize_failed" file_path
          [("error", exn_str e)] "error" in
      (* Return original path if organization fails *)
      (fs', db'', Ok file_path)
  end.

(** [dry_run_organize(file_path, classification)]: the file system is
    read and not changed. *)
Definition dry_run_organize (fs : FS) (now : DateTime) (home : result Path)
    (file_path : string) (classification : Classification) : DryRunResult :=
  try_except
    (let source_path := Pathlib.of_str file_path in
     let result :=
       {| dr_source := Pathlib.str source_path;
          dr_would_move := false;
          dr_destination := None;
          dr_label := cls_label classification;
          dr_tags := cls_tags classification;
          dr_rule_matched := default "fallback" (cls_rule_matched classification);
          dr_destination_exists := None |} in
     (* Check if file would be moved *)
     match cls_move_to classification with
     | None => Ok (DryRunPlan result)
     | Some EmptyString => Ok (DryRunPlan result)
     | Some move_to =>
         let destination := _expand_path_template move_to source_path now home in
         let destination_path := Pathlib.of_str destination in
         let? final_destination := _resolve_filename_conflict fs destination_path in
         let? destination_exists := Path_exists fs final_destination in
         Ok (DryRunPlan
               {| dr_source := dr_source result;
                  dr_would_move := true;
                  dr_destination := Some (Pathlib.str final_destination);
                  dr_label := dr_label result;
                  dr_tags := dr_tags result;
                  dr_rule_matched := dr_rule_matched result;
                  dr_destination_exists := Some destination_exists |})
     end)
    (fun e => DryRunFailed file_path (exn_str e)).

End Organize.

End FileOrganizer.

(** ** [FileWatcherHandler]: the debounce map and its timers *)

(** Time is counted in milliseconds.  Every step of the model is atomic:
    a timer that is due runs before anything that happens later, and
    the call of [_process_event] by a timer, with the deletion of the
    key and the setting of [finished], is one step.  An event that
    arrives for a key while the callback of a timer of that key is
    still running is outside the model. *)

Module FileWatcherHandler.

(** The arguments a timer passes to [_process_event]. *)
Record EventArgs : Type := mkArgs {
  event_type : string;
  file_path : string;
  old_path : option string
}.

Definition event_key (a : EventArgs) : string :=
  event_type a +:+ ":" +:+ file_path a.

(** A [threading.Timer]: it sleeps until [fires_at], then calls
    [_process_event] on its arguments unless [finished] is set, and sets
    [finished].  [cancel()] sets [finished]. *)
Record Timer : Type := mkTimer {
  fires_at : Z;
  args : EventArgs;
  finished : bool
}.

Definition Timer_cancel (tm : Timer) : Timer :=
  {| fires_at := fires_at tm; args := args tm; finished := true |}.

(** The handler object together with the timer objects it has
    created: [_debounce_events] holds references (indices) into
    [timers].  [processed] lists the calls of [_process_event] with
    the time of each call. *)
Record t : Type := mk {
  _debounce_events : gmap string nat;
  _debounce_delay : Z;
  timers : list Timer;
  processed : list (Z * EventArgs)
}.

(** [__init__]: a 2 second debounce. *)
Definition init : t :=
  {| _debounce_events := ∅; _debounce_delay := 2000;
     timers := []; processed := [] |}.

(** [_debounce_event(event_type, file_path, old_path)] called at time
    [now]. *)
Definition _debounce_event (now : Z) (a : EventArgs) (self : t) : t :=
  let event_key := event_key a in
  (* Cancel previous timer for this event *)
  let timers1 :=
    match _debounce_events self !! event_key with
    | Some i => alter Timer_cancel i (timers self)
    | None => timers self
    end in
  (* Create new timer *)
  let timer := mkTimer (now + _debounce_delay self) a false in
  {| _debounce_events := <[event_key := length timers1]> (_debounce_events self);
     _debounce_delay := _debounce_delay self;
     timers := timers1 ++ [timer];
     processed := processed self |}.

(** [_process_event(event_type, file_path, old_path)] called at time
    [now]: the entry of the key is deleted; what follows in the body
    (the existence check, the ignore filter, classification and the
    move) acts on the file system and the database, not on the
    handler, and no exception leaves the body. *)
Definition _process_event (now : Z) (a : EventArgs) (self : t) : t :=
  {| _debounce_events := delete (event_key a) (_debounce_events self);
     _debounce_delay := _debounce_delay self;
     timers := timers self;
     processed := processed self ++ [(now, a)] |}.

(** Timer [i] wakes up if it is due at [now]. *)
Definition Timer_run (now : Z) (self : t) (i : nat) : t :=
  match timers self !! i with
  | Some tm =>
      if finished tm || (now <? fires_at tm) then self
      else
        let self1 := _process_event (fires_at tm) (args tm) self in
        {| _debounce_events := _debounce_events self1;
           _debounce_delay := _debounce_delay self1;
           timers := alter Timer_cancel i (timers self1);
           processed := processed self1 |}
  | None => self
  end.

(** Time passes until [now]: every timer due by then runs, in the
    order the timers were started. *)
Definition run_due (now : Z) (self : t) : t :=
  foldl (Timer_run now) self (seq 0 (length (timers self))).

(** A watchdog event. *)
Inductive FileSystemEvent : Type :=
  | FileCreatedEvent (is_directory : bool) (src_path : string)
  | FileMovedEvent (is_directory : bool) (src_path dest_path : string)
  | OtherEvent.

Definition on_created (now : Z) (is_directory : bool) (src_path : string)
    (self : t) : t :=
  if negb is_directory
  then _debounce_event now (mkArgs "created" src_path None) self
  else self.

Definition on_moved (now : Z) (is_directory : bool)
    (src_path dest_path : string) (self : t) : t :=
  if negb is_directory
  then _debounce_event now (mkArgs "moved" dest_path (Some src_path)) self
  else self.

(** [FileSystemEventHandler.dispatch(event)] *)
Definition dispatch (now : Z) (event : FileSystemEvent) (self : t) : t :=
  match event with
  | FileCreatedEvent d src => on_created now d src self
  | FileMovedEvent d src dest => on_moved now d src dest self
  | OtherEvent => self
  end.

Definition ignore_patterns : list string :=
  [".tmp"; ".temp"; ".lock"; ".crdownload"; ".part";
   "thumbs.db"; "desktop.ini"; ".ds_store"].

(** [_should_ignore_file(file_path)] *)
Definition _should_ignore_file (file_path : string) : bool :=
  let file_path_obj := Pathlib.of_str file_path in
  (* Check filename patterns *)
  let filename_lower := Str.lower (Pathlib.name file_path_obj) in
  if existsb (fun pattern => Str.contains pattern filename_lower) ignore_patterns
  then true
  (* Ignore files starting with dot (hidden files) *)
  else if Str.startswith (Pathlib.name file_path_obj) "."
  then true
  else false.

(** An event arrives at time [now]: the timers due by then have run. *)
Definition arrive (self : t) (e : Z * EventArgs) : t :=
  _debounce_event (fst e) (snd e) (run_due (fst e) self).

(** What the handler holds for one key: the timer that is pending for
    it, with the time it fires and its arguments, and the calls of
    [_process_event] made for it. *)
Definition pending (k : string) (self : t) : option (Z * EventArgs) :=
  match _debounce_events self !! k with
  | Some i =>
      match timers self !! i with
      | Some tm => if finished tm then None else Some (fires_at tm, args tm)
      | None => None
      end
  | None => None
  end.

Definition for_key (k : string) (c : Z * EventArgs) : Prop :=
  event_key (snd c) = k.

#[global] Instance for_key_dec k c : Decision (for_key k c).
Proof. unfold for_key. apply _. Defined.

Definition processed_for (k : string) (self : t) : list (Z * EventArgs) :=
  filter (for_key k) (processed self).

Definition view (k : string) (self : t) :=
  (pending k self, processed_for k self).

(** The map and the timers agree: a timer that has not finished is the
    one registered under its key, and a registered timer exists and
    carries the key it is registered under. *)
Definition consistent (self : t) : Prop :=
  (forall i tm, timers self !! i = Some tm -> finished tm = false ->
     _debounce_events self !! event_key (args tm) = Some i) /\
  (forall k i, _debounce_events self !! k = Some i ->
     exists tm, timers self !! i = Some tm /\ event_key (args tm) = k).

(** The same steps seen from one key: time passing until [now], and the
    arrival of an event. *)
Definition fire_view (now : Z) (v : option (Z * EventArgs) * list (Z * EventArgs))
    : option (Z * EventArgs) * list (Z * EventArgs) :=
  match fst v with
  | Some (d, a) => if d <=? now then (None, snd v ++ [(d, a)]) else v
  | None => v
  end.

Definition arrive_view (k : string) (delay : Z)
    (v : option (Z * EventArgs) * list (Z * EventArgs)) (e : Z * EventArgs)
    : option (Z * EventArgs) * list (Z * EventArgs) :=
  let v' := fire_view (fst e) v in
  if decide (event_key (snd e) = k) then (Some (fst e + delay, snd e), snd v')
  else v'.

(** The times of a schedule do not decrease, starting from [t]. *)
Fixpoint nondecreasing_from (t : Z) (ts : list Z) : Prop :=
  match ts with
  | [] => True
  | t' :: ts' => t <= t' /\ nondecreasing_from t' ts'
  end.

(** Each time comes less than [delay] after the one before it. *)
Fixpoint within_window (delay : Z) (t : Z) (ts : list Z) : Prop :=
  match ts with
  | [] => True
  | t' :: ts' => t' < t + delay /\ within_window delay t' ts'
  end.

End FileWatcherHandler.

(** ** [FileWatcher] *)

Module FileWatcher.

(** The watchdog [Observer] thread. *)
Inductive Observer : Type := NotStarted | Alive | Stopped.

Record t : Type := mk {
  observer : Observer;
  event_handler : FileWatcherHandler.t;
  _running : bool
}.

Definition init : t :=
  {| observer := NotStarted; event_handler := FileWatcherHandler.init;
     _running := false |}.

(** What [start] meets outside the watcher: the value of
    [config_manager.get_watch_paths()] or the exception it raises
    ([AttributeError] when [config.yaml] does not hold a mapping), what
    [observer.schedule] does for a path, and whether the emitters of
    the scheduled paths start. *)
Record StartEnv : Type := mkStartEnv {
  get_watch_paths : result (list string);
  observer_schedule : string -> result unit;
  emitters_start : result unit
}.

Section Start.
Context `{FileSystem}.

(** [for path in watch_paths]: the paths that exist are scheduled,
    the others are logged. *)
Fixpoint schedule_paths (env : StartEnv) (fs : FS) (watch_paths : list string)
    : result unit :=
  match watch_paths with
  | [] => Ok tt
  | path :: rest =>
      if os_path_exists fs path
      then let? _u := observer_schedule env path in schedule_paths env fs rest
      else schedule_paths env fs rest
  end.

(** [observer.start()]: the emitters are started, then the thread of
    the observer, and a thread can be started once only. *)
Definition observer_start (env : StartEnv) (o : Observer) : Observer * result unit :=
  match emitters_start env with
  | Raise e => (o, Raise e)
  | Ok _ =>
      match o with
      | NotStarted => (Alive, Ok tt)
      | _ => (o, Raise (RuntimeError "threads can only be started once"))
      end
  end.

(** [start()]: the handler logs an exception and raises it again. *)
Definition start (env : StartEnv) (fs : FS) (self : t) : t * result unit :=
  if _running self then (self, Ok tt)
  else
    match (let? watch_paths := get_watch_paths env in
           schedule_paths env fs watch_paths) with
    | Raise e => (self, Raise e)
    | Ok _ =>
        match observer_start env (observer self) with
        | (o, Raise e) =>
            ({| observer := o; event_handler := event_handler self;
                _running := _running self |}, Raise e)
        | (o, Ok _) =>
            ({| observer := o; event_handler := event_handler self;
                _running := true |}, Ok tt)
        end
    end.

End Start.

(** [stop()]: [observer.stop()], [observer.join()], [_running = False]. *)
Definition stop (self : t) : t :=
  if negb (_running self) then self
  else
    {| observer := Stopped; event_handler := event_handler self;
       _running := false |}.

(** Time passes until [now]. *)
Definition tick (now : Z) (self : t) : t :=
  {| observer := observer self;
     event_handler := FileWatcherHandler.run_due now (event_handler self);
     _running := _running self |}.

(** The file system reports [event] at time [now]: the observer thread
    hands it to the handler while it is alive. *)
Definition emit (now : Z) (event : FileWatcherHandler.FileSystemEvent)
    (self : t) : t :=
  let self := tick now self in
  match observer self with
  | Alive =>
      {| observer := observer self;
         event_handler := FileWatcherHandler.dispatch now event (event_handler self);
         _running := _running self |}
  | _ => self
  end.

(** [is_running()] *)
Definition is_running (self : t) : bool :=
  _running self &&
  match observer self with
  | Alive => true
  | _ => false
  end.

(** The file system reports the events of a list one after the other,
    each with its time. *)
Definition emit_all (self : t)
    (events : list (Z * FileWatcherHandler.FileSystemEvent)) : t :=
  foldl (fun w e => emit (fst e) (snd e) w) self events.

End FileWatcher.

(** ** Implementations of the interfaces, for the examples *)

Module Examples.

(** A regular-expression engine for literal patterns: a pattern with
    a parenthesis or a bracket is rejected, any other is searched as
    it is written. *)
#[local] Instance literal_regex : RegexEngine := {|
  Pattern := string * bool;
  re_compile pattern IGNORECASE :=
    if Str.contains "(" pattern || Str.contains "[" pattern then None
    else Some (if IGNORECASE then Str.lower pattern else pattern, IGNORECASE);
  Pattern_search p s :=
    Str.contains (fst p) (if snd p then Str.lower s else s)
|}.

(** A system without a MIME table. *)
#[local] Instance no_mimetypes : Mimetypes := {|
  guess_type _ := None
|}.

(** A file system: the files with their sizes, and whether the disk
    can be written. *)
Record disk : Type := mkDisk {
  files : list (string * Z);
  writable : bool
}.

Definition disk_lookup (d : disk) (p : string) : option Z :=
  snd <$> List.find (fun f => bool_decide (fst f = p)) (files d).

#[local] Instance disk_fs : FileSystem := {|
  FS := disk;
  Path_stat d p :=
    match disk_lookup d (Pathlib.str p) with
    | Some n => Ok (mk_stat n)
    | None => Raise (OSError "No such file or directory")
    end;
  Path_exists d p := Ok (bool_decide (is_Some (disk_lookup d (Pathlib.str p))));
  os_path_exists d p := bool_decide (is_Some (disk_lookup d p));
  Path_mkdir_parents d _ :=
    if writable d then (d, Ok tt) else (d, Raise (OSError "Read-only file system"));
  shutil_move d src dst :=
    match disk_lookup d src with
    | Some n =>
        if writable d
        then (mkDisk ((dst, n) :: List.filter (fun f => negb (bool_decide (fst f = src))) (files d))
                     true, Ok tt)
        else (d, Raise (OSError "Read-only file system"))
    | None => (d, Raise (OSError "No such file or directory"))
    end
|}.

(** A database that keeps the rows in a list and never fails. *)
#[local] Instance list_db : Sqlite := {|
  DB := list ActivityRow;
  insert_activity_log db row := (db ++ [row], Ok tt)
|}.

(** Rules without conditions, for the examples of the evaluation
    order. *)
Definition rule_A : Rule := mkRule (Some "A") (Some 20) (Some true) None None.
Definition rule_B : Rule := mkRule (Some "B") (Some 30) (Some true) None None.
Definition rule_C : Rule := mkRule (Some "C") (Some 10) (Some true) None None.
Definition rule_off : Rule := mkRule (Some "off") (Some 1) (Some false) None None.

Definition the_disk : disk := mkDisk [("notes.txt", 12)] true.
Definition config (rules : list Rule) : ConfigManager.t :=
  ConfigManager.mk (ConfigManager.RuleList rules) None.

(** A rule for PDF files whose MIME type is written with capitals. *)
Definition rule_pdf_capitals : Rule :=
  mkRule (Some "PDF") (Some 10) (Some true)
    (Some (mkConditions None (Some ["Application/PDF"]) None None None None))
    None.

(** A rule without a name, and a rule whose pattern does not compile. *)
Definition rule_nameless : Rule :=
  mkRule None (Some 10) (Some true) None
    (Some (mkActions (Some "finance") None None None)).
Definition rule_bad_regex : Rule :=
  mkRule (Some "broken") (Some 10) (Some true)
    (Some (mkConditions (Some "(") None None None None None))
    None.

(** A disk that cannot be written, and a classification that asks for
    a move. *)
Definition readonly_disk : disk := mkDisk [("notes.txt", 12)] false.
Definition to_archive : Classification :=
  {| cls_label := "documents"; cls_tags := []; cls_mime_type := "text/plain";
     cls_confidence := 0.9; cls_metadata := None;
     cls_rule_matched := Some "Notes";
     cls_move_to := Some "{{HOME}}/Archive/{{YYYY}}/{{BASENAME}}";
     cls_rename_to := None |}.
Definition noon : DateTime := mkDateTime 2024 3 9 12 0 5.
Definition home_dir : result Path := Ok (Pathlib.of_str "/home/user").

(** A directory where [a.txt] and [a_1.txt] are taken, and one where
    [report.] is taken. *)
Definition crowded_disk : disk :=
  mkDisk [("/data/a.txt", 1); ("/data/a_1.txt", 2)] true.
Definition dotted_disk : disk := mkDisk [("/data/report.", 1)] true.

(** A watcher that is started, sees [/watch/a.txt] created at time 0
    and is stopped at time 1000. *)
Definition watch_disk : disk := mkDisk [("/watch", 0)] true.
Definition quiet_env : FileWatcher.StartEnv :=
  FileWatcher.mkStartEnv (Ok ["/watch"; "/missing"]) (fun _ => Ok tt) (Ok tt).
Definition watching : FileWatcher.t :=
  fst (FileWatcher.start quiet_env watch_disk FileWatcher.init).
Definition stopped_early : FileWatcher.t :=
  FileWatcher.stop
    (FileWatcher.tick 1000
       (FileWatcher.emit 0
          (FileWatcherHandler.FileCreatedEvent false "/watch/a.txt") watching)).

(** A directory in which [a.txt] and [a_1.txt] to [a_1000.txt] are all
    taken, a new [a.txt] that waits in [/in], and a classification that
    sends it to [/data]. *)
Definition full_disk : disk :=
  mkDisk (("/in/a.txt", 12) :: ("/data/a.txt", 1)
          :: List.map (fun n => ("/data/a_" +:+ Str.of_nat n +:+ ".txt", 1))
               (seq 1 1000))
         true.
Definition to_data : Classification :=
  {| cls_label := "documents"; cls_tags := []; cls_mime_type := "text/plain";
     cls_confidence := 0.9; cls_metadata := None;
     cls_rule_matched := Some "Data";
     cls_move_to := Some "/data/{{BASENAME}}";
     cls_rename_to := None |}.

End Examples.

(* ===================================================================== *)
(** * Part II: properties                                                 *)
(* ===================================================================== *)


(** ** Facts about the string primitives *)

Section StringFacts.

Lemma app_cons (a : ascii) (s t : string) :
  String a s +:+ t = String a (s +:+ t).
Proof. reflexivity. Qed.

Lemma app_nil_l (s : string) : "" +:+ s = s.
Proof. reflexivity. Qed.

Lemma app_nil_r (s : string) : s +:+ "" = s.
Proof. induction s as [| a s IH]; [reflexivity |]. rewrite app_cons, IH. reflexivity. Qed.

Lemma app_assoc (s t u : string) : (s +:+ t) +:+ u = s +:+ t +:+ u.
Proof.
  induction s as [| a s IH]; [reflexivity |].
  rewrite !app_cons, IH. reflexivity.
Qed.

Lemma length_app (s t : string) :
  String.length (s +:+ t) = (String.length s + String.length t)%nat.
Proof.
  induction s as [| a s IH]; [reflexivity |].
  rewrite app_cons. cbn. now rewrite IH.
Qed.

Lemma take_drop (n : nat) (s : string) : Str.take n s +:+ Str.drop n s = s.
Proof.
  revert s. induction n as [| n IH]; intros [| a s]; try reflexivity.
  cbn. rewrite app_cons, IH. reflexivity.
Qed.

Lemma take_app_length (a b : string) : Str.take (String.length a) (a +:+ b) = a.
Proof.
  induction a as [| c a IH]; [destruct b; reflexivity |].
  rewrite app_cons. cbn. now rewrite IH.
Qed.

Lemma drop_app_length (a b : string) : Str.drop (String.length a) (a +:+ b) = b.
Proof.
  induction a as [| c a IH]; [destruct b; reflexivity |].
  rewrite app_cons. cbn. exact IH.
Qed.

Lemma length_take (n : nat) (s : string) :
  (n <= String.length s)%nat -> String.length (Str.take n s) = n.
Proof.
  revert s. induction n as [| n IH]; intros [| a s] Hn; cbn in *; try lia.
  rewrite IH; lia.
Qed.

Lemma length_drop (n : nat) (s : string) :
  String.length (Str.drop n s) = (String.length s - n)%nat.
Proof.
  revert s. induction n as [| n IH]; intros [| a s]; cbn; try lia.
  apply IH.
Qed.

(** ** Occurrences of a character *)

Lemma rfind_nat_app (c : ascii) (a b : string) :
  Str.rfind_nat c (a +:+ b) =
    match Str.rfind_nat c b with
    | Some j => Some (String.length a + j)%nat
    | None => Str.rfind_nat c a
    end.
Proof.
  induction a as [| x a IH].
  - rewrite app_nil_l. destruct (Str.rfind_nat c b); reflexivity.
  - rewrite app_cons. cbn. rewrite IH.
    destruct (Str.rfind_nat c b); [reflexivity |].
    reflexivity.
Qed.

Lemma rfind_nat_app_None (c : ascii) (a b : string) :
  Str.rfind_nat c (a +:+ b) = None <->
  Str.rfind_nat c a = None /\ Str.rfind_nat c b = None.
Proof.
  rewrite rfind_nat_app. destruct (Str.rfind_nat c b); split.
  - discriminate.
  - intros [_ Hb]. discriminate.
  - intros Ha. split; [exact Ha | reflexivity].
  - intros [Ha _]. exact Ha.
Qed.

Lemma rfind_nat_cons_None (c a : ascii) (s : string) :
  Str.rfind_nat c (String a s) = None <-> a <> c /\ Str.rfind_nat c s = None.
Proof.
  cbn. destruct (Str.rfind_nat c s); [split; [discriminate | intros [_ ?]; discriminate] |].
  destruct (decide (a = c)); split; try discriminate; intros; tauto.
Qed.

(** The last occurrence splits the string. *)
Lemma rfind_nat_Some (c : ascii) (s : string) (i : nat) :
  Str.rfind_nat c s = Some i ->
  exists rest,
    Str.drop i s = String c rest /\ Str.rfind_nat c rest = None /\
    (i < String.length s)%nat.
Proof.
  revert i. induction s as [| a s IH]; intros i; cbn; [discriminate |].
  destruct (Str.rfind_nat c s) as [j |] eqn:Hj.
  - intros [= <-]. destruct (IH j eq_refl) as (rest & Hd & Hr & Hl).
    exists rest. cbn. repeat split; [exact Hd | exact Hr | lia].
  - destruct (decide (a = c)) as [-> | Hne]; [| discriminate].
    intros [= <-]. exists s. cbn. repeat split; [exact Hj | lia].
Qed.

Lemma rfind_nat_drop_None (c : ascii) (n : nat) (s : string) :
  Str.rfind_nat c s = None -> Str.rfind_nat c (Str.drop n s) = None.
Proof.
  intros Hs. rewrite <- (take_drop n s) in Hs.
  now apply rfind_nat_app_None in Hs.
Qed.

Lemma rfind_nat_take_None (c : ascii) (n : nat) (s : string) :
  Str.rfind_nat c s = None -> Str.rfind_nat c (Str.take n s) = None.
Proof.
  intros Hs. rewrite <- (take_drop n s) in Hs.
  now apply rfind_nat_app_None in Hs.
Qed.

(** ** Decimal numerals *)

Lemma digits_go_S (fuel n : nat) (acc : string) :
  Str.digits_go (S fuel) n acc =
    if (n / 10 =? 0)%nat then String (Str.digit_char (n mod 10)) acc
    else Str.digits_go fuel (n / 10) (String (Str.digit_char (n mod 10)) acc).
Proof. reflexivity. Qed.

Lemma all_chars_app (P : ascii -> Prop) (s t : string) :
  Str.all_chars P (s +:+ t) <-> Str.all_chars P s /\ Str.all_chars P t.
Proof.
  induction s as [| a s IH]; [rewrite app_nil_l; cbn; tauto |].
  rewrite app_cons. cbn. rewrite IH. tauto.
Qed.

Lemma all_chars_impl (P Q : ascii -> Prop) (s : string) :
  (forall a, P a -> Q a) -> Str.all_chars P s -> Str.all_chars Q s.
Proof. intros HPQ. induction s as [| a s IH]; cbn; [tauto |]. intros []; auto. Qed.

Lemma all_chars_rfind_nat (c : ascii) (s : string) :
  Str.all_chars (fun a => a <> c) s <-> Str.rfind_nat c s = None.
Proof.
  induction s as [| a s IH]; [cbn; tauto |].
  rewrite rfind_nat_cons_None. cbn. rewrite IH. tauto.
Qed.

Lemma digits_go_digits (fuel n : nat) (acc : string) :
  Str.all_chars Str.is_digit acc -> Str.all_chars Str.is_digit (Str.digits_go fuel n acc).
Proof.
  revert n acc. induction fuel as [| fuel IH]; intros n acc Hacc; [exact Hacc |].
  rewrite digits_go_S.
  assert (Hd : Str.all_chars Str.is_digit (String (Str.digit_char (n mod 10)) acc)).
  { split; [| exact Hacc]. exists (n mod 10)%nat. split; [| reflexivity].
    apply Nat.mod_upper_bound. lia. }
  destruct (n / 10 =? 0)%nat; [exact Hd | now apply IH].
Qed.

Lemma of_nat_digits (n : nat) : Str.all_chars Str.is_digit (Str.of_nat n).
Proof. apply digits_go_digits. exact I. Qed.

Lemma digits_go_nonempty (fuel n : nat) (acc : string) :
  acc <> "" \/ (0 < fuel)%nat -> Str.digits_go fuel n acc <> "".
Proof.
  revert n acc. induction fuel as [| fuel IH]; intros n acc Hor.
  - destruct Hor; [assumption | lia].
  - rewrite digits_go_S. destruct (n / 10 =? 0)%nat; [discriminate |].
    apply IH. left. discriminate.
Qed.

Lemma is_digit_cases (c : ascii) :
  Str.is_digit c ->
  c = "0"%char \/ c = "1"%char \/ c = "2"%char \/ c = "3"%char \/ c = "4"%char \/
  c = "5"%char \/ c = "6"%char \/ c = "7"%char \/ c = "8"%char \/ c = "9"%char.
Proof.
  intros (d & Hd & ->).
  do 10 (destruct d as [| d]; [cbn; tauto |]). lia.
Qed.

(** A numeral has no dot, no slash and no brace. *)
Lemma of_nat_no_char (c : ascii) (n : nat) :
  ~ Str.is_digit c -> Str.rfind_nat c (Str.of_nat n) = None.
Proof.
  intros Hc. apply all_chars_rfind_nat.
  apply (all_chars_impl Str.is_digit); [| apply of_nat_digits].
  intros a Ha ->. exact (Hc Ha).
Qed.

Lemma not_digit (c : ascii) :
  c <> "0"%char -> c <> "1"%char -> c <> "2"%char -> c <> "3"%char ->
  c <> "4"%char -> c <> "5"%char -> c <> "6"%char -> c <> "7"%char ->
  c <> "8"%char -> c <> "9"%char -> ~ Str.is_digit c.
Proof. intros ? ? ? ? ? ? ? ? ? ? Hd. apply is_digit_cases in Hd. tauto. Qed.

End StringFacts.
Import FileClassifier.

(** ** Fallback classification *)

Section FallbackProperties.
Context `{RegexEngine} `{Mimetypes} `{FileSystem}.

Lemma startswith_empty_text (p : string) :
  p <> "" -> Str.startswith "" p = false.
Proof. destruct p; [congruence | reflexivity]. Qed.

Lemma mime_guard (mime_type p : string) :
  p <> "" ->
  negb (bool_decide (mime_type = "")) && Str.startswith mime_type p
  = Str.startswith mime_type p.
Proof.
  intros Hp. case_bool_decide as Hm; [| reflexivity].
  subst. now rewrite startswith_empty_text.
Qed.

(** With no rule matched, [classify_file] returns what
    [_fallback_classification] gives, at confidence 0.5. *)
Lemma classify_file_fallback cfg fs file_path st :
  let p := Pathlib.of_str file_path in
  Path_stat fs p = Ok st ->
  _apply_rules p (resolve_mime p) st (ConfigManager.get_rules cfg) = Ok None ->
  classify_file cfg fs file_path =
    {| cls_label := fb_label (_fallback_classification p (resolve_mime p));
       cls_tags := fb_tags (_fallback_classification p (resolve_mime p));
       cls_mime_type := resolve_mime p;
       cls_confidence := 0.5;
       cls_metadata := Some {| md_filename := Pathlib.name p;
                               md_extension := Str.lower (Pathlib.suffix p);
                               md_size_bytes := st_size st |};
       cls_rule_matched := None;
       cls_move_to := None;
       cls_rename_to := None |}.
Proof.
  intros p Hstat Hrules. unfold classify_file. fold p.
  rewrite Hstat. cbn [rbind]. rewrite Hrules. reflexivity.
Qed.

(** C5. For every file that matches no rule, [classify_file] falls back
    through a fixed order, the first test that holds deciding: a finance
    keyword in the lower-cased file name; then the MIME prefixes
    [image/], [video/], [audio/], each giving the label [media] and
    its type tag; then the document, code and archive extensions; and
    at last [other] with the tag [unclassified].  The confidence is
    0.5 and [rule_matched] is not set.  A file [photo.png] of MIME type
    [image/png] gets [media] with the tags [image], [auto-classified]. *)
Theorem fallback_fixed_order cfg fs file_path st :
  let p := Pathlib.of_str file_path in
  let mime_type := resolve_mime p in
  let filename_lower := Str.lower (Pathlib.name p) in
  let extension := Str.lower (Pathlib.suffix p) in
  let finance :=
    existsb (fun pattern => Str.contains pattern filename_lower) finance_patterns in
  let image := Str.startswith mime_type "image/" in
  let video := Str.startswith mime_type "video/" in
  let audio := Str.startswith mime_type "audio/" in
  let document := Str.mem extension document_types in
  let code := Str.mem extension code_extensions in
  let archive := Str.mem extension archive_extensions in
  Path_stat fs p = Ok st ->
  _apply_rules p mime_type st (ConfigManager.get_rules cfg) = Ok None ->
  let c := classify_file cfg fs file_path in
  cls_confidence c = 0.5%Q /\
  cls_rule_matched c = None /\
  (finance = true ->
     cls_label c = "finance") /\
  (finance = false -> image = true ->
     cls_label c = "media" /\ cls_tags c = ["image"; "auto-classified"]) /\
  (finance = false -> image = false -> video = true ->
     cls_label c = "media" /\ cls_tags c = ["video"; "auto-classified"]) /\
  (finance = false -> image = false -> video = false -> audio = true ->
     cls_label c = "media" /\ cls_tags c = ["audio"; "auto-classified"]) /\
  (finance = false -> image = false -> video = false -> audio = false ->
   document = true ->
     cls_label c = "documents") /\
  (finance = false -> image = false -> video = false -> audio = false ->
   document = false -> code = true ->
     cls_label c = "code") /\
  (finance = false -> image = false -> video = false -> audio = false ->
   document = false -> code = false -> archive = true ->
     cls_label c = "archives") /\
  (finance = false -> image = false -> video = false -> audio = false ->
   document = false -> code = false -> archive = false ->
     cls_label c = "other" /\ cls_tags c = ["unclassified"]) /\
  (Pathlib.name p = "photo.png" -> mime_type = "image/png" ->
     cls_label c = "media" /\ cls_tags c = ["image"; "auto-classified"] /\
     cls_confidence c = 0.5%Q).
Proof.
  intros p mime_type filename_lower extension finance image video audio
    document code archive Hstat Hrules c.
  assert (Hc : c = _) by (exact (classify_file_fallback cfg fs file_path st Hstat Hrules)).
  fold p in Hc. fold mime_type in Hc.
  assert (Hfb : _fallback_classification p mime_type =
    if finance then mkFallback "finance" ["auto-classified"]
    else if image then mkFallback "media" ["image"; "auto-classified"]
    else if video then mkFallback "media" ["video"; "auto-classified"]
    else if audio then mkFallback "media" ["audio"; "auto-classified"]
    else if document then mkFallback "documents" ["document"; "auto-classified"]
    else if code then mkFallback "code" ["source-code"; "auto-classified"]
    else if archive then mkFallback "archives" ["archive"; "auto-classified"]
    else mkFallback "other" ["unclassified"]).
  { unfold _fallback_classification.
    rewrite !mime_guard by discriminate. reflexivity. }
  rewrite Hfb in Hc.
  assert (Hphoto : Pathlib.name p = "photo.png" -> mime_type = "image/png" ->
                   finance = false /\ image = true).
  { intros Hn Hm. subst finance image filename_lower. rewrite Hn, Hm.
    split; reflexivity. }
  clearbody finance image video audio document code archive c.
  subst c.
  repeat split; intros;
    try (destruct Hphoto as [? ?]; [assumption | assumption |]);
    repeat match goal with
           | Hv : ?v = true |- _ => is_var v; subst v
           | Hv : ?v = false |- _ => is_var v; subst v
           end; reflexivity.
Qed.

End FallbackProperties.

(** The scenario of the specification: no rules, [photo.png], no system
    MIME table. *)
Lemma fallback_fixed_order_witness :
  let c := @classify_file Examples.literal_regex Examples.no_mimetypes Examples.disk_fs
             (ConfigManager.mk (ConfigManager.RuleList []) None)
             (Examples.mkDisk [("photo.png", 2048)] true) "photo.png" in
  cls_label c = "media" /\ cls_tags c = ["image"; "auto-classified"] /\
  cls_confidence c = 0.5%Q.
Proof.
  apply (@fallback_fixed_order Examples.literal_regex Examples.no_mimetypes Examples.disk_fs
           (ConfigManager.mk (ConfigManager.RuleList []) None)
           (Examples.mkDisk [("photo.png", 2048)] true) "photo.png" (mk_stat 2048));
    reflexivity.
Defined.

(** ** Rule evaluation order *)

Section RuleOrder.
Context `{RegexEngine}.

(** Inserting [A] into a list leaves before it only rules of strictly
    smaller key. *)
Lemma sorted_insert_self (A : Rule) (s : list Rule) :
  exists pre post,
    sorted_insert A s = pre ++ A :: post /\
    (forall B, In B pre -> In B s /\ (priority_key B < priority_key A)%Z).
Proof.
  induction s as [| y s IH]; simpl.
  - exists [], []. split; [reflexivity | intros B []].
  - destruct (Z.leb_spec (priority_key A) (priority_key y)) as [Hle | Hgt].
    + exists [], (y :: s). split; [reflexivity | intros B []].
    + destruct IH as (pre & post & Heq & Hpre).
      exists (y :: pre), post. rewrite Heq. split; [reflexivity |].
      intros B [<- | HB]; [split; [now left | lia] |].
      destruct (Hpre B HB). split; [now right | assumption].
Qed.

(** Inserting [x] into a list where [A] stands behind rules whose keys
    do not exceed its own: [x] lands before [A] exactly when its key
    does not exceed the key of [A]. *)
Lemma sorted_insert_around (x A : Rule) (pre post : list Rule) :
  (forall B, In B pre -> (priority_key B <= priority_key A)%Z) ->
  exists pre' post',
    sorted_insert x (pre ++ A :: post) = pre' ++ A :: post' /\
    (forall B, In B pre' ->
       In B pre \/ (B = x /\ (priority_key x <= priority_key A)%Z)).
Proof.
  induction pre as [| y pre IH]; intros Hpre; simpl.
  - destruct (Z.leb_spec (priority_key x) (priority_key A)) as [Hle | Hgt].
    + exists [x], post. split; [reflexivity |].
      intros B [<- | []]. right. split; [reflexivity | assumption].
    + exists [], (sorted_insert x post). split; [reflexivity | intros B []].
  - destruct (Z.leb_spec (priority_key x) (priority_key y)) as [Hle | Hgt].
    + exists (x :: y :: pre), post. split; [reflexivity |].
      intros B [<- | HB].
      * right. split; [reflexivity |].
        specialize (Hpre y (or_introl eq_refl)). lia.
      * left. exact HB.
    + destruct IH as (pre' & post' & Heq & Hin).
      { intros B HB. apply Hpre. now right. }
      exists (y :: pre'), post'. rewrite Heq. split; [reflexivity |].
      intros B [<- | HB]; [left; now left |].
      destruct (Hin B HB) as [Hl | Hr]; [left; now right | right; exact Hr].
Qed.

(** Where a rule stands after the stable sort: before it are the rules
    of smaller key, and the rules of equal key that came before it. *)
Lemma sorted_position (l1 l2 : list Rule) (A : Rule) :
  exists pre post,
    sorted (l1 ++ A :: l2) = pre ++ A :: post /\
    (forall B, In B pre ->
       (In B l1 /\ (priority_key B <= priority_key A)%Z) \/
       (In B l2 /\ (priority_key B < priority_key A)%Z)).
Proof.
  induction l1 as [| x l1 IH]; simpl.
  - destruct (sorted_insert_self A (sorted l2)) as (pre & post & Heq & Hpre).
    exists pre, post. split; [exact Heq |].
    intros B HB. right. destruct (Hpre B HB) as [Hin Hlt]. split; [| exact Hlt].
    clear -Hin. revert B Hin. induction l2 as [| z l2 IHl]; simpl; intros B Hin.
    + exact Hin.
    + assert (Hins : forall u s, In B (sorted_insert u s) -> B = u \/ In B s).
      { clear. intros u s. induction s as [| w s IHs]; simpl.
        - intros [<- | []]. now left.
        - destruct (priority_key u <=? priority_key w)%Z; simpl.
          + intros [<- | Hr]; [now left | now right].
          + intros [<- | Hr]; [right; now left |].
            destruct (IHs Hr); [now left | right; now right]. }
      destruct (Hins _ _ Hin) as [-> | Hr]; [now left | right; now apply IHl].
  - destruct IH as (pre & post & Heq & Hpre). rewrite Heq.
    destruct (sorted_insert_around x A pre post) as (pre' & post' & Heq' & Hin').
    { intros B HB. destruct (Hpre B HB) as [[_ Hk] | [_ Hk]]; lia. }
    exists pre', post'. split; [exact Heq' |].
    intros B HB. destruct (Hin' B HB) as [Hl | [-> Hk]].
    + destruct (Hpre B Hl) as [[Hi Hk] | [Hi Hk]].
      * left. split; [now right | exact Hk].
      * right. split; assumption.
    + left. split; [now left | exact Hk].
Qed.

(** The loop passes over rules that are inactive or do not match. *)
Lemma _apply_rules_loop_skip p mime st (pre rest : list Rule) :
  (forall B, In B pre -> default true (active B) = true ->
             _rule_matches p mime st B = Ok false) ->
  _apply_rules_loop p mime st (pre ++ rest) = _apply_rules_loop p mime st rest.
Proof.
  induction pre as [| y pre IH]; intros Hpre; simpl; [reflexivity |].
  destruct (default true (active y)) eqn:Hact; simpl.
  - rewrite (Hpre y (or_introl eq_refl) Hact). simpl.
    apply IH. intros B HB. apply Hpre. now right.
  - apply IH. intros B HB. apply Hpre. now right.
Qed.


End RuleOrder.

Section PriorityOrdering.
Context `{RegexEngine} `{Mimetypes} `{FileSystem}.


End PriorityOrdering.



(** ** When a rule matches *)

Section RuleMatches.
Context `{RegexEngine}.

Lemma result_bool_true_iff (r : result bool) :
  (exists b, r = Ok b /\ negb b = false) <-> r = Ok true.
Proof.
  split.
  - intros (b & -> & Hb). destruct b; [reflexivity | discriminate].
  - intros ->. exists true. split; reflexivity.
Qed.

(** C2, amended. A rule matches a file exactly when every condition
    present in its [when] mapping holds: [filename_regex] searched in
    the file name and [path_regex] searched in the path, both
    ignoring case and anywhere in the text; [mime_in] as membership
    of the MIME type as written, and [mime_startswith] as a prefix of
    the MIME type as written, the case of the letters counting, with
    a MIME type that is not empty; [size_lt_bytes] strictly above
    the size and [size_gt_bytes] strictly below it.  A rule whose
    [when] has no condition, or that has no [when], matches every
    file. *)
Theorem rule_matches_iff_conditions_hold (file_path : Path) (mime_type : string)
    (stat : stat_result) (rule : Rule) :
  (_rule_matches file_path mime_type stat rule = Ok true <->
   conditions_hold file_path mime_type stat (default no_conditions (when rule))) /\
  (default no_conditions (when rule) = no_conditions ->
   _rule_matches file_path mime_type stat rule = Ok true).
Proof.
  assert (Hiff : _rule_matches file_path mime_type stat rule = Ok true <->
     conditions_hold file_path mime_type stat (default no_conditions (when rule))).
  { unfold _rule_matches, conditions_hold.
    destruct (default no_conditions (when rule)) as [fr mi ms pr lt gt]; cbn.
    split.
    - intros Hm.
      destruct fr as [pat |]; cbn in Hm.
      + destruct (re_search pat (Pathlib.name file_path) true) as [[] | e] eqn:Hf;
          cbn in Hm; try discriminate.
        revert Hm.
        destruct mi as [l |]; [unfold Str.mem; case_bool_decide as Hin; cbn; try discriminate |];
        (destruct ms as [pre |];
         [case_bool_decide as Hne; cbn; try discriminate;
          destruct (Str.startswith mime_type pre) eqn:Hsw; cbn; try discriminate |]);
        (destruct pr as [pat2 |]; cbn;
         [destruct (re_search pat2 (Pathlib.str file_path) true) as [[] | e2] eqn:Hp;
          cbn; try discriminate |]);
        (destruct lt as [b1 |];
         [destruct (Z.geb_spec (st_size stat) b1); cbn; try discriminate |]);
        (destruct gt as [b2 |];
         [destruct (Z.leb_spec (st_size stat) b2); cbn; try discriminate |]);
        intros _; repeat split; intros; simplify_eq; auto; try lia.
      + revert Hm.
        destruct mi as [l |]; [unfold Str.mem; case_bool_decide as Hin; cbn; try discriminate |];
        (destruct ms as [pre |];
         [case_bool_decide as Hne; cbn; try discriminate;
          destruct (Str.startswith mime_type pre) eqn:Hsw; cbn; try discriminate |]);
        (destruct pr as [pat2 |]; cbn;
         [destruct (re_search pat2 (Pathlib.str file_path) true) as [[] | e2] eqn:Hp;
          cbn; try discriminate |]);
        (destruct lt as [b1 |];
         [destruct (Z.geb_spec (st_size stat) b1); cbn; try discriminate |]);
        (destruct gt as [b2 |];
         [destruct (Z.leb_spec (st_size stat) b2); cbn; try discriminate |]);
        intros _; repeat split; intros; simplify_eq; auto; try lia.
    - intros (Hfr & Hmi & Hms & Hpr & Hlt & Hgt).
      assert (E1 : match fr with
                   | Some pattern => re_search pattern (Pathlib.name file_path) true
                   | None => Ok true
                   end = Ok true).
      { destruct fr; [now apply Hfr | reflexivity]. }
      rewrite E1. cbn.
      assert (E2 : match mi with
                   | Some l => negb (Str.mem mime_type l)
                   | None => false
                   end = false).
      { destruct mi as [l |]; [| reflexivity]. unfold Str.mem.
        rewrite bool_decide_true; [reflexivity | now apply Hmi]. }
      rewrite E2.
      assert (E3 : match ms with
                   | Some p => bool_decide (mime_type = "") || negb (Str.startswith mime_type p)
                   | None => false
                   end = false).
      { destruct ms as [pre |]; [| reflexivity].
        destruct (Hms pre eq_refl) as [Hne Hsw].
        rewrite bool_decide_false by assumption. now rewrite Hsw. }
      rewrite E3.
      assert (E4 : match pr with
                   | Some pattern => re_search pattern (Pathlib.str file_path) true
                   | None => Ok true
                   end = Ok true).
      { destruct pr; [now apply Hpr | reflexivity]. }
      rewrite E4. cbn.
      assert (E5 : match lt with
                   | Some bound => (st_size stat >=? bound)%Z
                   | None => false
                   end = false).
      { destruct lt as [b |]; [| reflexivity]. specialize (Hlt b eq_refl). lia. }
      rewrite E5.
      assert (E6 : match gt with
                   | Some bound => (st_size stat <=? bound)%Z
                   | None => false
                   end = false).
      { destruct gt as [b |]; [| reflexivity]. specialize (Hgt b eq_refl). lia. }
      rewrite E6. reflexivity. }
  split; [exact Hiff |].
  intros Hnone. apply Hiff. rewrite Hnone.
  unfold conditions_hold, no_conditions; cbn. repeat split; intros; discriminate.
Qed.

End RuleMatches.

(** C2 as stated fails where it has the comparisons of the MIME type
    ignore case: the rule lists [Application/PDF], the file has the MIME
    type [application/pdf]; every condition holds up to case, and the
    rule does not match. *)
Lemma mime_case_counterexample :
  let p := Pathlib.of_str "report.pdf" in
  let conditions := default no_conditions (when Examples.rule_pdf_capitals) in
  @spec_conditions_hold Examples.literal_regex p "application/pdf" (mk_stat 1024) conditions /\
  @_rule_matches Examples.literal_regex p "application/pdf" (mk_stat 1024)
     Examples.rule_pdf_capitals = Ok false /\
  ~ (@_rule_matches Examples.literal_regex p "application/pdf" (mk_stat 1024)
       Examples.rule_pdf_capitals = Ok true <->
     @spec_conditions_hold Examples.literal_regex p "application/pdf" (mk_stat 1024) conditions).
Proof.
  assert (Hs : @spec_conditions_hold Examples.literal_regex (Pathlib.of_str "report.pdf")
                 "application/pdf" (mk_stat 1024)
                 (default no_conditions (when Examples.rule_pdf_capitals))).
  { unfold spec_conditions_hold; cbn. repeat split; intros; simplify_eq.
    vm_compute. apply list_elem_of_In. now left. }
  cbv zeta. split; [exact Hs |]. split; [vm_compute; reflexivity |].
  intros [_ Hback]. specialize (Hback Hs). vm_compute in Hback. discriminate.
Qed.

(** ** Loading rules *)

Section LoadingRules.
Context `{RegexEngine} `{Mimetypes} `{FileSystem}.

Lemma get_rules_stored cfg rules :
  ConfigManager.rules_file cfg = ConfigManager.RuleList rules ->
  ConfigManager.get_rules cfg = rules.
Proof.
  intros Hf. unfold ConfigManager.get_rules, ConfigManager.json_load.
  rewrite Hf. reflexivity.
Qed.

(** The loop raises at the first active rule, in the order of the
    stable sort, whose evaluation raises. *)
Lemma _apply_rules_raises p mime st (l1 l2 : list Rule) (A : Rule) e :
  default true (active A) = true ->
  (_rule_matches p mime st A = Raise e \/
   (_rule_matches p mime st A = Ok true /\ name A = None /\ e = KeyError "name")) ->
  (forall B, In B l1 -> default true (active B) = true ->
     (priority_key B <= priority_key A)%Z ->
     _rule_matches p mime st B = Ok false) ->
  (forall B, In B l2 -> default true (active B) = true ->
     (priority_key B < priority_key A)%Z ->
     _rule_matches p mime st B = Ok false) ->
  _apply_rules p mime st (l1 ++ A :: l2) = Raise e.
Proof.
  intros Hact Hbad Hl1 Hl2. unfold _apply_rules.
  destruct (sorted_position l1 l2 A) as (pre & post & Heq & Hpre).
  rewrite Heq, _apply_rules_loop_skip.
  - simpl. rewrite Hact. simpl.
    destruct Hbad as [-> | (-> & Hn & ->)]; [reflexivity |].
    simpl. unfold rule_name. rewrite Hn. reflexivity.
  - intros B HB HactB. destruct (Hpre B HB) as [[Hi Hk] | [Hi Hk]].
    + now apply Hl1.
    + now apply Hl2.
Qed.

(** C7, amended. Loading a ruleset never fails and rejects no rule:
    [get_rules] returns the rules as they are stored, [add_rule]
    returns [True] for every rule and, when the file can be written,
    stores the rule at the end.  So loading succeeds for every input
    whose rules all have a name and patterns that compile, and for
    every other input too.  A rule without a name, or with a
    [filename_regex] or [path_regex] that does not compile, is found
    out when [classify_file] evaluates it: the exception stays inside
    [classify_file], which returns the label [other] with confidence
    0.0 and no rule matched. *)
Theorem loading_rules_never_rejects cfg fs file_path st
    (l1 l2 : list Rule) (A : Rule) e :
  let p := Pathlib.of_str file_path in
  let mime_type := resolve_mime p in
  ConfigManager.rules_file cfg = ConfigManager.RuleList (l1 ++ A :: l2) ->
  Path_stat fs p = Ok st ->
  default true (active A) = true ->
  (_rule_matches p mime_type st A = Raise e \/
   (_rule_matches p mime_type st A = Ok true /\ name A = None /\ e = KeyError "name")) ->
  (forall B, In B l1 -> default true (active B) = true ->
     (priority_key B <= priority_key A)%Z ->
     _rule_matches p mime_type st B = Ok false) ->
  (forall B, In B l2 -> default true (active B) = true ->
     (priority_key B < priority_key A)%Z ->
     _rule_matches p mime_type st B = Ok false) ->
  ConfigManager.get_rules cfg = l1 ++ A :: l2 /\
  (forall rule,
     snd (ConfigManager.add_rule cfg rule) = true /\
     (ConfigManager.rules_file_write_error cfg = None ->
      ConfigManager.get_rules (fst (ConfigManager.add_rule cfg rule))
      = (l1 ++ A :: l2) ++ [rule])) /\
  let c := classify_file cfg fs file_path in
  cls_label c = "other" /\ cls_confidence c = 0.0%Q /\
  cls_tags c = [] /\ cls_rule_matched c = None /\ cls_move_to c = None.
Proof.
  intros p mime_type Hfile Hstat Hact Hbad Hl1 Hl2.
  pose proof (get_rules_stored cfg _ Hfile) as Hget.
  split; [exact Hget |]. split.
  - intros rule. split; [reflexivity |].
    intros Hw. unfold ConfigManager.add_rule, ConfigManager.save_rules,
      ConfigManager._save_rules, ConfigManager.json_dump. cbn.
    rewrite Hw, Hget. reflexivity.
  - unfold classify_file. fold p. fold mime_type.
    rewrite Hstat. cbn [rbind]. rewrite Hget.
    rewrite (_apply_rules_raises p mime_type st l1 l2 A e Hact Hbad Hl1 Hl2).
    cbn. repeat split; reflexivity.
Qed.

End LoadingRules.

(** C7 as stated fails: a ruleset with a rule that has no name and a
    rule whose [filename_regex] does not compile is loaded as it is, and
    each of the two rules is added with success. *)
Lemma invalid_rules_load_counterexample :
  let cfg := Examples.config [Examples.rule_nameless; Examples.rule_bad_regex] in
  ~ @spec_rule_valid Examples.literal_regex Examples.rule_nameless /\
  ~ @spec_rule_valid Examples.literal_regex Examples.rule_bad_regex /\
  ConfigManager.get_rules cfg = [Examples.rule_nameless; Examples.rule_bad_regex] /\
  ConfigManager.add_rule (Examples.config []) Examples.rule_nameless
    = (Examples.config [Examples.rule_nameless], true) /\
  ConfigManager.add_rule (Examples.config []) Examples.rule_bad_regex
    = (Examples.config [Examples.rule_bad_regex], true).
Proof.
  cbv zeta. repeat split.
  - intros [[n Hn] _]. discriminate Hn.
  - intros (_ & Hc & _). destruct (Hc "(" eq_refl) as [x Hx]. vm_compute in Hx. discriminate Hx.
Qed.

(** The rule without a name, met by [classify_file]. *)
Lemma loading_rules_never_rejects_witness :
  let cfg := Examples.config [Examples.rule_B; Examples.rule_nameless] in
  ConfigManager.get_rules cfg = [Examples.rule_B; Examples.rule_nameless] /\
  (forall rule,
     snd (ConfigManager.add_rule cfg rule) = true /\
     (ConfigManager.rules_file_write_error cfg = None ->
      ConfigManager.get_rules (fst (ConfigManager.add_rule cfg rule))
      = ([Examples.rule_B] ++ Examples.rule_nameless :: []) ++ [rule])) /\
  let c := @classify_file Examples.literal_regex Examples.no_mimetypes Examples.disk_fs
             cfg Examples.the_disk "notes.txt" in
  cls_label c = "other" /\ cls_confidence c = 0.0%Q /\
  cls_tags c = [] /\ cls_rule_matched c = None /\ cls_move_to c = None.
Proof.
  apply (@loading_rules_never_rejects Examples.literal_regex Examples.no_mimetypes
           Examples.disk_fs
           (Examples.config [Examples.rule_B; Examples.rule_nameless])
           Examples.the_disk "notes.txt" (mk_stat 12)
           [Examples.rule_B] [] Examples.rule_nameless (KeyError "name")).
  - reflexivity.
  - reflexivity.
  - reflexivity.
  - right. repeat split; reflexivity.
  - intros B [<- | []]. vm_compute. intros _ Hk. exfalso. apply Hk. reflexivity.
  - intros B [].
Defined.

(** ** [organize_file] *)

Section OrganizeFile.
Context `{FileSystem} `{Sqlite}.
Import FileOrganizer.

(** C6. [organize_file] never raises: it returns a path for every file
    path and classification, whatever the file system and the
    database do.  Without a [move_to] template ([None] or the empty
    string) it returns the source path and changes nothing.  When the
    creation of the directory, the search for a free name or the move
    raises, it returns [file_path] and calls [log_activity] with the
    action [file_organize_failed], the text of the exception and the
    status [error]. *)
Theorem organize_file_never_raises (fs : FS) (db : DB) (now : DateTime)
    (home : result Path) (file_path : string) (classification : Classification) :
  let source_path := Pathlib.of_str file_path in
  let failed (e : exn) :=
    DatabaseManager.log_activity db "file_organize_failed" file_path
      [("error", exn_str e)] "error" in
  (exists fs' db' final,
     organize_file fs db now home file_path classification = (fs', db', Ok final)) /\
  (cls_move_to classification = None \/ cls_move_to classification = Some "" ->
     organize_file fs db now home file_path classification
     = (fs, db, Ok (Pathlib.str source_path))) /\
  (forall move_to fs1 e,
     cls_move_to classification = Some move_to -> move_to <> "" ->
     let destination_path :=
       Pathlib.of_str (_expand_path_template move_to source_path now home) in
     Path_mkdir_parents fs (Pathlib.parent destination_path) = (fs1, Raise e) ->
     organize_file fs db now home file_path classification
     = (fs1, failed e, Ok file_path)) /\
  (forall move_to fs1 u e,
     cls_move_to classification = Some move_to -> move_to <> "" ->
     let destination_path :=
       Pathlib.of_str (_expand_path_template move_to source_path now home) in
     Path_mkdir_parents fs (Pathlib.parent destination_path) = (fs1, Ok u) ->
     _resolve_filename_conflict fs1 destination_path = Raise e ->
     organize_file fs db now home file_path classification
     = (fs1, failed e, Ok file_path)) /\
  (forall move_to fs1 fs2 u final_destination e,
     cls_move_to classification = Some move_to -> move_to <> "" ->
     let destination_path :=
       Pathlib.of_str (_expand_path_template move_to source_path now home) in
     Path_mkdir_parents fs (Pathlib.parent destination_path) = (fs1, Ok u) ->
     _resolve_filename_conflict fs1 destination_path = Ok final_destination ->
     shutil_move fs1 (Pathlib.str source_path) (Pathlib.str final_destination)
     = (fs2, Raise e) ->
     organize_file fs db now home file_path classification
     = (fs2, failed e, Ok file_path)).
Proof.
  intros source_path failed. repeat split.
  - unfold organize_file.
    destruct (organize_file_try fs db now home file_path classification)
      as [[fs' db'] [final | e]]; eauto.
  - intros [Hm | Hm]; unfold organize_file, organize_file_try; rewrite Hm; reflexivity.
  - intros move_to fs1 e Hm Hne destination_path Hmk.
    unfold organize_file, organize_file_try. rewrite Hm.
    destruct move_to as [| c move_to']; [congruence |].
    fold source_path. fold destination_path. rewrite Hmk. reflexivity.
  - intros move_to fs1 u e Hm Hne destination_path Hmk Hres.
    unfold organize_file, organize_file_try. rewrite Hm.
    destruct move_to as [| c move_to']; [congruence |].
    fold source_path. fold destination_path. rewrite Hmk, Hres. reflexivity.
  - intros move_to fs1 fs2 u final_destination e Hm Hne destination_path Hmk Hres Hmv.
    unfold organize_file, organize_file_try. rewrite Hm.
    destruct move_to as [| c move_to']; [congruence |].
    fold source_path. fold destination_path. rewrite Hmk, Hres, Hmv. reflexivity.
Qed.

End OrganizeFile.

(** On a disk that cannot be written the file stays where it is and the
    failure is in the activity log. *)
Lemma organize_file_never_raises_witness :
  @FileOrganizer.organize_file Examples.disk_fs Examples.list_db
    Examples.readonly_disk [] Examples.noon Examples.home_dir
    "notes.txt" Examples.to_archive
  = (Examples.readonly_disk,
     [mkActivityRow "file_organize_failed" "notes.txt"
        [("error", "Read-only file system")] "error"],
     Ok "notes.txt").
Proof.
  destruct (@organize_file_never_raises Examples.disk_fs Examples.list_db
              Examples.readonly_disk [] Examples.noon Examples.home_dir
              "notes.txt" Examples.to_archive) as (_ & _ & Hmkdir & _).
  apply (Hmkdir "{{HOME}}/Archive/{{YYYY}}/{{BASENAME}}" Examples.readonly_disk
           (OSError "Read-only file system")).
  - reflexivity.
  - discriminate.
  - reflexivity.
Defined.

(** ** Conflict resolution *)

Section ConflictResolution.
Context `{FileSystem}.
Import FileOrganizer.

Variable fs : FS.
Variable destination_path : Path.

Local Abbreviation loop :=
  (_resolve_loop fs destination_path (Pathlib.parent destination_path)
     (Pathlib.stem destination_path) (Pathlib.suffix destination_path)).

(** One turn of the loop. *)
Lemma _resolve_loop_step (fuel counter : nat) :
  loop (S fuel) counter
  = match Path_exists fs (candidate destination_path counter) with
    | Raise e => Some (Raise e)
    | Ok found =>
        if negb found then Some (Ok (candidate destination_path counter))
        else if (1000 <? counter + 1)%nat then Some (Ok destination_path)
             else loop fuel (counter + 1)%nat
    end.
Proof. reflexivity. Qed.

(** The loop returns the first free candidate from [counter] on. *)
Lemma _resolve_loop_first_free (fuel counter N : nat) :
  (counter <= N <= 1000)%nat -> (N < counter + fuel)%nat ->
  Path_exists fs (candidate destination_path N) = Ok false ->
  (forall M, (counter <= M < N)%nat ->
             Path_exists fs (candidate destination_path M) = Ok true) ->
  loop fuel counter = Some (Ok (candidate destination_path N)).
Proof.
  revert counter. induction fuel as [| fuel IH]; intros counter Hr Hf Hfree Hbusy.
  - lia.
  - rewrite _resolve_loop_step.
    destruct (decide (counter = N)) as [-> | Hne].
    + rewrite Hfree. reflexivity.
    + rewrite (Hbusy counter ltac:(lia)). cbn [negb].
      destruct (Nat.ltb_spec 1000 (counter + 1)) as [Hgt | Hle]; [lia |].
      apply IH; [lia | lia | exact Hfree |].
      intros M HM. apply Hbusy. lia.
Qed.

(** The loop ends with the error of the first [exists()] that raises. *)
Lemma _resolve_loop_raises (fuel counter N : nat) (e : exn) :
  (counter <= N <= 1000)%nat -> (N < counter + fuel)%nat ->
  Path_exists fs (candidate destination_path N) = Raise e ->
  (forall M, (counter <= M < N)%nat ->
             Path_exists fs (candidate destination_path M) = Ok true) ->
  loop fuel counter = Some (Raise e).
Proof.
  revert counter. induction fuel as [| fuel IH]; intros counter Hr Hf Hraise Hbusy.
  - lia.
  - rewrite _resolve_loop_step.
    destruct (decide (counter = N)) as [-> | Hne].
    + rewrite Hraise. reflexivity.
    + rewrite (Hbusy counter ltac:(lia)). cbn [negb].
      destruct (Nat.ltb_spec 1000 (counter + 1)) as [Hgt | Hle]; [lia |].
      apply IH; [lia | lia | exact Hraise |].
      intros M HM. apply Hbusy. lia.
Qed.

(** With every candidate from [counter] to 1000 taken, the loop gives
    the destination back. *)
Lemma _resolve_loop_exhausted (fuel counter : nat) :
  (1 <= counter <= 1000)%nat -> (1001 <= counter + fuel)%nat ->
  (forall M, (counter <= M <= 1000)%nat ->
             Path_exists fs (candidate destination_path M) = Ok true) ->
  loop fuel counter = Some (Ok destination_path).
Proof.
  revert counter. induction fuel as [| fuel IH]; intros counter Hr Hf Hbusy.
  - lia.
  - rewrite _resolve_loop_step, (Hbusy counter ltac:(lia)). cbn [negb].
    destruct (Nat.ltb_spec 1000 (counter + 1)) as [Hgt | Hle]; [reflexivity |].
    apply IH; [lia | lia |]. intros M HM. apply Hbusy. lia.
Qed.

(** The loop ends, and more fuel does not change how it ends. *)
Lemma _resolve_loop_returns (fuel counter : nat) :
  (counter <= 1000)%nat -> (1001 <= counter + fuel)%nat ->
  exists r, loop fuel counter = Some r.
Proof.
  revert counter. induction fuel as [| fuel IH]; intros counter Hc Hf.
  - lia.
  - rewrite _resolve_loop_step.
    destruct (Path_exists fs _) as [[] | e]; cbn [negb]; [| eauto | eauto].
    destruct (Nat.ltb_spec 1000 (counter + 1)); [eauto |].
    apply IH; lia.
Qed.

Lemma _resolve_loop_more_fuel (fuel fuel' counter : nat) r :
  (fuel <= fuel')%nat ->
  loop fuel counter = Some r -> loop fuel' counter = Some r.
Proof.
  revert fuel' counter. induction fuel as [| fuel IH]; intros fuel' counter Hle.
  - discriminate.
  - destruct fuel' as [| fuel']; [lia |].
    rewrite !_resolve_loop_step.
    destruct (Path_exists fs _) as [[] | e]; cbn [negb]; [| auto | auto].
    destruct (Nat.ltb_spec 1000 (counter + 1)); [auto |].
    apply IH. lia.
Qed.

Lemma loop_fuel_enough : (1000 <= loop_fuel)%nat.
Proof. unfold loop_fuel. lia. Qed.

Lemma _resolve_filename_conflict_fuel_taken (fuel : nat) :
  Path_exists fs destination_path = Ok true ->
  _resolve_filename_conflict_fuel fuel fs destination_path = loop fuel 1%nat.
Proof.
  intros Hex. unfold _resolve_filename_conflict_fuel. rewrite Hex. reflexivity.
Qed.

Lemma _resolve_filename_conflict_fuel_free (fuel : nat) :
  Path_exists fs destination_path = Ok false ->
  _resolve_filename_conflict_fuel fuel fs destination_path = Some (Ok destination_path).
Proof.
  intros Hex. unfold _resolve_filename_conflict_fuel. rewrite Hex. reflexivity.
Qed.

Lemma _resolve_filename_conflict_fuel_raises (fuel : nat) (e : exn) :
  Path_exists fs destination_path = Raise e ->
  _resolve_filename_conflict_fuel fuel fs destination_path = Some (Raise e).
Proof.
  intros Hex. unfold _resolve_filename_conflict_fuel. rewrite Hex. reflexivity.
Qed.

Lemma _resolve_filename_conflict_fuel_enough (fuel : nat) :
  (1000 <= fuel)%nat ->
  _resolve_filename_conflict_fuel fuel fs destination_path
  = Some (_resolve_filename_conflict fs destination_path).
Proof.
  intros Hfuel. pose proof loop_fuel_enough as Hlf.
  unfold _resolve_filename_conflict.
  destruct (Path_exists fs destination_path) as [[] | e] eqn:Hex.
  - rewrite !(_resolve_filename_conflict_fuel_taken _ Hex).
    destruct (_resolve_loop_returns 1000 1 ltac:(lia) ltac:(lia)) as [r Hr].
    rewrite (_resolve_loop_more_fuel 1000 loop_fuel 1 r Hlf Hr).
    rewrite (_resolve_loop_more_fuel 1000 fuel 1 r Hfuel Hr).
    reflexivity.
  - rewrite !(_resolve_filename_conflict_fuel_free _ Hex). reflexivity.
  - rewrite !(_resolve_filename_conflict_fuel_raises _ e Hex). reflexivity.
Qed.

Lemma _resolve_filename_conflict_loop :
  Path_exists fs destination_path = Ok true ->
  loop loop_fuel 1%nat = Some (_resolve_filename_conflict fs destination_path).
Proof.
  intros Hex.
  rewrite <- (_resolve_filename_conflict_fuel_taken _ Hex).
  apply _resolve_filename_conflict_fuel_enough. exact loop_fuel_enough.
Qed.

Lemma _resolve_filename_conflict_free_destination :
  Path_exists fs destination_path = Ok false ->
  _resolve_filename_conflict fs destination_path = Ok destination_path.
Proof.
  intros Hex. unfold _resolve_filename_conflict.
  rewrite (_resolve_filename_conflict_fuel_free _ Hex). reflexivity.
Qed.

Lemma _resolve_filename_conflict_raises (e : exn) :
  Path_exists fs destination_path = Raise e ->
  _resolve_filename_conflict fs destination_path = Raise e.
Proof.
  intros Hex. unfold _resolve_filename_conflict.
  rewrite (_resolve_filename_conflict_fuel_raises _ e Hex). reflexivity.
Qed.

Lemma _resolve_filename_conflict_first_free (N : nat) :
  Path_exists fs destination_path = Ok true ->
  (1 <= N <= 1000)%nat ->
  Path_exists fs (candidate destination_path N) = Ok false ->
  (forall M, (1 <= M < N)%nat ->
     Path_exists fs (candidate destination_path M) = Ok true) ->
  _resolve_filename_conflict fs destination_path = Ok (candidate destination_path N).
Proof.
  intros Hex HN Hfree Hbusy.
  pose proof (_resolve_filename_conflict_loop Hex) as Hl.
  pose proof loop_fuel_enough as Hlf.
  rewrite (_resolve_loop_first_free loop_fuel 1 N ltac:(lia) ltac:(lia) Hfree Hbusy) in Hl.
  now injection Hl as <-.
Qed.

Lemma _resolve_filename_conflict_candidate_raises (N : nat) (e : exn) :
  Path_exists fs destination_path = Ok true ->
  (1 <= N <= 1000)%nat ->
  Path_exists fs (candidate destination_path N) = Raise e ->
  (forall M, (1 <= M < N)%nat ->
     Path_exists fs (candidate destination_path M) = Ok true) ->
  _resolve_filename_conflict fs destination_path = Raise e.
Proof.
  intros Hex HN Hraise Hbusy.
  pose proof (_resolve_filename_conflict_loop Hex) as Hl.
  pose proof loop_fuel_enough as Hlf.
  rewrite (_resolve_loop_raises loop_fuel 1 N e ltac:(lia) ltac:(lia) Hraise Hbusy) in Hl.
  now injection Hl as <-.
Qed.

Lemma _resolve_filename_conflict_exhausted :
  Path_exists fs destination_path = Ok true ->
  (forall M, (1 <= M <= 1000)%nat ->
     Path_exists fs (candidate destination_path M) = Ok true) ->
  _resolve_filename_conflict fs destination_path = Ok destination_path.
Proof.
  intros Hex Hbusy.
  pose proof (_resolve_filename_conflict_loop Hex) as Hl.
  pose proof loop_fuel_enough as Hlf.
  rewrite (_resolve_loop_exhausted loop_fuel 1 ltac:(lia) ltac:(lia) Hbusy) in Hl.
  now injection Hl as <-.
Qed.

(** The path returned is the destination or one of the 1000
    candidates, and a candidate returned does not exist. *)
Lemma _resolve_loop_range (fuel counter : nat) q :
  (1 <= counter <= 1000)%nat ->
  loop fuel counter = Some (Ok q) ->
  q = destination_path \/
  exists N, (counter <= N <= 1000)%nat /\ q = candidate destination_path N /\
            Path_exists fs q = Ok false.
Proof.
  revert counter. induction fuel as [| fuel IH]; intros counter Hc.
  - discriminate.
  - rewrite _resolve_loop_step.
    destruct (Path_exists fs (candidate destination_path counter)) as [[] | e] eqn:Hex;
      cbn [negb].
    + destruct (Nat.ltb_spec 1000 (counter + 1)) as [Hgt | Hle].
      * intros [= <-]. now left.
      * intros Hq.
        destruct (IH (counter + 1)%nat ltac:(lia) Hq) as [-> | (N & HN & -> & Hfree)];
          [now left | right].
        exists N. repeat split; [lia | lia | exact Hfree].
    + intros [= <-]. right. exists counter.
      repeat split; [lia | lia | exact Hex].
    + discriminate.
Qed.

Lemma _resolve_filename_conflict_range q :
  _resolve_filename_conflict fs destination_path = Ok q ->
  q = destination_path \/
  exists N, (1 <= N <= 1000)%nat /\ q = candidate destination_path N /\
            Path_exists fs (candidate destination_path N) = Ok false.
Proof.
  intros Hq.
  destruct (Path_exists fs destination_path) as [[] | e] eqn:Hex.
  - pose proof (_resolve_filename_conflict_loop Hex) as Hl. rewrite Hq in Hl.
    destruct (_resolve_loop_range loop_fuel 1 _ ltac:(lia) Hl) as [-> | (N & HN & -> & Hfree)];
      [now left | right].
    exists N. repeat split; [lia | lia | exact Hfree].
  - left. rewrite (_resolve_filename_conflict_free_destination Hex) in Hq.
    now injection Hq as <-.
  - rewrite (_resolve_filename_conflict_raises e Hex) in Hq. discriminate.
Qed.

(** When the loop returns a path that exists, every candidate from
    [counter] on is taken. *)
Lemma _resolve_loop_returns_existing (fuel counter : nat) (q : Path) :
  (1 <= counter <= 1000)%nat ->
  loop fuel counter = Some (Ok q) ->
  Path_exists fs q = Ok true ->
  q = destination_path /\
  forall M, (counter <= M <= 1000)%nat ->
    Path_exists fs (candidate destination_path M) = Ok true.
Proof.
  revert counter. induction fuel as [| fuel IH]; intros counter Hc; [discriminate |].
  rewrite _resolve_loop_step.
  destruct (Path_exists fs (candidate destination_path counter)) as [[] | e] eqn:Hex;
    cbn [negb].
  - destruct (Nat.ltb_spec 1000 (counter + 1)) as [Hgt | Hle].
    + intros [= <-] _. split; [reflexivity |].
      intros M HM. assert (M = counter) as -> by lia. exact Hex.
    + intros Hq Hqex. destruct (IH (counter + 1)%nat ltac:(lia) Hq Hqex) as [-> Hbusy].
      split; [reflexivity |]. intros M HM.
      destruct (decide (M = counter)) as [-> | Hne]; [exact Hex | apply Hbusy; lia].
  - intros [= <-] Hqex. congruence.
  - discriminate.
Qed.

Lemma _resolve_filename_conflict_free (q : Path) :
  _resolve_filename_conflict fs destination_path = Ok q ->
  Path_exists fs q = Ok false \/
  (q = destination_path /\ Path_exists fs destination_path = Ok true /\
   forall N, (1 <= N <= 1000)%nat ->
     Path_exists fs (candidate destination_path N) = Ok true).
Proof.
  intros Hq.
  destruct (Path_exists fs destination_path) as [[] | e] eqn:Hex.
  - pose proof (_resolve_filename_conflict_loop Hex) as Hl. rewrite Hq in Hl.
    destruct (_resolve_filename_conflict_range q Hq) as [-> | (N & HN & -> & Hfree)].
    + right. destruct (_resolve_loop_returns_existing _ 1 _ ltac:(lia) Hl Hex)
        as [_ Hbusy].
      split; [reflexivity | split; [reflexivity | exact Hbusy]].
    + now left.
  - left. rewrite (_resolve_filename_conflict_free_destination Hex) in Hq.
    injection Hq as <-. exact Hex.
  - rewrite (_resolve_filename_conflict_raises e Hex) in Hq. discriminate.
Qed.

End ConflictResolution.

(** ** Facts about paths *)

Section PathFacts.

Lemma split_no_sep (sep : ascii) (s : string) :
  Str.rfind_nat sep s = None -> Str.split s sep = [s].
Proof.
  induction s as [| a s IH]; [reflexivity |].
  intros Hs. apply rfind_nat_cons_None in Hs as [Hne Hs].
  cbn. rewrite (IH Hs). destruct (decide (a = sep)); [contradiction | reflexivity].
Qed.

Lemma split_parts_no_sep (sep : ascii) (s x : string) :
  In x (Str.split s sep) -> Str.rfind_nat sep x = None.
Proof.
  revert x. induction s as [| a s IH]; intros x.
  - intros [<- | []]. reflexivity.
  - cbn. destruct (decide (a = sep)) as [-> | Hne].
    + intros [<- | Hin]; [reflexivity | now apply IH].
    + destruct (Str.split s sep) as [| h t] eqn:Hsp.
      * intros [<- | []]. apply rfind_nat_cons_None. split; [exact Hne | reflexivity].
      * intros [<- | Hin].
        -- apply rfind_nat_cons_None. split; [exact Hne |]. apply IH. now left.
        -- apply IH. now right.
Qed.

Lemma startswith_no_char (c : ascii) (s p : string) :
  Str.rfind_nat c s = None -> Str.startswith s (String c p) = false.
Proof.
  destruct s as [| a s]; [reflexivity |].
  intros Hs. apply rfind_nat_cons_None in Hs as [Hne _].
  cbn. destruct (decide (c = a)); [congruence | reflexivity].
Qed.

(** A name without a slash that is neither empty nor a dot is a path of
    one part. *)
Lemma of_str_single (s : string) :
  Str.rfind_nat "/" s = None -> s <> "" -> s <> "." ->
  Pathlib.of_str s = Pathlib.mkPath "" [s].
Proof.
  intros Hs Hne Hdot. unfold Pathlib.of_str, Pathlib.splitroot.
  rewrite (startswith_no_char "/" s "" Hs).
  rewrite (split_no_sep _ _ Hs). cbn. unfold Pathlib.is_part.
  rewrite !bool_decide_false by assumption. reflexivity.
Qed.

Lemma of_str_parts_no_slash (d x : string) :
  In x (Pathlib.parts (Pathlib.of_str d)) -> Str.rfind_nat "/" x = None.
Proof.
  unfold Pathlib.of_str. destruct (Pathlib.splitroot d) as [r rel]. cbn.
  intros Hin. apply filter_In in Hin as [Hin _].
  exact (split_parts_no_sep _ _ _ Hin).
Qed.

Lemma last_In_or_default {A : Type} (l : list A) (d : A) :
  List.last l d = d \/ In (List.last l d) l.
Proof.
  induction l as [| a l IH]; [now left |].
  destruct l as [| b l]; [right; now left |].
  destruct IH as [IH | IH]; [left; exact IH | right; right; exact IH].
Qed.

Lemma name_no_slash (d : string) :
  Str.rfind_nat "/" (Pathlib.name (Pathlib.of_str d)) = None.
Proof.
  unfold Pathlib.name.
  destruct (last_In_or_default (Pathlib.parts (Pathlib.of_str d)) "") as [-> | Hin];
    [reflexivity | exact (of_str_parts_no_slash d _ Hin)].
Qed.

(** The two shapes of a file name: without an extension (no dot, or
    the last dot at the start or at the end), or a stem followed by a
    dot and an extension that is not empty. *)
Lemma name_suffix_stem_cases (nm : string) :
  (Pathlib.name_suffix nm = "" /\ Pathlib.name_stem nm = nm /\
   (Str.rfind_nat "." nm = None \/ Str.rfind_nat "." nm = Some 0%nat \/
    Str.endswith nm "." = true)) \/
  (exists i rest,
     (0 < i)%nat /\ rest <> "" /\ Str.rfind_nat "." rest = None /\
     Pathlib.name_stem nm = Str.take i nm /\
     Pathlib.name_suffix nm = String "." rest /\
     nm = Str.take i nm +:+ String "." rest).
Proof.
  unfold Pathlib.name_suffix, Pathlib.name_stem, Str.rfind, Str.len.
  destruct (Str.rfind_nat "." nm) as [i |] eqn:Hi.
  - destruct (rfind_nat_Some _ _ _ Hi) as (rest & Hd & Hr & Hl).
    destruct (Z.ltb_spec 0 (Z.of_nat i)) as [H0 | H0]; cbn [andb].
    + destruct (Z.ltb_spec (Z.of_nat i) (Z.of_nat (String.length nm) - 1)) as [H1 | H1].
      * right. exists i, rest. rewrite Nat2Z.id, Hd.
        repeat split; [lia | | exact Hr |].
        -- intros ->. pose proof (length_drop i nm) as Hld. rewrite Hd in Hld.
           cbn in Hld. lia.
        -- rewrite <- Hd. symmetry. apply take_drop.
      * left. repeat split. right. right.
        assert (i = (String.length nm - 1)%nat) as -> by lia.
        unfold Str.endswith. cbn [String.length].
        pose proof (length_drop (String.length nm - 1) nm) as Hld. rewrite Hd in Hld.
        cbn in Hld. destruct rest; [| cbn in Hld; lia].
        rewrite Hd. rewrite bool_decide_true by reflexivity.
        destruct (Nat.leb_spec 1 (String.length nm)); [reflexivity | lia].
    + left. repeat split. right. left. f_equal. lia.
  - left. cbn. repeat split. now left.
Qed.

(** Putting [mid] between the stem and the extension of a name that
    does not end in a dot keeps the extension, and appends [mid] to
    the stem. *)
Lemma name_suffix_stem_renamed (nm mid : string) :
  Str.rfind_nat "." mid = None -> mid <> "" ->
  Str.endswith nm "." = false ->
  let new_name := Pathlib.name_stem nm +:+ mid +:+ Pathlib.name_suffix nm in
  Pathlib.name_suffix new_name = Pathlib.name_suffix nm /\
  Pathlib.name_stem new_name = Pathlib.name_stem nm +:+ mid.
Proof.
  intros Hmid Hne Hend new_name. subst new_name.
  destruct (name_suffix_stem_cases nm)
    as [(Hsf & Hst & Hcase) | (i & rest & Hi & Hrest & Hr & Hst & Hsf & Hnm)].
  - rewrite Hsf, Hst, app_nil_r.
    assert (Hnew : Str.rfind_nat "." (nm +:+ mid) = None \/
                   Str.rfind_nat "." (nm +:+ mid) = Some 0%nat).
    { rewrite rfind_nat_app, Hmid.
      destruct Hcase as [Hc | [Hc | Hc]]; [now left | now right | congruence]. }
    unfold Pathlib.name_suffix, Pathlib.name_stem, Str.rfind.
    destruct Hnew as [-> | ->]; cbn; split; reflexivity.
  - rewrite Hsf, Hst. set (a := Str.take i nm +:+ mid).
    assert (Hnew : Str.take i nm +:+ mid +:+ String "." rest = a +:+ String "." rest).
    { subst a. now rewrite app_assoc. }
    rewrite Hnew.
    assert (Hfind : Str.rfind_nat "." (a +:+ String "." rest) = Some (String.length a)).
    { rewrite rfind_nat_app. cbn. rewrite Hr.
      destruct (decide ("."%char = "."%char)); [| congruence]. f_equal. lia. }
    assert (Hla : (0 < String.length a)%nat).
    { subst a. rewrite length_app. destruct mid; [congruence | cbn; lia]. }
    assert (Hlr : (0 < String.length rest)%nat).
    { destruct rest; [congruence | cbn; lia]. }
    unfold Pathlib.name_suffix, Pathlib.name_stem, Str.rfind, Str.len.
    rewrite Hfind, length_app. cbn [String.length].
    destruct (Z.ltb_spec 0 (Z.of_nat (String.length a))) as [H0 | H0]; [| lia].
    destruct (Z.ltb_spec (Z.of_nat (String.length a))
                (Z.of_nat (String.length a + S (String.length rest)) - 1)) as [H1 | H1];
      [| lia].
    cbn [andb]. rewrite Nat2Z.id, drop_app_length, take_app_length.
    split; reflexivity.
Qed.

Lemma name_stem_suffix_no_char (c : ascii) (nm : string) :
  Str.rfind_nat c nm = None ->
  Str.rfind_nat c (Pathlib.name_stem nm) = None /\
  Str.rfind_nat c (Pathlib.name_suffix nm) = None.
Proof.
  intros Hnm. unfold Pathlib.name_stem, Pathlib.name_suffix.
  destruct (_ && _); split; auto using rfind_nat_take_None, rfind_nat_drop_None.
Qed.

Lemma underscore_numeral_no_char (c : ascii) (N : nat) :
  c <> "_"%char -> ~ Str.is_digit c ->
  Str.rfind_nat c ("_" +:+ Str.of_nat N) = None.
Proof.
  intros Hu Hd. apply rfind_nat_app_None. split.
  - cbn. destruct (decide ("_"%char = c)); [congruence | reflexivity].
  - now apply of_nat_no_char.
Qed.

Lemma dot_not_digit : ~ Str.is_digit ".".
Proof. apply not_digit; discriminate. Qed.

Lemma slash_not_digit : ~ Str.is_digit "/".
Proof. apply not_digit; discriminate. Qed.

(** The candidate is the directory of the destination with one more
    part, the new name. *)
Lemma candidate_parts (d : string) (N : nat) :
  let p := Pathlib.of_str d in
  candidate p N =
    Pathlib.mkPath (Pathlib.root p)
      (removelast (Pathlib.parts p) ++
       [Pathlib.stem p +:+ "_" +:+ Str.of_nat N +:+ Pathlib.suffix p]).
Proof.
  intros p. unfold candidate, Pathlib.joinpath.
  set (new_name := Pathlib.stem p +:+ "_" +:+ Str.of_nat N +:+ Pathlib.suffix p).
  destruct (name_stem_suffix_no_char "/" _ (name_no_slash d)) as [Hst Hsf].
  fold p in Hst, Hsf.
  assert (Hslash : Str.rfind_nat "/" new_name = None).
  { subst new_name. unfold Pathlib.stem, Pathlib.suffix.
    apply rfind_nat_app_None. split; [exact Hst |].
    rewrite <- app_assoc. apply rfind_nat_app_None. split; [| exact Hsf].
    apply underscore_numeral_no_char; [discriminate | exact slash_not_digit]. }
  assert (Hus : Str.rfind_nat "_" new_name <> None).
  { subst new_name. rewrite rfind_nat_app, rfind_nat_app.
    destruct (Str.rfind_nat "_" (Str.of_nat N +:+ Pathlib.suffix p)); cbn; discriminate. }
  rewrite of_str_single; [reflexivity | exact Hslash | |].
  - intros Heq. rewrite Heq in Hus. now apply Hus.
  - intros Heq. rewrite Heq in Hus. now apply Hus.
Qed.

End PathFacts.

(** ** The bounded search *)

Section BoundedSearch.
Context `{FileSystem} `{Sqlite}.
Import FileOrganizer.

(** With the destination and all its candidates taken, [organize_file]
    gives the destination to [shutil.move]. *)
Lemma organize_file_exhausted (fs : FS) (destination_path : Path) :
  Path_exists fs destination_path = Ok true ->
  (forall M, (1 <= M <= 1000)%nat ->
     Path_exists fs (candidate destination_path M) = Ok true) ->
  forall fs0 db now home file_path classification move_to u,
    cls_move_to classification = Some move_to -> move_to <> "" ->
    destination_path
    = Pathlib.of_str
        (_expand_path_template move_to (Pathlib.of_str file_path) now home) ->
    Path_mkdir_parents fs0 (Pathlib.parent destination_path) = (fs, Ok u) ->
    organize_file fs0 db now home file_path classification
    = match shutil_move fs (Pathlib.str (Pathlib.of_str file_path))
              (Pathlib.str destination_path) with
      | (fs2, Ok _) =>
          (fs2,
           DatabaseManager.log_activity db "file_organized"
             (Pathlib.str (Pathlib.of_str file_path))
             [("destination", Pathlib.str destination_path);
              ("label", cls_label classification);
              ("rule", default "fallback" (cls_rule_matched classification))]
             "success",
           Ok (Pathlib.str destination_path))
      | (fs2, Raise e) =>
          (fs2,
           DatabaseManager.log_activity db "file_organize_failed" file_path
             [("error", exn_str e)] "error",
           Ok file_path)
      end.
Proof.
  intros Hex Hbusy fs0 db now home file_path classification move_to u Hm Hne Hdp Hmk.
  pose proof (_resolve_filename_conflict_exhausted fs destination_path Hex Hbusy) as Hres.
  unfold organize_file, organize_file_try. rewrite Hm.
  destruct move_to as [| c move_to']; [congruence |].
  rewrite <- Hdp, Hmk, Hres.
  destruct (shutil_move fs _ _) as [fs2 [u' | e]]; reflexivity.
Qed.

(** C3, amended. While [exists()] raises no error: a destination at
    which nothing exists is returned unchanged; for a destination
    that exists, the path returned is the candidate with [_N] before
    the extension for the smallest [N] from 1 to 1000 whose candidate
    does not exist, which is never the destination itself.  The
    search makes at most 1000 attempts (with that much fuel or more
    the loop ends); when all 1000 candidates exist the destination is
    returned unchanged although it exists, and [organize_file] then
    hands this existing path to [shutil.move] as the target and
    reports what the move does.  When [exists()] raises on the
    destination, or on a candidate that is reached, the search raises
    that error. *)
Theorem resolve_conflict_smallest_free (fs : FS) (destination_path : Path) :
  (forall fuel, (1000 <= fuel)%nat ->
     _resolve_filename_conflict_fuel fuel fs destination_path
     = Some (_resolve_filename_conflict fs destination_path)) /\
  (Path_exists fs destination_path = Ok false ->
     _resolve_filename_conflict fs destination_path = Ok destination_path) /\
  (Path_exists fs destination_path = Ok true ->
     forall N, (1 <= N <= 1000)%nat ->
       Path_exists fs (candidate destination_path N) = Ok false ->
       (forall M, (1 <= M < N)%nat ->
          Path_exists fs (candidate destination_path M) = Ok true) ->
       _resolve_filename_conflict fs destination_path
       = Ok (candidate destination_path N) /\
       candidate destination_path N <> destination_path) /\
  (Path_exists fs destination_path = Ok true ->
     (forall M, (1 <= M <= 1000)%nat ->
        Path_exists fs (candidate destination_path M) = Ok true) ->
     _resolve_filename_conflict fs destination_path = Ok destination_path /\
     forall fs0 db now home file_path classification move_to u,
       cls_move_to classification = Some move_to -> move_to <> "" ->
       destination_path
       = Pathlib.of_str
           (_expand_path_template move_to (Pathlib.of_str file_path) now home) ->
       Path_mkdir_parents fs0 (Pathlib.parent destination_path) = (fs, Ok u) ->
       organize_file fs0 db now home file_path classification
       = match shutil_move fs (Pathlib.str (Pathlib.of_str file_path))
                 (Pathlib.str destination_path) with
         | (fs2, Ok _) =>
             (fs2,
              DatabaseManager.log_activity db "file_organized"
                (Pathlib.str (Pathlib.of_str file_path))
                [("destination", Pathlib.str destination_path);
                 ("label", cls_label classification);
                 ("rule", default "fallback" (cls_rule_matched classification))]
                "success",
              Ok (Pathlib.str destination_path))
         | (fs2, Raise e) =>
             (fs2,
              DatabaseManager.log_activity db "file_organize_failed" file_path
                [("error", exn_str e)] "error",
              Ok file_path)
         end) /\
  (forall e, Path_exists fs destination_path = Raise e ->
     _resolve_filename_conflict fs destination_path = Raise e) /\
  (forall e N,
     Path_exists fs destination_path = Ok true ->
     (1 <= N <= 1000)%nat ->
     Path_exists fs (candidate destination_path N) = Raise e ->
     (forall M, (1 <= M < N)%nat ->
        Path_exists fs (candidate destination_path M) = Ok true) ->
     _resolve_filename_conflict fs destination_path = Raise e).
Proof.
  split; [apply _resolve_filename_conflict_fuel_enough |].
  split; [apply _resolve_filename_conflict_free_destination |].
  split; [| split; [| split]].
  - intros Hex N HN Hfree Hbusy.
    split; [now apply _resolve_filename_conflict_first_free |].
    intros Heq. rewrite Heq in Hfree. congruence.
  - intros Hex Hbusy.
    split; [now apply _resolve_filename_conflict_exhausted |].
    now apply organize_file_exhausted.
  - intros e. apply _resolve_filename_conflict_raises.
  - intros e N Hex HN Hraise Hbusy.
    now apply (_resolve_filename_conflict_candidate_raises fs destination_path N e).
Qed.

End BoundedSearch.

(** A name that is in the list of the files of a disk exists. *)
Lemma disk_lookup_In (d : Examples.disk) (k : string) (v : Z) :
  In (k, v) (Examples.files d) -> is_Some (Examples.disk_lookup d k).
Proof.
  intros Hin. unfold Examples.disk_lookup.
  destruct (List.find _ (Examples.files d)) as [f |] eqn:Hfind; [now eexists |].
  pose proof (find_none _ _ Hfind _ Hin) as Hk. cbn in Hk.
  now rewrite bool_decide_true in Hk.
Qed.

Lemma full_disk_candidates (N : nat) :
  (1 <= N <= 1000)%nat ->
  @Path_exists Examples.disk_fs Examples.full_disk
    (candidate (Pathlib.of_str "/data/a.txt") N) = Ok true.
Proof.
  intros HN.
  assert (Hstr : Pathlib.str (candidate (Pathlib.of_str "/data/a.txt") N)
                 = "/data/a_" +:+ Str.of_nat N +:+ ".txt").
  { pose proof (candidate_parts "/data/a.txt" N) as Hc. cbv zeta in Hc.
    rewrite Hc. reflexivity. }
  cbn [Path_exists Examples.disk_fs]. rewrite Hstr. f_equal.
  apply bool_decide_true. apply (disk_lookup_In _ _ 1).
  cbn [Examples.files Examples.full_disk]. right. right.
  apply (in_map (fun n => ("/data/a_" +:+ Str.of_nat n +:+ ".txt", 1)) _ N).
  apply in_seq. lia.
Qed.

(** C3 as stated fails in its last clause: with [/data/a.txt] and all of
    [/data/a_1.txt] to [/data/a_1000.txt] taken, the search returns
    [/data/a.txt], which exists; [organize_file] moves [/in/a.txt]
    there, the file that was at [/data/a.txt] (1 byte) is replaced by
    the new one (12 bytes), and the activity log records a success. *)
Lemma exhausted_search_overwrites_counterexample :
  let destination := Pathlib.of_str "/data/a.txt" in
  let after :=
    @FileOrganizer.organize_file Examples.disk_fs Examples.list_db
      Examples.full_disk [] Examples.noon Examples.home_dir
      "/in/a.txt" Examples.to_data in
  @Path_exists Examples.disk_fs Examples.full_disk destination = Ok true /\
  @FileOrganizer._resolve_filename_conflict Examples.disk_fs
    Examples.full_disk destination = Ok destination /\
  snd after = Ok "/data/a.txt" /\
  snd (fst after)
  = [mkActivityRow "file_organized" "/in/a.txt"
       [("destination", "/data/a.txt"); ("label", "documents"); ("rule", "Data")]
       "success"] /\
  Examples.disk_lookup Examples.full_disk "/data/a.txt" = Some 1 /\
  Examples.disk_lookup (fst (fst after)) "/data/a.txt" = Some 12 /\
  Examples.disk_lookup (fst (fst after)) "/in/a.txt" = None.
Proof.
  intros destination after.
  assert (Hex : @Path_exists Examples.disk_fs Examples.full_disk destination = Ok true)
    by reflexivity.
  split; [exact Hex |].
  split; [apply _resolve_filename_conflict_exhausted;
          [exact Hex | exact full_disk_candidates] |].
  subst after.
  rewrite (@organize_file_exhausted Examples.disk_fs Examples.list_db
             Examples.full_disk destination Hex full_disk_candidates
             Examples.full_disk [] Examples.noon Examples.home_dir
             "/in/a.txt" Examples.to_data "/data/{{BASENAME}}" tt
             eq_refl ltac:(discriminate) eq_refl eq_refl).
  vm_compute. repeat split.
Qed.

(** [/data/a.txt] and [/data/a_1.txt] are taken: the move goes to
    [/data/a_2.txt]. *)
Lemma resolve_conflict_smallest_free_witness :
  @FileOrganizer._resolve_filename_conflict Examples.disk_fs
     Examples.crowded_disk (Pathlib.of_str "/data/a.txt")
  = Ok (Pathlib.of_str "/data/a_2.txt").
Proof.
  destruct (@resolve_conflict_smallest_free Examples.disk_fs Examples.list_db
              Examples.crowded_disk (Pathlib.of_str "/data/a.txt"))
    as (_ & _ & Hfirst & _).
  destruct (Hfirst eq_refl 2%nat) as [Hres _].
  - lia.
  - reflexivity.
  - intros M HM. assert (M = 1%nat) as -> by lia. reflexivity.
  - exact Hres.
Defined.

Section ResolvedPathShape.
Context `{FileSystem}.
Import FileOrganizer.

(** C10, amended. The path returned by conflict resolution lies in the
    directory of the destination, and its file name is the name of
    the destination, or the stem of the destination followed by [_N]
    for some [N] from 1 to 1000 and by the extension of the
    destination.  When the name of the destination does not end in a
    dot, the path returned has the extension of the destination, and
    its stem is the stem of the destination, alone or followed by
    [_N]. *)
Theorem resolved_path_shape (fs : FS) (destination : string) (q : Path) :
  let p := Pathlib.of_str destination in
  _resolve_filename_conflict fs p = Ok q ->
  Pathlib.parent q = Pathlib.parent p /\
  (q = p \/
   exists N, (1 <= N <= 1000)%nat /\
     Pathlib.name q = Pathlib.stem p +:+ "_" +:+ Str.of_nat N +:+ Pathlib.suffix p) /\
  (Str.endswith (Pathlib.name p) "." = false ->
     Pathlib.suffix q = Pathlib.suffix p /\
     (Pathlib.stem q = Pathlib.stem p \/
      exists N, (1 <= N <= 1000)%nat /\
        Pathlib.stem q = Pathlib.stem p +:+ "_" +:+ Str.of_nat N)).
Proof.
  intros p Hres.
  destruct (_resolve_filename_conflict_range fs p q Hres) as [Hq | (N & HN & Hq & _)].
  - rewrite Hq. split; [reflexivity |]. split; [now left |].
    intros _. split; [reflexivity | now left].
  - pose proof (candidate_parts destination N) as Hc. cbv zeta in Hc. fold p in Hc.
    rewrite Hc in Hq.
    assert (Hname : Pathlib.name q
                    = Pathlib.stem p +:+ "_" +:+ Str.of_nat N +:+ Pathlib.suffix p).
    { rewrite Hq. unfold Pathlib.name. cbn [Pathlib.parts]. apply last_last. }
    split; [| split].
    + rewrite Hq. unfold Pathlib.parent. cbn [Pathlib.root Pathlib.parts].
      now rewrite removelast_last.
    + right. exists N. split; [exact HN | exact Hname].
    + intros Hend.
      destruct (name_suffix_stem_renamed (Pathlib.name p) ("_" +:+ Str.of_nat N))
        as [Hsf Hst].
      * apply underscore_numeral_no_char; [discriminate | exact dot_not_digit].
      * discriminate.
      * exact Hend.
      * fold (Pathlib.stem p) in Hsf, Hst. fold (Pathlib.suffix p) in Hsf, Hst.
        rewrite app_assoc in Hsf, Hst.
        split.
        -- unfold Pathlib.suffix at 1. rewrite Hname. exact Hsf.
        -- right. exists N. split; [exact HN |].
           unfold Pathlib.stem at 1. rewrite Hname. exact Hst.
Qed.

End ResolvedPathShape.

(** C10 as stated fails for a name that ends in a dot: [/data/report.]
    exists, its extension is empty and its stem is [report.]; the path
    returned is [/data/report._1], whose extension is [._1] and whose
    stem is [report]. *)
Lemma trailing_dot_counterexample :
  let p := Pathlib.of_str "/data/report." in
  let q := Pathlib.of_str "/data/report._1" in
  @FileOrganizer._resolve_filename_conflict Examples.disk_fs Examples.dotted_disk p = Ok q /\
  Pathlib.str q = "/data/report._1" /\
  Pathlib.suffix p = "" /\ Pathlib.suffix q = "._1" /\
  Pathlib.stem p = "report." /\ Pathlib.stem q = "report" /\
  Pathlib.suffix q <> Pathlib.suffix p.
Proof. vm_compute. repeat split; discriminate. Qed.

(** [/data/a.txt] taken twice over: [/data/a_2.txt] keeps the directory
    and the extension. *)
Lemma resolved_path_shape_witness :
  let p := Pathlib.of_str "/data/a.txt" in
  let q := Pathlib.of_str "/data/a_2.txt" in
  @FileOrganizer._resolve_filename_conflict Examples.disk_fs Examples.crowded_disk p = Ok q /\
  Pathlib.suffix q = Pathlib.suffix p /\
  (Pathlib.stem q = Pathlib.stem p \/
   exists N, (1 <= N <= 1000)%nat /\
     Pathlib.stem q = Pathlib.stem p +:+ "_" +:+ Str.of_nat N).
Proof.
  intros p q. split; [reflexivity |].
  destruct (@resolved_path_shape Examples.disk_fs Examples.crowded_disk "/data/a.txt" q)
    as (_ & _ & Hshape).
  - reflexivity.
  - apply Hshape. reflexivity.
Defined.

(** ** [str.replace] on placeholders *)

Section ReplaceFacts.

Lemma startswith_nil (s : string) : Str.startswith s "" = true.
Proof. destruct s; reflexivity. Qed.

Lemma startswith_cons (a b : ascii) (s p : string) :
  Str.startswith (String b s) (String a p) =
    if decide (a = b) then Str.startswith s p else false.
Proof. reflexivity. Qed.

Lemma startswith_app (s t p : string) :
  Str.startswith s p = true -> Str.startswith (s +:+ t) p = true.
Proof.
  revert s. induction p as [| a p IH]; intros s; [intros _; apply startswith_nil |].
  destruct s as [| b s]; [discriminate |].
  rewrite app_cons, !startswith_cons. destruct (decide (a = b)); [apply IH | discriminate].
Qed.

Lemma startswith_self_app (p t : string) : Str.startswith (p +:+ t) p = true.
Proof.
  induction p as [| a p IH]; [apply startswith_nil |].
  rewrite app_cons, startswith_cons. destruct (decide (a = a)); [exact IH | congruence].
Qed.

Lemma startswith_length (s p : string) :
  Str.startswith s p = true -> (String.length p <= String.length s)%nat.
Proof.
  revert s. induction p as [| a p IH]; intros s; [cbn; lia |].
  destruct s as [| b s]; [discriminate |].
  rewrite startswith_cons. destruct (decide (a = b)); [| discriminate].
  intros Hs. specialize (IH s Hs). cbn. lia.
Qed.

(** A pattern without the character [c] that matches at the start of
    [X] followed by [c] matches inside [X]. *)
Lemma startswith_stop_char (c : ascii) (X Y P : string) :
  no_char c P ->
  Str.startswith (X +:+ String c Y) P = true -> Str.startswith X P = true.
Proof.
  revert X. induction P as [| a P IH]; intros X HP; [intros _; apply startswith_nil |].
  apply rfind_nat_cons_None in HP as [Hne HP].
  destruct X as [| x X].
  - rewrite app_nil_l, startswith_cons.
    destruct (decide (a = c)); [contradiction | discriminate].
  - rewrite app_cons, !startswith_cons.
    destruct (decide (a = x)); [now apply IH | discriminate].
Qed.

Variables (K new : string).
Hypothesis K_open : no_char "{" K.
Hypothesis K_close : no_char "}" K.

Let old : string := placeholder K.

Lemma old_unfold : old = String "{" (String "{" (K +:+ "}}")).
Proof. reflexivity. Qed.

Lemma length_old : String.length old = S (S (String.length (K +:+ "}}"))).
Proof. reflexivity. Qed.

Lemma old_tail_no_open : no_char "{" (K +:+ "}}").
Proof. apply rfind_nat_app_None. split; [exact K_open | reflexivity]. Qed.

Lemma replace_go_skip (x rest : string) :
  Str.replace_go old new (String.length x) (x +:+ rest)
  = Str.replace_go old new 0 rest.
Proof.
  induction x as [| a x IH]; [destruct rest; reflexivity |].
  rewrite app_cons. cbn. exact IH.
Qed.

(** An occurrence at the start is replaced. *)
Lemma replace_go_match (rest : string) :
  Str.replace_go old new 0 (old +:+ rest) = new +:+ Str.replace_go old new 0 rest.
Proof.
  pose proof (startswith_self_app old rest) as Hs.
  rewrite old_unfold in *. rewrite app_cons in *.
  cbn [Str.replace_go]. rewrite Hs. f_equal.
  change (String.length (String "{" (String "{" (K +:+ "}}"))) - 1)%nat
    with (String.length (String "{" (K +:+ "}}"))).
  rewrite <- old_unfold.
  exact (replace_go_skip (String "{" (K +:+ "}}")) rest).
Qed.

(** Text without an opening brace is passed over. *)
Lemma replace_go_lit (text rest : string) :
  no_char "{" text ->
  Str.replace_go old new 0 (text +:+ rest) = text +:+ Str.replace_go old new 0 rest.
Proof.
  induction text as [| a text IH]; intros Ht; [reflexivity |].
  apply rfind_nat_cons_None in Ht as [Hne Ht].
  rewrite !app_cons. cbn [Str.replace_go]. rewrite old_unfold, startswith_cons.
  destruct (decide ("{"%char = a)); [congruence |].
  f_equal. rewrite <- old_unfold. now apply IH.
Qed.

(** Two names without braces, each followed by the closing braces:
    one starts with the other only when they are the same name. *)
Lemma startswith_names (n k rest : string) :
  no_char "{" n -> no_char "}" n -> no_char "}" k ->
  Str.startswith (n +:+ "}}" +:+ rest) (k +:+ "}}") = true -> n = k.
Proof.
  revert k. induction n as [| x n IH]; intros k Hno Hnc Hkc.
  - destruct k as [| y k]; [reflexivity |].
    apply rfind_nat_cons_None in Hkc as [Hy _].
    rewrite app_nil_l, !app_cons, startswith_cons.
    destruct (decide (y = "}"%char)); [contradiction | discriminate].
  - apply rfind_nat_cons_None in Hno as [_ Hno].
    apply rfind_nat_cons_None in Hnc as [Hx Hnc].
    destruct k as [| y k].
    + rewrite app_nil_l, !app_cons, startswith_cons.
      destruct (decide ("}"%char = x)); [congruence | discriminate].
    + apply rfind_nat_cons_None in Hkc as [_ Hkc].
      rewrite !app_cons, startswith_cons.
      destruct (decide (y = x)) as [-> |]; [| discriminate].
      intros Hs. f_equal. now apply IH.
Qed.

(** Another placeholder is passed over. *)
Lemma replace_go_other (n rest : string) :
  no_char "{" n -> no_char "}" n -> n <> K ->
  Str.replace_go old new 0 (placeholder n +:+ rest)
  = placeholder n +:+ Str.replace_go old new 0 rest.
Proof.
  intros Hno Hnc Hne.
  assert (Hph : forall m, placeholder m = String "{" (String "{" (m +:+ "}}")))
    by reflexivity.
  rewrite Hph, !app_cons, app_assoc.
  (* at the first brace *)
  cbn [Str.replace_go]. rewrite old_unfold, !startswith_cons.
  destruct (decide ("{"%char = "{"%char)); [| congruence].
  destruct (Str.startswith (n +:+ "}}" +:+ rest) (K +:+ "}}")) eqn:Hs.
  { exfalso. apply Hne. eapply startswith_names; eauto. }
  f_equal.
  (* at the second brace *)
  assert (Hsecond :
    Str.startswith (n +:+ "}}" +:+ rest) (String "{" (K +:+ "}}")) = false).
  { destruct n as [| x n].
    - rewrite app_nil_l. reflexivity.
    - apply rfind_nat_cons_None in Hno as [Hx _].
      rewrite app_cons, startswith_cons.
      destruct (decide ("{"%char = x)); [congruence | reflexivity]. }
  rewrite Hsecond. f_equal.
  (* the name and the closing braces *)
  rewrite <- old_unfold, <- app_assoc.
  rewrite replace_go_lit; [now rewrite app_assoc |].
  apply rfind_nat_app_None. split; [exact Hno | reflexivity].
Qed.

(** No occurrence starts before another placeholder and runs into it. *)
Lemma startswith_before_placeholder (X n rest : string) :
  X <> "" ->
  Str.startswith (X +:+ placeholder n +:+ rest) old = true ->
  Str.startswith X old = true.
Proof.
  intros HX. destruct X as [| x0 X]; [congruence |].
  assert (Hph : placeholder n +:+ rest = String "{" (String "{" (n +:+ "}}" +:+ rest))).
  { change (placeholder n) with (String "{" (String "{" (n +:+ "}}"))).
    now rewrite !app_cons, app_assoc. }
  rewrite Hph, old_unfold, app_cons, !startswith_cons.
  destruct (decide ("{"%char = x0)); [| discriminate].
  destruct X as [| x1 X].
  - rewrite app_nil_l, startswith_cons.
    destruct (decide ("{"%char = "{"%char)); [| congruence].
    intros Hs. exfalso.
    pose proof old_tail_no_open as Ht.
    destruct (K +:+ "}}") as [| k0 t] eqn:HK.
    + destruct K; discriminate.
    + apply rfind_nat_cons_None in Ht as [Hk0 _].
      rewrite startswith_cons in Hs.
      destruct (decide (k0 = "{"%char)); [contradiction | discriminate].
  - rewrite app_cons, !startswith_cons.
    destruct (decide ("{"%char = x1)); [| discriminate].
    apply startswith_stop_char. exact old_tail_no_open.
Qed.

(** The scan of the text before another placeholder does not depend on
    what follows. *)
Lemma replace_go_before_placeholder (X n rest : string) (skip : nat) :
  (skip <= String.length X)%nat ->
  Str.replace_go old new skip (X +:+ placeholder n +:+ rest)
  = Str.replace_go old new skip X
    +:+ Str.replace_go old new 0 (placeholder n +:+ rest).
Proof.
  revert skip. induction X as [| a X IH]; intros skip Hskip.
  - cbn in Hskip. assert (skip = 0%nat) as -> by lia. now rewrite !app_nil_l.
  - rewrite app_cons. destruct skip as [| skip].
    + cbn [Str.replace_go].
      destruct (Str.startswith (String a X) old) eqn:Hs.
      * pose proof (startswith_app _ (placeholder n +:+ rest) _ Hs) as Hs'.
        rewrite app_cons in Hs'. rewrite Hs'.
        rewrite app_assoc. f_equal. apply IH.
        apply startswith_length in Hs. cbn in Hs. lia.
      * destruct (Str.startswith (String a (X +:+ placeholder n +:+ rest)) old) eqn:Hs'.
        -- rewrite <- app_cons in Hs'.
           apply startswith_before_placeholder in Hs'; [congruence | discriminate].
        -- rewrite app_cons. f_equal. apply IH. lia.
    + cbn [Str.replace_go]. apply IH. cbn in Hskip. lia.
Qed.

(** [str.replace] leaves another placeholder where it is and treats
    the text before it and the text after it apart. *)
Lemma replace_around_placeholder (A n B : string) :
  no_char "{" n -> no_char "}" n -> n <> K ->
  Str.replace (A +:+ placeholder n +:+ B) old new
  = Str.replace A old new +:+ placeholder n +:+ Str.replace B old new.
Proof.
  intros Hno Hnc Hne. unfold Str.replace. rewrite old_unfold. rewrite <- old_unfold.
  rewrite replace_go_before_placeholder by lia.
  now rewrite replace_go_other.
Qed.

End ReplaceFacts.

(** ** Template expansion *)

Section TemplateExpansion.
Import FileOrganizer.

Lemma replace_placeholder (s K v : string) :
  Str.replace s (placeholder K) v = Str.replace_go (placeholder K) v 0 s.
Proof. reflexivity. Qed.

(** One replacement on a well-formed template is the replacement on
    its tokens. *)
Lemma replace_render (K v : string) (toks : list Token) :
  no_char "{" K -> no_char "}" K -> no_char "{" v ->
  Forall well_formed_token toks ->
  Str.replace (render toks) (placeholder K) v = render (List.map (subst_token K v) toks) /\
  Forall well_formed_token (List.map (subst_token K v) toks).
Proof.
  intros HKo HKc Hv. induction 1 as [| t toks Ht Htoks [IHr IHw]].
  - split; [reflexivity | constructor].
  - rewrite replace_placeholder in *. cbn [render List.map].
    destruct t as [text | n]; cbn [render_token subst_token].
    + split; [| constructor; assumption].
      rewrite replace_go_lit by assumption. now rewrite IHr.
    + destruct Ht as [Hno Hnc]. destruct (decide (n = K)) as [-> | Hne].
      * split; [| constructor; assumption].
        rewrite replace_go_match by assumption. cbn [render_token]. now rewrite IHr.
      * split; [| constructor; [split |]; assumption].
        rewrite replace_go_other by assumption. cbn [render_token]. now rewrite IHr.
Qed.

Lemma fmt_02d_no_open (n : nat) : no_char "{" (Str.fmt_02d n).
Proof.
  assert (Hd : ~ Str.is_digit "{") by (apply not_digit; discriminate).
  unfold Str.fmt_02d, no_char. destruct (n <? 10)%nat.
  - apply rfind_nat_cons_None. split; [discriminate | now apply of_nat_no_char].
  - now apply of_nat_no_char.
Qed.

Lemma of_nat_no_open (n : nat) : no_char "{" (Str.of_nat n).
Proof. apply of_nat_no_char. apply not_digit; discriminate. Qed.

Lemma render_map_expand (f : Token -> Token) (g : Token -> string) (toks : list Token) :
  (forall t, render_token (f t) = g t) ->
  render (List.map f toks) = List.fold_right (fun t r => g t +:+ r) "" toks.
Proof.
  intros Hfg. induction toks as [| t toks IH]; [reflexivity |].
  cbn [List.map render List.fold_right]. now rewrite Hfg, IH.
Qed.

Lemma expand_tokens_fold source_path now home (toks : list Token) :
  expand_tokens source_path now home toks
  = List.fold_right (fun t r => expand_token source_path now home t +:+ r) "" toks.
Proof. induction toks as [| t toks IH]; [reflexivity |]. cbn. now rewrite IH. Qed.

(** On a template made of literal text and placeholders, for a file
    name and a home directory without an opening brace, the
    replacements together replace each recognized placeholder by its
    value and leave everything else as it is written; when
    [Path.home()] raises, [{{HOME}}] is left too. *)
Lemma expand_well_formed (toks : list Token) (source_path : Path)
    (now : DateTime) (home : result Path) :
  Forall well_formed_token toks ->
  no_char "{" (Pathlib.name source_path) ->
  (forall h, home = Ok h -> no_char "{" (Pathlib.str h)) ->
  _expand_path_template (render toks) source_path now home
  = expand_tokens source_path now home toks.
Proof.
  intros Hwf Hname Hhome.
  destruct (name_stem_suffix_no_char "{" _ Hname) as [Hstem Hsuffix].
  change (no_char "{" (Pathlib.stem source_path)) in Hstem.
  change (no_char "{" (Pathlib.suffix source_path)) in Hsuffix.
  unfold _expand_path_template.
  change "{{YYYY}}" with (placeholder "YYYY").
  change "{{MM}}" with (placeholder "MM").
  change "{{DD}}" with (placeholder "DD").
  change "{{HH}}" with (placeholder "HH").
  change "{{mm}}" with (placeholder "mm").
  change "{{ss}}" with (placeholder "ss").
  change "{{BASENAME}}" with (placeholder "BASENAME").
  change "{{STEM}}" with (placeholder "STEM").
  change "{{EXT}}" with (placeholder "EXT").
  change "{{HOME}}" with (placeholder "HOME").
  pose proof (of_nat_no_open (year now)) as Hy.
  pose proof (fmt_02d_no_open (month now)) as Hmo.
  pose proof (fmt_02d_no_open (day now)) as Hd.
  pose proof (fmt_02d_no_open (hour now)) as Hh.
  pose proof (fmt_02d_no_open (minute now)) as Hmi.
  pose proof (fmt_02d_no_open (second now)) as Hs.
  destruct (replace_render "YYYY" _ toks eq_refl eq_refl Hy Hwf) as [-> Hw1].
  destruct (replace_render "MM" _ _ eq_refl eq_refl Hmo Hw1) as [-> Hw2].
  destruct (replace_render "DD" _ _ eq_refl eq_refl Hd Hw2) as [-> Hw3].
  destruct (replace_render "HH" _ _ eq_refl eq_refl Hh Hw3) as [-> Hw4].
  destruct (replace_render "mm" _ _ eq_refl eq_refl Hmi Hw4) as [-> Hw5].
  destruct (replace_render "ss" _ _ eq_refl eq_refl Hs Hw5) as [-> Hw6].
  destruct (replace_render "BASENAME" _ _ eq_refl eq_refl Hname Hw6) as [-> Hw7].
  destruct (replace_render "STEM" _ _ eq_refl eq_refl Hstem Hw7) as [-> Hw8].
  destruct (replace_render "EXT" _ _ eq_refl eq_refl Hsuffix Hw8) as [-> Hw9].
  destruct home as [h | e]; cbn [rbind try_except].
  - destruct (replace_render "HOME" _ _ eq_refl eq_refl (Hhome h eq_refl) Hw9) as [-> _].
    rewrite !List.map_map, expand_tokens_fold.
    apply render_map_expand.
    intros [text | n]; [reflexivity |].
    cbn [subst_token expand_token]. unfold placeholder_value.
    repeat (destruct (decide (n = _)); [reflexivity |]; cbn [subst_token]).
    reflexivity.
  - rewrite !List.map_map, expand_tokens_fold.
    apply render_map_expand.
    intros [text | n]; [reflexivity |].
    cbn [subst_token expand_token]. unfold placeholder_value.
    repeat (destruct (decide (n = _)); [reflexivity |]; cbn [subst_token]).
    reflexivity.
Qed.

Lemma not_recognized (n : string) :
  n ∉ recognized ->
  n <> "YYYY" /\ n <> "MM" /\ n <> "DD" /\ n <> "HH" /\ n <> "mm" /\ n <> "ss" /\
  n <> "BASENAME" /\ n <> "STEM" /\ n <> "EXT" /\ n <> "HOME".
Proof.
  intros Hn. repeat split; intros ->; apply Hn; unfold recognized;
    repeat (first [apply list_elem_of_here | apply list_elem_of_further]).
Qed.

(** A placeholder that is not recognized stays where it is, and the
    text before it and the text after it are expanded apart, whatever
    they are. *)
Lemma expand_around_unrecognized (A n B : string) (source_path : Path)
    (now : DateTime) (home : result Path) :
  no_char "{" n -> no_char "}" n -> n ∉ recognized ->
  _expand_path_template (A +:+ placeholder n +:+ B) source_path now home
  = _expand_path_template A source_path now home
    +:+ placeholder n
    +:+ _expand_path_template B source_path now home.
Proof.
  intros Hno Hnc Hn.
  destruct (not_recognized n Hn) as (N1 & N2 & N3 & N4 & N5 & N6 & N7 & N8 & N9 & N10).
  unfold _expand_path_template.
  change "{{YYYY}}" with (placeholder "YYYY").
  change "{{MM}}" with (placeholder "MM").
  change "{{DD}}" with (placeholder "DD").
  change "{{HH}}" with (placeholder "HH").
  change "{{mm}}" with (placeholder "mm").
  change "{{ss}}" with (placeholder "ss").
  change "{{BASENAME}}" with (placeholder "BASENAME").
  change "{{STEM}}" with (placeholder "STEM").
  change "{{EXT}}" with (placeholder "EXT").
  change "{{HOME}}" with (placeholder "HOME").
  rewrite (replace_around_placeholder "YYYY" _ eq_refl eq_refl _ n _ Hno Hnc N1).
  rewrite (replace_around_placeholder "MM" _ eq_refl eq_refl _ n _ Hno Hnc N2).
  rewrite (replace_around_placeholder "DD" _ eq_refl eq_refl _ n _ Hno Hnc N3).
  rewrite (replace_around_placeholder "HH" _ eq_refl eq_refl _ n _ Hno Hnc N4).
  rewrite (replace_around_placeholder "mm" _ eq_refl eq_refl _ n _ Hno Hnc N5).
  rewrite (replace_around_placeholder "ss" _ eq_refl eq_refl _ n _ Hno Hnc N6).
  rewrite (replace_around_placeholder "BASENAME" _ eq_refl eq_refl _ n _ Hno Hnc N7).
  rewrite (replace_around_placeholder "STEM" _ eq_refl eq_refl _ n _ Hno Hnc N8).
  rewrite (replace_around_placeholder "EXT" _ eq_refl eq_refl _ n _ Hno Hnc N9).
  destruct home as [h | e]; cbn [rbind try_except]; [| reflexivity].
  now rewrite (replace_around_placeholder "HOME" _ eq_refl eq_refl _ n _ Hno Hnc N10).
Qed.

(** C4, amended. The ten replacements are made one after the other,
    each on the whole string.  For a template made of literal text
    without an opening brace and of placeholders [{{name}}], when
    neither the file name nor the home directory has an opening brace,
    they replace every occurrence of each of the ten placeholders
    [{{YYYY}}] [{{MM}}] [{{DD}}] [{{HH}}] [{{mm}}] [{{ss}}] [{{BASENAME}}]
    [{{STEM}}] [{{EXT}}] [{{HOME}}] by its value and leave everything
    else as it is written; when [Path.home()] raises, [{{HOME}}] is
    left as it is written, the other nine are replaced and no error is
    raised.  A placeholder [{{name}}] that is not one of the ten is
    left as it is written in every template, for every source path,
    time and home directory.  [{{EXT}}] is the last suffix only: [.gz]
    for [archive.tar.gz]. *)
Theorem template_expansion (source_path : Path) (now : DateTime) (home : result Path) :
  (forall toks,
     Forall well_formed_token toks ->
     no_char "{" (Pathlib.name source_path) ->
     (forall h, home = Ok h -> no_char "{" (Pathlib.str h)) ->
     _expand_path_template (render toks) source_path now home
     = expand_tokens source_path now home toks) /\
  (forall A n B,
     no_char "{" n -> no_char "}" n -> n ∉ recognized ->
     _expand_path_template (A +:+ placeholder n +:+ B) source_path now home
     = _expand_path_template A source_path now home
       +:+ placeholder n
       +:+ _expand_path_template B source_path now home) /\
  Pathlib.suffix (Pathlib.of_str "archive.tar.gz") = ".gz" /\
  (forall h,
     home = Ok h -> no_char "{" (Pathlib.str h) ->
     _expand_path_template "{{HOME}}/X/{{EXT}}" (Pathlib.of_str "archive.tar.gz") now home
     = Pathlib.str h +:+ "/X/.gz") /\
  (forall e,
     home = Raise e ->
     _expand_path_template "{{HOME}}/X/{{EXT}}" (Pathlib.of_str "archive.tar.gz") now home
     = "{{HOME}}/X/.gz").
Proof.
  split; [| split; [| split; [| split]]].
  - intros toks. apply expand_well_formed.
  - intros A n B. apply expand_around_unrecognized.
  - reflexivity.
  - intros h -> Hh.
    change "{{HOME}}/X/{{EXT}}"
      with (render [Placeholder "HOME"; Lit "/X/"; Placeholder "EXT"]).
    rewrite expand_well_formed; [reflexivity | | reflexivity |].
    + repeat constructor.
    + now intros h' [= <-].
  - intros e ->.
    change "{{HOME}}/X/{{EXT}}"
      with (render [Placeholder "HOME"; Lit "/X/"; Placeholder "EXT"]).
    rewrite expand_well_formed; [reflexivity | | reflexivity |].
    + repeat constructor.
    + intros h' [=].
Qed.

End TemplateExpansion.

(** C4 as stated fails for a file name with braces: the template
    [{{BASENAME}}] has one placeholder, whose value for the file
    [/in/{{HOME}}.txt] is [{{HOME}}.txt]; the replacement of [{{HOME}}],
    made afterwards, reads the value again and the result is
    [/home/user.txt].  It fails too for a template in which a
    replacement puts a placeholder together: in [{{HO{{EXT}}ME}}/x] the
    only placeholder is [{{EXT}}], empty for [/in/notes], and the
    result is [/home/user/x]. *)
Lemma sequential_replacement_counterexample :
  let braces := Pathlib.of_str "/in/{{HOME}}.txt" in
  let notes := Pathlib.of_str "/in/notes" in
  Pathlib.name braces = "{{HOME}}.txt" /\
  expand_tokens braces Examples.noon Examples.home_dir [Placeholder "BASENAME"]
  = "{{HOME}}.txt" /\
  FileOrganizer._expand_path_template (render [Placeholder "BASENAME"])
    braces Examples.noon Examples.home_dir
  = "/home/user.txt" /\
  Pathlib.suffix notes = "" /\
  FileOrganizer._expand_path_template "{{HO{{EXT}}ME}}/x"
    notes Examples.noon Examples.home_dir
  = "/home/user/x" /\
  FileOrganizer._expand_path_template (render [Placeholder "BASENAME"])
    braces Examples.noon Examples.home_dir
  <> expand_tokens braces Examples.noon Examples.home_dir [Placeholder "BASENAME"].
Proof. vm_compute. repeat split. discriminate. Qed.

(** A template with the home directory, the extension and a placeholder
    that is not recognized. *)
Lemma template_expansion_witness :
  FileOrganizer._expand_path_template "{{HOME}}/X/{{EXT}}/{{LABEL}}-{{YYYY}}{{MM}}"
    (Pathlib.of_str "/tmp/archive.tar.gz") Examples.noon Examples.home_dir
  = "/home/user/X/.gz/{{LABEL}}-202403".
Proof.
  destruct (template_expansion (Pathlib.of_str "/tmp/archive.tar.gz") Examples.noon
              Examples.home_dir) as (Hexpand & _).
  refine (Hexpand [Placeholder "HOME"; Lit "/X/"; Placeholder "EXT"; Lit "/";
                   Placeholder "LABEL"; Lit "-"; Placeholder "YYYY"; Placeholder "MM"]
            ltac:(repeat constructor) eq_refl _).
  intros h [= <-]. reflexivity.
Defined.

(** ** The debounce map and its timers *)

Section Debounce.
Import FileWatcherHandler.

Implicit Types (self : FileWatcherHandler.t) (k : string) (now : Z).

Lemma consistent_init : consistent init.
Proof.
  split.
  - intros i tm Hl. cbn in Hl. now rewrite lookup_nil in Hl.
  - intros k i Hm. cbn in Hm. now rewrite lookup_empty in Hm.
Qed.

(** A timer that wakes up either does nothing, or calls
    [_process_event] and finishes. *)
Lemma Timer_run_cases now self i :
  Timer_run now self i = self /\
    (forall tm, timers self !! i = Some tm -> finished tm = true \/ now < fires_at tm)
  \/
  exists tm,
    timers self !! i = Some tm /\ finished tm = false /\ fires_at tm <= now /\
    Timer_run now self i =
      {| _debounce_events := delete (event_key (args tm)) (_debounce_events self);
         _debounce_delay := _debounce_delay self;
         timers := alter Timer_cancel i (timers self);
         processed := processed self ++ [(fires_at tm, args tm)] |}.
Proof.
  unfold Timer_run. destruct (timers self !! i) as [tm |] eqn:Hi.
  - destruct (finished tm) eqn:Hf; cbn [orb].
    + left. split; [reflexivity |]. intros tm' [= <-]. now left.
    + destruct (Z.ltb_spec now (fires_at tm)) as [Hlt | Hge].
      * left. split; [reflexivity |]. intros tm' [= <-]. now right.
      * right. exists tm. repeat split; [exact Hf | exact Hge].
  - left. split; [reflexivity |]. intros tm' [=].
Qed.

Lemma Timer_run_delay now self i :
  _debounce_delay (Timer_run now self i) = _debounce_delay self.
Proof.
  destruct (Timer_run_cases now self i) as [[-> _] | (tm & _ & _ & _ & ->)]; reflexivity.
Qed.

Lemma Timer_run_length now self i :
  length (timers (Timer_run now self i)) = length (timers self).
Proof.
  destruct (Timer_run_cases now self i) as [[-> _] | (tm & _ & _ & _ & ->)];
    [reflexivity | cbn; apply length_alter].
Qed.

Lemma Timer_run_consistent now self i :
  consistent self -> consistent (Timer_run now self i).
Proof.
  intros [Hlive Hreg].
  destruct (Timer_run_cases now self i) as [[-> _] | (tm & Hi & Hf & _ & ->)];
    [split; assumption |].
  pose proof (Hlive i tm Hi Hf) as Hmi.
  split; cbn.
  - intros j tm' Hj Hf'.
    destruct (decide (i = j)) as [<- | Hne].
    + rewrite list_lookup_alter_eq, Hi in Hj. cbn in Hj.
      injection Hj as <-. discriminate Hf'.
    + rewrite list_lookup_alter_ne in Hj by exact Hne.
      pose proof (Hlive j tm' Hj Hf') as Hmj.
      rewrite lookup_delete_ne; [exact Hmj |].
      intros Heq. rewrite Heq in Hmi. congruence.
  - intros k j Hk.
    destruct (decide (event_key (args tm) = k)) as [<- | Hne].
    + now rewrite lookup_delete_eq in Hk.
    + rewrite lookup_delete_ne in Hk by exact Hne.
      destruct (Hreg k j Hk) as (tm' & Hj & Hkey).
      exists tm'. split; [| exact Hkey].
      rewrite list_lookup_alter_ne; [exact Hj |].
      intros <-. congruence.
Qed.

(** The timer registered for [k] wakes up: seen from [k], time has
    passed. *)
Lemma Timer_run_view_registered now self k i :
  consistent self ->
  _debounce_events self !! k = Some i ->
  view k (Timer_run now self i) = fire_view now (view k self).
Proof.
  intros [Hlive Hreg] Hk.
  destruct (Hreg k i Hk) as (tm0 & Hi0 & Hkey0).
  destruct (Timer_run_cases now self i) as [[-> Hidle] | (tm & Hi & Hf & Hdue & ->)].
  - unfold view, fire_view, pending. cbn [fst snd]. rewrite Hk, Hi0.
    destruct (Hidle tm0 Hi0) as [-> | Hlt]; [reflexivity |].
    destruct (finished tm0); [reflexivity |].
    destruct (Z.leb_spec (fires_at tm0) now); [lia | reflexivity].
  - assert (tm = tm0) as -> by congruence.
    unfold view, fire_view, pending, processed_for. cbn [fst snd _debounce_events timers processed].
    rewrite Hk, Hi0, Hf, Hkey0, lookup_delete_eq.
    destruct (Z.leb_spec (fires_at tm0) now); [| lia].
    rewrite filter_app. f_equal. f_equal.
    rewrite filter_cons_True by exact Hkey0. reflexivity.
Qed.

(** Another timer wakes up: seen from [k], nothing happens. *)
Lemma Timer_run_view_other now self k i :
  consistent self ->
  _debounce_events self !! k <> Some i ->
  view k (Timer_run now self i) = view k self /\
  _debounce_events (Timer_run now self i) !! k = _debounce_events self !! k.
Proof.
  intros [Hlive Hreg] Hk.
  destruct (Timer_run_cases now self i) as [[-> Hidle] | (tm & Hi & Hf & Hdue & ->)];
    [split; reflexivity |].
  pose proof (Hlive i tm Hi Hf) as Hmi.
  assert (Hne : event_key (args tm) <> k) by (intros <-; contradiction).
  assert (Hmap : delete (event_key (args tm)) (_debounce_events self) !! k
                 = _debounce_events self !! k) by now apply lookup_delete_ne.
  split; [| exact Hmap].
  unfold view, pending, processed_for. cbn [_debounce_events timers processed].
  rewrite Hmap, filter_app, filter_cons_False by exact Hne.
  rewrite filter_nil, List.app_nil_r. f_equal.
  destruct (_debounce_events self !! k) as [j |] eqn:Hj; [| reflexivity].
  rewrite list_lookup_alter_ne; [reflexivity |]. intros <-. contradiction.
Qed.

Lemma Timer_run_other_timer now self i j :
  i <> j -> timers (Timer_run now self j) !! i = timers self !! i.
Proof.
  intros Hne.
  destruct (Timer_run_cases now self j) as [[-> _] | (tm & _ & _ & _ & ->)];
    [reflexivity |].
  cbn. apply list_lookup_alter_ne. congruence.
Qed.

Lemma fire_view_idempotent now v : fire_view now (fire_view now v) = fire_view now v.
Proof.
  unfold fire_view. destruct v as [[[d a] |] l]; cbn; [| reflexivity].
  destruct (Z.leb_spec d now) as [Hle | Hgt]; cbn; [reflexivity |].
  destruct (Z.leb_spec d now); [lia | reflexivity].
Qed.

Lemma fire_view_idle now k self :
  (forall i tm, _debounce_events self !! k = Some i -> timers self !! i = Some tm ->
     finished tm = false -> fires_at tm <= now -> False) ->
  fire_view now (view k self) = view k self.
Proof.
  intros Hidle. unfold fire_view, view, pending. cbn [fst snd].
  destruct (_debounce_events self !! k) as [i |] eqn:Hk; [| reflexivity].
  destruct (timers self !! i) as [tm |] eqn:Hi; [| reflexivity].
  destruct (finished tm) eqn:Hf; [reflexivity |].
  destruct (Z.leb_spec (fires_at tm) now) as [Hle | Hgt]; [| reflexivity].
  exfalso. exact (Hidle i tm eq_refl Hi Hf Hle).
Qed.

(** Timers wake up one after the other: seen from [k], time has passed,
    as long as the timer registered for [k] is among them when it is
    due. *)
Lemma foldl_Timer_run_view now k (indices : list nat) self :
  consistent self ->
  (forall i tm, _debounce_events self !! k = Some i -> timers self !! i = Some tm ->
     finished tm = false -> fires_at tm <= now -> i ∈ indices) ->
  consistent (foldl (Timer_run now) self indices) /\
  view k (foldl (Timer_run now) self indices) = fire_view now (view k self).
Proof.
  revert self. induction indices as [| j indices IH]; intros self Hc Hin.
  - split; [exact Hc |]. cbn [foldl]. symmetry. apply fire_view_idle.
    intros i tm Hk Hi Hf Hdue. specialize (Hin i tm Hk Hi Hf Hdue).
    now apply not_elem_of_nil in Hin.
  - cbn [foldl].
    pose proof (Timer_run_consistent now self j Hc) as Hc1.
    destruct (decide (_debounce_events self !! k = Some j)) as [Hk | Hk].
    + pose proof (Timer_run_view_registered now self k j Hc Hk) as Hv.
      destruct (IH (Timer_run now self j) Hc1) as [Hc2 Hv2].
      * intros i tm Hk1 Hi1 Hf1 Hdue1. exfalso.
        destruct (Timer_run_cases now self j) as [[Heq Hidle] | (tm0 & Hj & Hf & Hdue & Heq)];
          rewrite Heq in Hk1, Hi1.
        -- assert (i = j) as -> by congruence.
           destruct (Hidle tm Hi1) as [Hfin | Hlt]; [congruence | lia].
        -- cbn in Hk1. destruct Hc as [_ Hreg].
           destruct (Hreg k j Hk) as (tm' & Hj' & Hkey).
           assert (tm' = tm0) as -> by congruence.
           rewrite Hkey, lookup_delete_eq in Hk1. discriminate.
      * split; [exact Hc2 |]. rewrite Hv2, Hv. apply fire_view_idempotent.
    + destruct (Timer_run_view_other now self k j Hc Hk) as [Hv Hmap].
      destruct (IH (Timer_run now self j) Hc1) as [Hc2 Hv2].
      * intros i tm Hk1 Hi1 Hf1 Hdue1. rewrite Hmap in Hk1.
        assert (Hne : i <> j) by congruence.
        rewrite (Timer_run_other_timer now self i j Hne) in Hi1.
        specialize (Hin i tm Hk1 Hi1 Hf1 Hdue1).
        apply elem_of_cons in Hin as [-> | Hin]; [contradiction | exact Hin].
      * split; [exact Hc2 |]. now rewrite Hv2, Hv.
Qed.

(** Time passes: seen from [k], the pending timer fires if it is due. *)
Lemma run_due_view now k self :
  consistent self ->
  consistent (run_due now self) /\
  view k (run_due now self) = fire_view now (view k self).
Proof.
  intros Hc. unfold run_due. apply foldl_Timer_run_view; [exact Hc |].
  intros i tm _ Hi _ _. apply elem_of_seq. apply lookup_lt_Some in Hi. lia.
Qed.

Lemma run_due_delay now self : _debounce_delay (run_due now self) = _debounce_delay self.
Proof.
  unfold run_due. generalize (seq 0 (length (timers self))). intros indices.
  revert self. induction indices as [| j indices IH]; intros self; [reflexivity |].
  cbn [foldl]. rewrite IH. apply Timer_run_delay.
Qed.

(** The timers after the previous timer of a key, if any, has been
    cancelled. *)
Lemma cancel_previous self key j :
  let timers1 :=
    match _debounce_events self !! key with
    | Some i => alter Timer_cancel i (timers self)
    | None => timers self
    end in
  length timers1 = length (timers self) /\
  (timers1 !! j = timers self !! j \/
   (_debounce_events self !! key = Some j /\
    timers1 !! j = Timer_cancel <$> timers self !! j)).
Proof.
  cbv zeta. destruct (_debounce_events self !! key) as [i |] eqn:Hk.
  - split; [apply length_alter |].
    destruct (decide (i = j)) as [-> | Hne].
    + right. split; [reflexivity | apply list_lookup_alter_eq].
    + left. now apply list_lookup_alter_ne.
  - split; [reflexivity | now left].
Qed.

Lemma _debounce_event_consistent now a self :
  consistent self -> consistent (_debounce_event now a self).
Proof.
  intros [Hlive Hreg]. unfold _debounce_event.
  set (key := event_key a).
  set (timers1 := match _debounce_events self !! key with
                  | Some i => alter Timer_cancel i (timers self)
                  | None => timers self
                  end).
  assert (Hcp : forall j, length timers1 = length (timers self) /\
            (timers1 !! j = timers self !! j \/
             (_debounce_events self !! key = Some j /\
              timers1 !! j = Timer_cancel <$> timers self !! j)))
    by (intros j; apply cancel_previous).
  split; cbn [_debounce_events timers].
  - intros j tm Hj Hf.
    pose proof (lookup_lt_Some _ _ _ Hj) as Hlen. rewrite List.length_app in Hlen.
    cbn in Hlen.
    destruct (decide (j = length timers1)) as [-> | Hne].
    + rewrite list_lookup_middle in Hj by reflexivity. injection Hj as <-.
      cbn. apply lookup_insert_eq.
    + assert (Hlt : (j < length timers1)%nat) by lia.
      rewrite lookup_app_l in Hj by exact Hlt.
      destruct (Hcp j) as [_ [Heq | [Hk Heq]]]; rewrite Heq in Hj.
      * pose proof (Hlive j tm Hj Hf) as Hm.
        rewrite lookup_insert_ne; [exact Hm |].
        intros Hkey. rewrite <- Hkey in Hm.
        subst timers1. rewrite Hm in Heq.
        rewrite list_lookup_alter_eq, Hj in Heq. cbn in Heq.
        injection Heq as Heq. rewrite <- Heq in Hf. discriminate Hf.
      * destruct (timers self !! j) as [tm0 |]; cbn in Hj; [| discriminate].
        injection Hj as <-. discriminate Hf.
  - intros k j Hk.
    destruct (decide (key = k)) as [<- | Hne].
    + rewrite lookup_insert_eq in Hk. injection Hk as <-.
      eexists. split; [apply list_lookup_middle; reflexivity | reflexivity].
    + rewrite lookup_insert_ne in Hk by exact Hne.
      destruct (Hreg k j Hk) as (tm & Hj & Hkey).
      destruct (Hcp j) as [Hlen [Heq | [_ Heq]]].
      * exists tm. split; [| exact Hkey].
        rewrite lookup_app_l by (rewrite Hlen; now apply lookup_lt_Some in Hj).
        now rewrite Heq.
      * exists (Timer_cancel tm). split; [| exact Hkey].
        rewrite lookup_app_l by (rewrite Hlen; now apply lookup_lt_Some in Hj).
        now rewrite Heq, Hj.
Qed.

(** An event is debounced: seen from its own key, a new timer is
    pending; seen from another key, nothing happens. *)
Lemma _debounce_event_view now a self k :
  consistent self ->
  view k (_debounce_event now a self) =
    if decide (event_key a = k)
    then (Some (now + _debounce_delay self, a), processed_for k self)
    else view k self.
Proof.
  intros [Hlive Hreg]. unfold view, pending, processed_for, _debounce_event.
  set (key := event_key a).
  set (timers1 := match _debounce_events self !! key with
                  | Some i => alter Timer_cancel i (timers self)
                  | None => timers self
                  end).
  cbn [_debounce_events timers processed].
  destruct (decide (key = k)) as [<- | Hne].
  - rewrite lookup_insert_eq, list_lookup_middle by reflexivity. reflexivity.
  - rewrite lookup_insert_ne by exact Hne. f_equal.
    destruct (_debounce_events self !! k) as [j |] eqn:Hk; [| reflexivity].
    destruct (Hreg k j Hk) as (tm & Hj & Hkey).
    pose proof (cancel_previous self key j) as Hcp. cbv zeta in Hcp.
    fold timers1 in Hcp. destruct Hcp as [Hlen [Heq | [Hkj _]]].
    + rewrite lookup_app_l by (rewrite Hlen; now apply lookup_lt_Some in Hj).
      now rewrite Heq.
    + destruct (Hreg key j Hkj) as (tm' & Hj' & Hkey'). congruence.
Qed.

Lemma _debounce_event_delay now a self :
  _debounce_delay (_debounce_event now a self) = _debounce_delay self.
Proof. reflexivity. Qed.

(** The arrival of an event, seen from one key. *)
Lemma arrive_view_eq k self e :
  consistent self ->
  consistent (arrive self e) /\
  view k (arrive self e) = arrive_view k (_debounce_delay self) (view k self) e /\
  _debounce_delay (arrive self e) = _debounce_delay self.
Proof.
  intros Hc. unfold arrive.
  destruct (run_due_view (fst e) k self Hc) as [Hc1 Hv1].
  split; [now apply _debounce_event_consistent |]. split.
  - rewrite _debounce_event_view by exact Hc1. unfold arrive_view.
    rewrite run_due_delay, <- Hv1. reflexivity.
  - rewrite _debounce_event_delay. apply run_due_delay.
Qed.

Lemma foldl_arrive_view k (sched : list (Z * EventArgs)) self :
  consistent self ->
  consistent (foldl arrive self sched) /\
  view k (foldl arrive self sched)
  = foldl (arrive_view k (_debounce_delay self)) (view k self) sched /\
  _debounce_delay (foldl arrive self sched) = _debounce_delay self.
Proof.
  revert self. induction sched as [| e sched IH]; intros self Hc.
  - split; [exact Hc | split; reflexivity].
  - cbn [foldl]. destruct (arrive_view_eq k self e Hc) as (Hc1 & Hv1 & Hd1).
    destruct (IH (arrive self e) Hc1) as (Hc2 & Hv2 & Hd2).
    split; [exact Hc2 |]. split; [| congruence].
    rewrite Hv2, Hv1, Hd1. reflexivity.
Qed.

(** *** One key on its own *)

Lemma nondecreasing_from_le (t : Z) (ts : list Z) (t' : Z) :
  nondecreasing_from t ts -> In t' ts -> t <= t'.
Proof.
  revert t. induction ts as [| u ts IH]; intros t; cbn; [tauto |].
  intros [Hle Hrest] [<- | Hin]; [exact Hle |].
  specialize (IH u Hrest Hin). lia.
Qed.

Lemma last_default_irrelevant {A : Type} (y d d' : A) (l : list A) :
  List.last (y :: l) d = List.last (y :: l) d'.
Proof.
  revert y. induction l as [| z l IH]; intros y; [reflexivity |].
  change (List.last (z :: l) d = List.last (z :: l) d'). apply IH.
Qed.

Lemma last_cons_default {A : Type} (x d : A) (l : list A) :
  List.last (x :: l) d = List.last l x.
Proof.
  destruct l as [| y l]; [reflexivity |].
  change (List.last (y :: l) d = List.last (y :: l) x).
  apply last_default_irrelevant.
Qed.

Lemma quiet_view k delay (sched : list (Z * EventArgs)) v :
  filter (for_key k) sched = [] -> fst v = None ->
  foldl (arrive_view k delay) v sched = v.
Proof.
  revert v. induction sched as [| e sched IH]; intros v Hf Hv; [reflexivity |].
  cbn [foldl]. rewrite filter_cons in Hf.
  destruct (decide (for_key k e)) as [Hk | Hk]; [discriminate |].
  assert (Hstep : arrive_view k delay v e = v).
  { unfold arrive_view, fire_view. rewrite Hv.
    destruct (decide (event_key (snd e) = k)); [contradiction | reflexivity]. }
  rewrite Hstep. now apply IH.
Qed.

(** While events for [k] follow each other within the window, the
    pending timer is the one of the latest event; once the events have
    ended it fires, once. *)
Lemma burst_view k delay (sched : list (Z * EventArgs)) :
  forall tprev t0 a0 l T,
    t0 <= tprev -> tprev <= T ->
    nondecreasing_from tprev (List.map fst sched) ->
    within_window delay t0 (List.map fst (filter (for_key k) sched)) ->
    (forall t, In t (List.map fst sched) -> t <= T) ->
    fire_view T (foldl (arrive_view k delay) (Some (t0 + delay, a0), l) sched) =
      let last_event := List.last (filter (for_key k) sched) (t0, a0) in
      if fst last_event + delay <=? T
      then (None, l ++ [(fst last_event + delay, snd last_event)])
      else (Some (fst last_event + delay, snd last_event), l).
Proof.
  induction sched as [| [t a] sched IH]; intros tprev t0 a0 l T Ht0 HT Hnd Hw Hall.
  - reflexivity.
  - cbn [foldl List.map fst] in *. destruct Hnd as [Hle Hnd].
    assert (HtT : t <= T) by (apply Hall; now left).
    rewrite filter_cons in Hw |- *.
    unfold arrive_view at 2. cbn [fst snd].
    destruct (decide (for_key k (t, a))) as [Hk | Hk]; unfold for_key in Hk; cbn [snd] in Hk.
    + destruct (decide (event_key a = k)) as [_ | ?]; [| contradiction].
      cbn [List.map within_window fst] in Hw. destruct Hw as [Hlt Hw].
      assert (Hfire : fire_view t (Some (t0 + delay, a0), l) = (Some (t0 + delay, a0), l)).
      { unfold fire_view. cbn. destruct (Z.leb_spec (t0 + delay) t); [lia | reflexivity]. }
      rewrite Hfire. cbn [snd].
      rewrite (IH t t a l T); [| lia | exact HtT | exact Hnd | exact Hw |].
      * now rewrite last_cons_default.
      * intros u Hu. apply Hall. now right.
    + destruct (decide (event_key a = k)) as [? | _]; [contradiction |].
      unfold fire_view at 2. cbn [fst snd].
      destruct (Z.leb_spec (t0 + delay) t) as [Hfired | Hnot].
      * assert (Hquiet : filter (for_key k) sched = []).
        { destruct (filter (for_key k) sched) as [| [t' a'] more] eqn:Hf; [reflexivity |].
          cbn [List.map within_window fst] in Hw. destruct Hw as [Hlt _].
          assert (Hin : In t' (List.map fst sched)).
          { apply in_map_iff. exists (t', a'). split; [reflexivity |].
            apply list_elem_of_In.
            assert (Hel : (t', a') ∈ filter (for_key k) sched)
              by (rewrite Hf; apply list_elem_of_here).
            now apply list_elem_of_filter in Hel as [_ Hel]. }
          pose proof (nondecreasing_from_le _ _ _ Hnd Hin). lia. }
        rewrite quiet_view by (exact Hquiet || reflexivity).
        rewrite Hquiet. cbn [List.last fst snd].
        unfold fire_view. cbn [fst snd].
        destruct (Z.leb_spec (t0 + delay) T); [reflexivity | lia].
      * apply (IH t); [lia | exact HtT | exact Hnd | exact Hw |].
        intros u Hu. apply Hall. now right.
Qed.

Lemma idle_view k delay (sched : list (Z * EventArgs)) :
  forall tprev l T e1 rest,
    nondecreasing_from tprev (List.map fst sched) ->
    filter (for_key k) sched = e1 :: rest ->
    within_window delay (fst e1) (List.map fst rest) ->
    (forall t, In t (List.map fst sched) -> t <= T) ->
    fire_view T (foldl (arrive_view k delay) (None, l) sched) =
      let last_event := List.last rest e1 in
      if fst last_event + delay <=? T
      then (None, l ++ [(fst last_event + delay, snd last_event)])
      else (Some (fst last_event + delay, snd last_event), l).
Proof.
  induction sched as [| [t a] sched IH]; intros tprev l T e1 rest Hnd Hf Hw Hall.
  - discriminate Hf.
  - cbn [foldl List.map fst] in *. destruct Hnd as [Hle Hnd].
    assert (HtT : t <= T) by (apply Hall; now left).
    rewrite filter_cons in Hf.
    unfold arrive_view at 2. unfold fire_view at 2. cbn [fst snd].
    destruct (decide (for_key k (t, a))) as [Hk | Hk]; unfold for_key in Hk; cbn [snd] in Hk.
    + destruct (decide (event_key a = k)) as [_ | ?]; [| contradiction].
      injection Hf as <- <-. cbn [fst] in Hw.
      apply (burst_view k delay sched t t a l T); [lia | exact HtT | exact Hnd | exact Hw |].
      intros u Hu. apply Hall. now right.
    + destruct (decide (event_key a = k)) as [? | _]; [contradiction |].
      apply (IH t); [exact Hnd | exact Hf | exact Hw |].
      intros u Hu. apply Hall. now right.
Qed.

(** A burst of events for one key, each less than the debounce delay
    after the one before, among events for other keys: [_process_event]
    is called for the key once, one delay after the last event of the
    burst, with the arguments of that event; before that time it is not
    called and the timer of the last event is pending. *)
Theorem debounce_burst_one_call self k (sched : list (Z * EventArgs))
    (tstart T : Z) (e1 : Z * EventArgs) (rest : list (Z * EventArgs)) :
  consistent self ->
  pending k self = None ->
  nondecreasing_from tstart (List.map fst sched) ->
  filter (for_key k) sched = e1 :: rest ->
  within_window (_debounce_delay self) (fst e1) (List.map fst rest) ->
  (forall t, In t (List.map fst sched) -> t <= T) ->
  let final := run_due T (foldl arrive self sched) in
  let last_event := List.last rest e1 in
  let fires := fst last_event + _debounce_delay self in
  processed_for k final
  = processed_for k self ++ (if fires <=? T then [(fires, snd last_event)] else []) /\
  pending k final = (if fires <=? T then None else Some (fires, snd last_event)).
Proof.
  intros Hc Hp Hnd Hf Hw Hall final last_event fires.
  destruct (foldl_arrive_view k sched self Hc) as (Hc1 & Hv1 & Hd1).
  destruct (run_due_view T k (foldl arrive self sched) Hc1) as [_ Hv2].
  fold final in Hv2. rewrite Hv1 in Hv2.
  assert (Hview : view k self = (None, processed_for k self))
    by (unfold view; now rewrite Hp).
  rewrite Hview in Hv2.
  rewrite (idle_view k (_debounce_delay self) sched tstart (processed_for k self) T e1 rest
             Hnd Hf Hw Hall) in Hv2.
  cbv zeta in Hv2. fold last_event in Hv2. fold fires in Hv2.
  unfold view in Hv2. destruct (fires <=? T); injection Hv2 as Hpend Hproc.
  - split; [exact Hproc | exact Hpend].
  - split; [now rewrite Hproc, List.app_nil_r | exact Hpend].
Qed.

(** An event for one key leaves what is pending for another key as it
    is. *)
Theorem debounce_keys_independent now a self k :
  consistent self ->
  event_key a <> k ->
  pending k (_debounce_event now a self) = pending k self /\
  processed_for k (_debounce_event now a self) = processed_for k self.
Proof.
  intros Hc Hne. pose proof (_debounce_event_view now a self k Hc) as Hv.
  destruct (decide (event_key a = k)); [contradiction |].
  unfold view in Hv. now injection Hv.
Qed.

End Debounce.

(** Three events for [/w/a.txt] at 0, 300 and 500 ms, with one for
    another file in between: one call, at 2500 ms. *)
Lemma debounce_burst_one_call_witness :
  let a := FileWatcherHandler.mkArgs "created" "/w/a.txt" None in
  let b := FileWatcherHandler.mkArgs "created" "/w/b.txt" None in
  let sched := [(0, a); (100, b); (300, a); (500, a)] in
  FileWatcherHandler.processed_for "created:/w/a.txt"
    (FileWatcherHandler.run_due 10000
       (foldl FileWatcherHandler.arrive FileWatcherHandler.init sched))
  = [(2500, a)].
Proof.
  intros a b sched.
  destruct (debounce_burst_one_call FileWatcherHandler.init "created:/w/a.txt" sched
              0 10000 (0, a) [(300, a); (500, a)]) as [Hcalls _].
  - exact consistent_init.
  - reflexivity.
  - cbn. lia.
  - reflexivity.
  - cbn. lia.
  - intros t Ht. cbn in Ht. lia.
  - exact Hcalls.
Defined.

(** A move to [/w/b.txt] leaves the timer pending for the creation of
    [/w/a.txt] as it is. *)
Lemma debounce_keys_independent_witness :
  let a := FileWatcherHandler.mkArgs "created" "/w/a.txt" None in
  let b := FileWatcherHandler.mkArgs "moved" "/w/b.txt" (Some "/w/a.txt") in
  let self := FileWatcherHandler._debounce_event 0 a FileWatcherHandler.init in
  FileWatcherHandler.pending "created:/w/a.txt"
    (FileWatcherHandler._debounce_event 700 b self)
  = Some (2000, a).
Proof.
  intros a b self.
  destruct (debounce_keys_independent 700 b self "created:/w/a.txt") as [Hpending _].
  - apply _debounce_event_consistent. exact consistent_init.
  - discriminate.
  - rewrite Hpending. reflexivity.
Defined.

(** ** The watcher *)

Section Watcher.
Import FileWatcherHandler.

Lemma dispatch_consistent now event (h : FileWatcherHandler.t) :
  consistent h -> consistent (dispatch now event h).
Proof.
  intros Hc. destruct event as [d src | d src dest |]; cbn [dispatch].
  - unfold on_created. destruct d; cbn [negb];
      [exact Hc | now apply _debounce_event_consistent].
  - unfold on_moved. destruct d; cbn [negb];
      [exact Hc | now apply _debounce_event_consistent].
  - exact Hc.
Qed.

Lemma tick_consistent now (fw : FileWatcher.t) :
  consistent (FileWatcher.event_handler fw) ->
  consistent (FileWatcher.event_handler (FileWatcher.tick now fw)).
Proof. intros Hc. cbn. now apply (run_due_view now ""). Qed.

Lemma emit_consistent now event (fw : FileWatcher.t) :
  consistent (FileWatcher.event_handler fw) ->
  consistent (FileWatcher.event_handler (FileWatcher.emit now event fw)).
Proof.
  intros Hc. unfold FileWatcher.emit.
  pose proof (tick_consistent now fw Hc) as Hc1.
  destruct (FileWatcher.observer (FileWatcher.tick now fw)); try exact Hc1.
  cbn [FileWatcher.event_handler]. now apply dispatch_consistent.
Qed.

(** [stop] on a running watcher leaves the handler, with its map and its
    timers, as it is: the timers pending are not cancelled.  From then
    on an event reported by the file system does not reach the handler,
    and a timer that was pending still calls [_process_event] when its
    time has come. *)
Theorem stop_keeps_pending_timers (fw : FileWatcher.t) :
  FileWatcher._running fw = true ->
  let fw' := FileWatcher.stop fw in
  FileWatcher.is_running fw' = false /\
  FileWatcher.event_handler fw' = FileWatcher.event_handler fw /\
  (forall now event,
     FileWatcher.event_handler (FileWatcher.emit now event fw')
     = run_due now (FileWatcher.event_handler fw)) /\
  (forall k d a T,
     consistent (FileWatcher.event_handler fw) ->
     pending k (FileWatcher.event_handler fw) = Some (d, a) ->
     d <= T ->
     processed_for k (FileWatcher.event_handler (FileWatcher.tick T fw'))
     = processed_for k (FileWatcher.event_handler fw) ++ [(d, a)]).
Proof.
  intros Hrun fw'. subst fw'. unfold FileWatcher.stop. rewrite Hrun. cbn [negb].
  split; [reflexivity |]. split; [reflexivity |]. split.
  - intros now event. reflexivity.
  - intros k d a T Hc Hp Hd. cbn [FileWatcher.tick FileWatcher.event_handler].
    destruct (run_due_view T k (FileWatcher.event_handler fw) Hc) as [_ Hv].
    unfold view in Hv. rewrite Hp in Hv. unfold fire_view in Hv. cbn [fst snd] in Hv.
    destruct (Z.leb_spec d T); [| lia]. now injection Hv.
Qed.

(** The key of an event tells its type and its path: events of the two
    types, or for two paths, never share an entry of the map. *)
Theorem event_key_injective (a b : EventArgs) :
  (event_type a = "created" \/ event_type a = "moved") ->
  (event_type b = "created" \/ event_type b = "moved") ->
  event_key a = event_key b ->
  event_type a = event_type b /\ file_path a = file_path b.
Proof.
  unfold event_key. intros [Ha | Ha] [Hb | Hb]; rewrite Ha, Hb; intros Hk.
  - split; [reflexivity |]. now repeat injection Hk as Hk.
  - discriminate Hk.
  - discriminate Hk.
  - split; [reflexivity |]. now repeat injection Hk as Hk.
Qed.

End Watcher.

(** ** Starting and stopping *)

Section Lifecycle.
Context `{FileSystem}.

Lemma start_stopped (env : FileWatcher.StartEnv) (fs : FS) (fw : FileWatcher.t) :
  FileWatcher._running fw = false ->
  FileWatcher.observer fw <> FileWatcher.NotStarted ->
  exists e, FileWatcher.start env fs fw = (fw, Raise e).
Proof.
  intros Hr Ho. unfold FileWatcher.start. rewrite Hr.
  destruct (let? watch_paths := FileWatcher.get_watch_paths env in
            FileWatcher.schedule_paths env fs watch_paths) as [u | e]; [| eauto].
  unfold FileWatcher.observer_start.
  destruct fw as [o h r]. cbn in *. subst r.
  destruct (FileWatcher.emitters_start env) as [u' | e]; [| eauto].
  destruct o; [contradiction | eauto | eauto].
Qed.

(** [start] on a running watcher and [stop] on one that is not running
    change nothing.  When [start] returns on a watcher that was not
    running, the observer had never been started, the watcher is
    running, and [stop] ends that; when [start] raises (the watch
    paths cannot be read, a path cannot be scheduled, the observer
    cannot start) the watcher is not running.  A watcher that has been
    stopped cannot be started again, whatever is found outside: [start]
    raises and the watcher stays as it is. *)
Theorem watcher_lifecycle (env : FileWatcher.StartEnv) (fs : FS) (fw : FileWatcher.t) :
  (FileWatcher._running fw = true ->
     FileWatcher.start env fs fw = (fw, Ok tt)) /\
  (FileWatcher._running fw = false ->
     FileWatcher.stop fw = fw) /\
  (forall e, FileWatcher._running fw = false ->
     FileWatcher.get_watch_paths env = Raise e ->
     FileWatcher.start env fs fw = (fw, Raise e)) /\
  (forall fw' e,
     FileWatcher.start env fs fw = (fw', Raise e) ->
     FileWatcher.is_running fw' = false /\
     FileWatcher.event_handler fw' = FileWatcher.event_handler fw) /\
  (forall fw',
     FileWatcher._running fw = false ->
     FileWatcher.start env fs fw = (fw', Ok tt) ->
     FileWatcher.observer fw = FileWatcher.NotStarted /\
     FileWatcher.is_running fw' = true /\
     FileWatcher.event_handler fw' = FileWatcher.event_handler fw /\
     FileWatcher.is_running (FileWatcher.stop fw') = false /\
     forall env' fs',
       exists e', FileWatcher.start env' fs' (FileWatcher.stop fw')
                  = (FileWatcher.stop fw', Raise e')).
Proof.
  split; [| split; [| split; [| split]]].
  - intros Hr. unfold FileWatcher.start. now rewrite Hr.
  - intros Hr. unfold FileWatcher.stop. now rewrite Hr.
  - intros e Hr Hpaths. unfold FileWatcher.start. now rewrite Hr, Hpaths.
  - intros fw' e. unfold FileWatcher.start.
    destruct (FileWatcher._running fw) eqn:Hr; [discriminate |].
    destruct (let? watch_paths := FileWatcher.get_watch_paths env in
              FileWatcher.schedule_paths env fs watch_paths) as [u | e0].
    + destruct (FileWatcher.observer_start env (FileWatcher.observer fw))
        as [o [u' | e1]]; [discriminate |].
      intros [= <- _]. split; reflexivity.
    + intros [= <- _]. unfold FileWatcher.is_running. now rewrite Hr.
  - intros fw' Hr. unfold FileWatcher.start. rewrite Hr.
    destruct (let? watch_paths := FileWatcher.get_watch_paths env in
              FileWatcher.schedule_paths env fs watch_paths) as [u | e0];
      [| discriminate].
    unfold FileWatcher.observer_start.
    destruct (FileWatcher.emitters_start env) as [u' | e1]; [| discriminate].
    destruct (FileWatcher.observer fw) eqn:Ho; [| discriminate | discriminate].
    intros [= <-]. do 4 (split; [reflexivity |]).
    intros env' fs'. apply start_stopped; [reflexivity | discriminate].
Qed.

End Lifecycle.


(** The watcher of the example is stopped at 1000 ms with the timer of
    [/watch/a.txt] pending: [_process_event] is called at 2000 ms. *)
Lemma stop_keeps_pending_timers_witness :
  FileWatcherHandler.processed_for "created:/watch/a.txt"
    (FileWatcher.event_handler (FileWatcher.tick 5000 Examples.stopped_early))
  = [(2000, FileWatcherHandler.mkArgs "created" "/watch/a.txt" None)].
Proof.
  pose (running :=
    FileWatcher.tick 1000
      (FileWatcher.emit 0
         (FileWatcherHandler.FileCreatedEvent false "/watch/a.txt") Examples.watching)).
  destruct (stop_keeps_pending_timers running eq_refl) as (_ & _ & _ & Hfires).
  apply (Hfires "created:/watch/a.txt" 2000
           (FileWatcherHandler.mkArgs "created" "/watch/a.txt" None) 5000).
  - apply tick_consistent, emit_consistent. exact consistent_init.
  - vm_compute. reflexivity.
  - lia.
Defined.

Lemma event_key_injective_witness :
  FileWatcherHandler.event_type (FileWatcherHandler.mkArgs "moved" "/w/a" (Some "/w/b"))
  = FileWatcherHandler.event_type (FileWatcherHandler.mkArgs "moved" "/w/a" (Some "/w/c")) /\
  FileWatcherHandler.file_path (FileWatcherHandler.mkArgs "moved" "/w/a" (Some "/w/b"))
  = FileWatcherHandler.file_path (FileWatcherHandler.mkArgs "moved" "/w/a" (Some "/w/c")).
Proof.
  apply event_key_injective; [now right | now right | reflexivity].
Defined.

(** The watcher of the example is running; once stopped it cannot be
    started again. *)
Lemma watcher_lifecycle_witness :
  FileWatcher.is_running Examples.watching = true /\
  FileWatcher.is_running (FileWatcher.stop Examples.watching) = false /\
  exists e,
    @FileWatcher.start Examples.disk_fs Examples.quiet_env Examples.watch_disk
      (FileWatcher.stop Examples.watching)
    = (FileWatcher.stop Examples.watching, Raise e).
Proof.
  destruct (@watcher_lifecycle Examples.disk_fs Examples.quiet_env Examples.watch_disk
              FileWatcher.init) as (_ & _ & _ & _ & Hcycle).
  destruct (Hcycle Examples.watching eq_refl eq_refl) as (_ & Hrun & _ & Hstop & Hagain).
  split; [exact Hrun |]. split; [exact Hstop |]. apply Hagain.
Defined.

(** ** Bursts of events *)

Section Coalescing.
Import FileWatcherHandler.

(** C8. A burst of events for one key, each less than the debounce
    delay after the one before it, arrives among events for other
    keys; a timer may be pending for the key when the burst begins,
    not yet due when its first event arrives.  Then [_process_event]
    is called for the key exactly once, one delay after the last event
    of the burst and with the arguments of that event: the arguments
    of the earlier events, and of the timer that was pending, are
    never processed.  Before that time no call is made and the timer
    of the last event is pending. *)
Theorem debounce_coalescing self k (sched : list (Z * EventArgs))
    (tstart T : Z) (e1 : Z * EventArgs) (rest : list (Z * EventArgs)) :
  consistent self ->
  nondecreasing_from tstart (List.map fst sched) ->
  filter (for_key k) sched = e1 :: rest ->
  within_window (_debounce_delay self) (fst e1) (List.map fst rest) ->
  (forall t, In t (List.map fst sched) -> t <= T) ->
  (forall d0 a0, pending k self = Some (d0, a0) ->
     d0 <= tstart + _debounce_delay self /\ fst e1 < d0) ->
  let final := run_due T (foldl arrive self sched) in
  let last_event := List.last rest e1 in
  let fires := fst last_event + _debounce_delay self in
  processed_for k final
  = processed_for k self ++ (if fires <=? T then [(fires, snd last_event)] else []) /\
  pending k final = (if fires <=? T then None else Some (fires, snd last_event)) /\
  (fires <= T ->
   length (processed_for k final) = S (length (processed_for k self))).
Proof.
  intros Hc Hnd Hf Hw Hall Hp final last_event fires.
  destruct (foldl_arrive_view k sched self Hc) as (Hc1 & Hv1 & Hd1).
  destruct (run_due_view T k (foldl arrive self sched) Hc1) as [_ Hv2].
  fold final in Hv2. rewrite Hv1 in Hv2.
  assert (Hin1 : In (fst e1) (List.map fst sched)).
  { apply in_map. apply list_elem_of_In.
    assert (Hel : e1 ∈ filter (for_key k) sched) by (rewrite Hf; apply list_elem_of_here).
    now apply list_elem_of_filter in Hel as [_ Hel]. }
  pose proof (nondecreasing_from_le _ _ _ Hnd Hin1) as Hstart.
  pose proof (Hall _ Hin1) as Hend.
  assert (Hview : fire_view T (foldl (arrive_view k (_debounce_delay self))
                                 (view k self) sched)
                  = if fires <=? T
                    then (None, processed_for k self ++ [(fires, snd last_event)])
                    else (Some (fires, snd last_event), processed_for k self)).
  { unfold view. destruct (pending k self) as [[d0 a0] |] eqn:Hpend.
    - destruct (Hp d0 a0 eq_refl) as [Hd0 Hlate].
      replace d0 with ((d0 - _debounce_delay self) + _debounce_delay self) by lia.
      rewrite (burst_view k (_debounce_delay self) sched tstart
                 (d0 - _debounce_delay self) a0 (processed_for k self) T);
        [| lia | lia | exact Hnd | | exact Hall].
      + rewrite Hf, last_cons_default. reflexivity.
      + rewrite Hf. cbn [List.map within_window]. split; [lia | exact Hw].
    - apply (idle_view k (_debounce_delay self) sched tstart (processed_for k self) T e1 rest
               Hnd Hf Hw Hall). }
  rewrite Hview in Hv2. unfold view in Hv2.
  destruct (Z.leb_spec fires T) as [Hfired | Hnot]; injection Hv2 as Hpend Hproc.
  - split; [exact Hproc |]. split; [exact Hpend |].
    intros _. rewrite Hproc, List.length_app. cbn. lia.
  - split; [now rewrite Hproc, List.app_nil_r |]. split; [exact Hpend | lia].
Qed.

End Coalescing.

(** A move to [/w/a.txt] is pending since 0 ms; two more moves to it
    arrive at 300 and 500 ms, from other places, with an event for
    another file in between: one call, at 2500 ms, with the arguments
    of the last move. *)
Lemma debounce_coalescing_witness :
  let a0 := FileWatcherHandler.mkArgs "moved" "/w/a.txt" (Some "/w/x.txt") in
  let a1 := FileWatcherHandler.mkArgs "moved" "/w/a.txt" (Some "/w/y.txt") in
  let a2 := FileWatcherHandler.mkArgs "moved" "/w/a.txt" (Some "/w/z.txt") in
  let b := FileWatcherHandler.mkArgs "created" "/w/b.txt" None in
  let self := FileWatcherHandler._debounce_event 0 a0 FileWatcherHandler.init in
  FileWatcherHandler.processed_for "moved:/w/a.txt"
    (FileWatcherHandler.run_due 10000
       (foldl FileWatcherHandler.arrive self [(100, b); (300, a1); (500, a2)]))
  = [(2500, a2)].
Proof.
  intros a0 a1 a2 b self.
  destruct (debounce_coalescing self "moved:/w/a.txt" [(100, b); (300, a1); (500, a2)]
              0 10000 (300, a1) [(500, a2)]) as [Hcalls _].
  - apply _debounce_event_consistent. exact consistent_init.
  - cbn. lia.
  - reflexivity.
  - cbn. lia.
  - intros t Ht. cbn in Ht. lia.
  - intros d0 a Hp. vm_compute in Hp. injection Hp as <- <-. cbn. lia.
  - exact Hcalls.
Defined.

(** ** After [stop] *)

Section AfterStop.
Import FileWatcherHandler.

Lemma fire_view_le (t T : Z) v : t <= T -> fire_view T (fire_view t v) = fire_view T v.
Proof.
  intros Hle. unfold fire_view. destruct v as [[[d a] |] l]; cbn; [| reflexivity].
  destruct (Z.leb_spec d t) as [Hd | Hd]; cbn.
  - destruct (Z.leb_spec d T); [reflexivity | lia].
  - reflexivity.
Qed.

(** An observer that is not alive hands no event to the handler: only
    time acts on the timers. *)
Lemma emit_not_alive now event (fw : FileWatcher.t) :
  FileWatcher.observer fw <> FileWatcher.Alive ->
  FileWatcher.emit now event fw = FileWatcher.tick now fw.
Proof.
  intros Ho. unfold FileWatcher.emit. cbn [FileWatcher.tick FileWatcher.observer].
  destruct (FileWatcher.observer fw); [reflexivity | contradiction | reflexivity].
Qed.

Lemma emit_all_not_alive (events : list (Z * FileSystemEvent)) (T : Z)
    (fw : FileWatcher.t) :
  FileWatcher.observer fw <> FileWatcher.Alive ->
  consistent (FileWatcher.event_handler fw) ->
  (forall t, In t (List.map fst events) -> t <= T) ->
  consistent (FileWatcher.event_handler (FileWatcher.emit_all fw events)) /\
  forall k,
    fire_view T (view k (FileWatcher.event_handler (FileWatcher.emit_all fw events)))
    = fire_view T (view k (FileWatcher.event_handler fw)).
Proof.
  unfold FileWatcher.emit_all. revert fw.
  induction events as [| [t ev] events IH]; intros fw Ho Hc Hall; [now split |].
  cbn [foldl fst snd]. rewrite (emit_not_alive t ev fw Ho).
  destruct (IH (FileWatcher.tick t fw)) as [Hc' Hv'].
  - exact Ho.
  - now apply tick_consistent.
  - intros u Hu. apply Hall. now right.
  - split; [exact Hc' |]. intros k. rewrite Hv'.
    cbn [FileWatcher.tick FileWatcher.event_handler].
    destruct (run_due_view t k (FileWatcher.event_handler fw) Hc) as [_ ->].
    apply fire_view_le. apply Hall. now left.
Qed.

(** C9, amended. [stop] on a running watcher stops the observer and
    waits for its thread, and the watcher is not running any more:
    the events the file system reports after [stop] has returned do
    not reach the handler, so no new timer is started.  [stop] does
    not touch the handler: the timers that are pending are not
    cancelled, and each of them calls [_process_event] with its
    arguments when its time has come, after [stop] has returned.
    Whatever events are reported after [stop], the state of each key
    is what time alone makes of the state it had at [stop]. *)
Theorem stop_ends_delivery_not_timers (fw : FileWatcher.t)
    (events : list (Z * FileSystemEvent)) (T : Z) :
  FileWatcher._running fw = true ->
  consistent (FileWatcher.event_handler fw) ->
  (forall t, In t (List.map fst events) -> t <= T) ->
  let stopped := FileWatcher.stop fw in
  let final :=
    FileWatcher.event_handler (FileWatcher.tick T (FileWatcher.emit_all stopped events)) in
  FileWatcher.observer stopped = FileWatcher.Stopped /\
  FileWatcher.is_running stopped = false /\
  FileWatcher.event_handler stopped = FileWatcher.event_handler fw /\
  (forall k, view k final = fire_view T (view k (FileWatcher.event_handler fw))) /\
  (forall k d a,
     pending k (FileWatcher.event_handler fw) = Some (d, a) -> d <= T ->
     processed_for k final
     = processed_for k (FileWatcher.event_handler fw) ++ [(d, a)]) /\
  (forall k,
     pending k (FileWatcher.event_handler fw) = None ->
     processed_for k final = processed_for k (FileWatcher.event_handler fw)).
Proof.
  intros Hrun Hc Hall stopped final.
  assert (Hstop : stopped = {| FileWatcher.observer := FileWatcher.Stopped;
                               FileWatcher.event_handler := FileWatcher.event_handler fw;
                               FileWatcher._running := false |}).
  { subst stopped. unfold FileWatcher.stop. now rewrite Hrun. }
  assert (Hview : forall k,
             view k final = fire_view T (view k (FileWatcher.event_handler fw))).
  { intros k. subst final.
    destruct (emit_all_not_alive events T stopped) as [Hc' Hv'].
    - rewrite Hstop. discriminate.
    - rewrite Hstop. exact Hc.
    - exact Hall.
    - cbn [FileWatcher.tick FileWatcher.event_handler].
      destruct (run_due_view T k _ Hc') as [_ ->].
      rewrite Hv', Hstop. reflexivity. }
  rewrite Hstop at 1 2 3.
  do 3 (split; [reflexivity |]). split; [exact Hview |]. split.
  - intros k d a Hp Hd. specialize (Hview k). unfold view in Hview.
    rewrite Hp in Hview. unfold fire_view in Hview. cbn [fst snd] in Hview.
    destruct (Z.leb_spec d T); [| lia]. now injection Hview.
  - intros k Hp. specialize (Hview k). unfold view in Hview.
    rewrite Hp in Hview. unfold fire_view in Hview. cbn [fst snd] in Hview.
    now injection Hview.
Qed.

End AfterStop.

(** C9 as stated fails: the watcher of the example is stopped at 1000 ms
    while the timer of [/watch/a.txt] is pending.  After [stop] has
    returned the timer is still pending, and at 2000 ms it calls
    [_process_event]. *)
Lemma pending_timer_survives_stop_counterexample :
  let a := FileWatcherHandler.mkArgs "created" "/watch/a.txt" None in
  let handler := FileWatcher.event_handler Examples.stopped_early in
  FileWatcher.observer Examples.stopped_early = FileWatcher.Stopped /\
  FileWatcher.is_running Examples.stopped_early = false /\
  FileWatcherHandler.pending "created:/watch/a.txt" handler = Some (2000, a) /\
  FileWatcherHandler.processed handler = [] /\
  FileWatcherHandler.processed
    (FileWatcher.event_handler (FileWatcher.tick 5000 Examples.stopped_early))
  = [(2000, a)].
Proof. vm_compute. repeat split. Qed.

(** An event for [/watch/b.txt] reported at 1500 ms, after the stop, is
    not processed; the timer of [/watch/a.txt] is. *)
Lemma stop_ends_delivery_not_timers_witness :
  let running :=
    FileWatcher.tick 1000
      (FileWatcher.emit 0
         (FileWatcherHandler.FileCreatedEvent false "/watch/a.txt") Examples.watching) in
  let final :=
    FileWatcher.event_handler
      (FileWatcher.tick 5000
         (FileWatcher.emit_all (FileWatcher.stop running)
            [(1500, FileWatcherHandler.FileCreatedEvent false "/watch/b.txt")])) in
  FileWatcherHandler.processed_for "created:/watch/a.txt" final
  = [(2000, FileWatcherHandler.mkArgs "created" "/watch/a.txt" None)] /\
  FileWatcherHandler.processed_for "created:/watch/b.txt" final = [].
Proof.
  intros running final.
  destruct (stop_ends_delivery_not_timers running
              [(1500, FileWatcherHandler.FileCreatedEvent false "/watch/b.txt")] 5000)
    as (_ & _ & _ & _ & Hfires & Hquiet).
  - reflexivity.
  - apply tick_consistent, emit_consistent. exact consistent_init.
  - intros t Ht. cbn in Ht. lia.
  - split.
    + apply (Hfires "created:/watch/a.txt" 2000
               (FileWatcherHandler.mkArgs "created" "/watch/a.txt" None));
        [reflexivity | lia].
    + apply (Hquiet "created:/watch/b.txt"). reflexivity.
Defined.

(** ** Which rule is applied *)

Section AppliedRule.
Context `{RegexEngine} `{Mimetypes} `{FileSystem}.

Lemma In_sorted_insert (B x : Rule) (l : list Rule) :
  In B (sorted_insert x l) <-> B = x \/ In B l.
Proof.
  induction l as [| y l IH]; cbn.
  - split; [intros [<- | []]; now left | intros [-> | []]; now left].
  - destruct (priority_key x <=? priority_key y)%Z; cbn; [intuition congruence |].
    rewrite IH. intuition congruence.
Qed.

Lemma In_sorted (B : Rule) (l : list Rule) : In B (sorted l) <-> In B l.
Proof.
  induction l as [| x l IH]; cbn; [tauto |].
  rewrite In_sorted_insert, IH. intuition congruence.
Qed.

Lemma sorted_insert_ordered (x : Rule) (l : list Rule) :
  ordered_by_priority l -> ordered_by_priority (sorted_insert x l).
Proof.
  induction l as [| y l IH]; cbn; [intros _; split; [intros ? [] | exact I] |].
  intros [Hy Hl].
  destruct (Z.leb_spec (priority_key x) (priority_key y)) as [Hle | Hgt]; cbn.
  - split; [| split; assumption].
    intros z [<- | Hz]; [exact Hle |]. specialize (Hy z Hz). lia.
  - split; [| now apply IH].
    intros z Hz. apply In_sorted_insert in Hz as [-> | Hz]; [lia | now apply Hy].
Qed.

Lemma sorted_ordered (l : list Rule) : ordered_by_priority (sorted l).
Proof.
  induction l as [| x l IH]; cbn; [exact I |]. now apply sorted_insert_ordered.
Qed.

Lemma ordered_after (pre post : list Rule) (A B : Rule) :
  ordered_by_priority (pre ++ A :: post) -> In B post ->
  (priority_key A <= priority_key B)%Z.
Proof.
  induction pre as [| y pre IH]; cbn.
  - intros [HA _] HB. now apply HA.
  - intros [_ Hrest]. now apply IH.
Qed.

(** When the loop applies a rule, the rules before it in the list were
    inactive or did not match. *)
Lemma _apply_rules_loop_found p mime st (l : list Rule) (m : RuleActions) :
  _apply_rules_loop p mime st l = Ok (Some m) ->
  exists pre A post n,
    l = pre ++ A :: post /\
    is_active A = true /\ _rule_matches p mime st A = Ok true /\ name A = Some n /\
    m = {| ra_label := default "other" (label (default no_actions (then_ A)));
           ra_tags := default [] (tags_add (default no_actions (then_ A)));
           ra_rule_matched := n;
           ra_move_to := move_to (default no_actions (then_ A));
           ra_rename_to := rename_to (default no_actions (then_ A)) |} /\
    (forall B, In B pre -> is_active B = true -> _rule_matches p mime st B = Ok false).
Proof.
  induction l as [| y l IH]; cbn; [discriminate |].
  fold (is_active y).
  destruct (is_active y) eqn:Hact; cbn [negb].
  - destruct (_rule_matches p mime st y) as [[] | e] eqn:Hm; cbn; [| | discriminate].
    + unfold _apply_rule_actions, rule_name.
      destruct (name y) as [n |] eqn:Hn; cbn; [| discriminate].
      intros [= <-]. exists [], y, l, n. repeat split; try assumption.
      intros B [].
    + intros Hl. destruct (IH Hl) as (pre & A & post & n & -> & HA & HmA & Hn & -> & Hpre).
      exists (y :: pre), A, post, n. repeat split; try assumption.
      intros B [<- | HB] HactB; [exact Hm | now apply Hpre].
  - intros Hl. destruct (IH Hl) as (pre & A & post & n & -> & HA & HmA & Hn & -> & Hpre).
    exists (y :: pre), A, post, n. repeat split; try assumption.
    intros B [<- | HB] HactB; [congruence | now apply Hpre].
Qed.

(** The rule a classification names is an active rule of the list that
    matches the file, its actions are the ones carried, and every
    active rule of strictly smaller priority was tried and did not
    match. *)
Theorem matched_rule_has_least_priority cfg fs file_path n :
  let p := Pathlib.of_str file_path in
  let c := classify_file cfg fs file_path in
  cls_rule_matched c = Some n ->
  exists A st,
    Path_stat fs p = Ok st /\
    In A (ConfigManager.get_rules cfg) /\ name A = Some n /\ is_active A = true /\
    _rule_matches p (resolve_mime p) st A = Ok true /\
    cls_confidence c = 0.9%Q /\
    cls_label c = default "other" (label (default no_actions (then_ A))) /\
    cls_tags c = default [] (tags_add (default no_actions (then_ A))) /\
    cls_move_to c = move_to (default no_actions (then_ A)) /\
    (forall B, In B (ConfigManager.get_rules cfg) -> is_active B = true ->
       (priority_key B < priority_key A)%Z ->
       _rule_matches p (resolve_mime p) st B = Ok false).
Proof.
  intros p c. subst c. unfold classify_file. fold p.
  destruct (Path_stat fs p) as [st | e] eqn:Hstat; cbn [rbind try_except];
    [| cbn; discriminate].
  destruct (_apply_rules p (resolve_mime p) st (ConfigManager.get_rules cfg))
    as [[m |] | e] eqn:Hrules; cbn; try discriminate.
  intros [= <-]. unfold _apply_rules in Hrules.
  destruct (_apply_rules_loop_found _ _ _ _ _ Hrules)
    as (pre & A & post & n & Hsorted & HA & HmA & Hn & -> & Hpre).
  exists A, st. cbn. repeat split; try assumption; try reflexivity.
  - apply In_sorted. rewrite Hsorted. apply in_or_app. right. now left.
  - intros B HB HactB Hlt.
    apply In_sorted in HB. rewrite Hsorted in HB.
    apply in_app_or in HB as [HB | [-> | HB]].
    + now apply Hpre.
    + lia.
    + pose proof (sorted_ordered (ConfigManager.get_rules cfg)) as Hord.
      rewrite Hsorted in Hord. pose proof (ordered_after _ _ _ _ Hord HB). lia.
Qed.

Lemma sorted_insert_head (x : Rule) (l : list Rule) :
  (forall z, In z l -> (priority_key x <= priority_key z)%Z) ->
  sorted_insert x l = x :: l.
Proof.
  destruct l as [| y l]; [reflexivity |]. intros Hl. cbn.
  destruct (Z.leb_spec (priority_key x) (priority_key y)); [reflexivity |].
  specialize (Hl y (or_introl eq_refl)). lia.
Qed.

Lemma filter_sorted_insert (P : Rule -> bool) (x : Rule) (l : list Rule) :
  ordered_by_priority l ->
  List.filter P (sorted_insert x l)
  = if P x then sorted_insert x (List.filter P l) else List.filter P l.
Proof.
  induction l as [| y l IH]; cbn [sorted_insert List.filter ordered_by_priority].
  - intros _. destruct (P x); reflexivity.
  - intros [Hy Hl].
    destruct (Z.leb_spec (priority_key x) (priority_key y)) as [Hle | Hgt].
    + cbn [List.filter]. destruct (P x) eqn:Hx; [| reflexivity].
      symmetry. apply sorted_insert_head.
      intros z Hz. destruct (P y).
      * destruct Hz as [<- | Hz]; [exact Hle |].
        apply filter_In in Hz as [Hz _]. specialize (Hy z Hz). lia.
      * apply filter_In in Hz as [Hz _]. specialize (Hy z Hz). lia.
    + cbn [List.filter]. rewrite (IH Hl).
      destruct (P y) eqn:HPy; destruct (P x) eqn:HPx; try reflexivity.
      cbn [sorted_insert].
      destruct (Z.leb_spec (priority_key x) (priority_key y)); [lia | reflexivity].
Qed.

Lemma sorted_filter (P : Rule -> bool) (l : list Rule) :
  sorted (List.filter P l) = List.filter P (sorted l).
Proof.
  induction l as [| x l IH]; [reflexivity |].
  cbn [List.filter sorted].
  rewrite filter_sorted_insert by apply sorted_ordered.
  destruct (P x); [cbn [sorted]; now rewrite IH | exact IH].
Qed.

Lemma _apply_rules_loop_filter_active p mime st (l : list Rule) :
  _apply_rules_loop p mime st (List.filter is_active l) = _apply_rules_loop p mime st l.
Proof.
  induction l as [| y l IH]; [reflexivity |].
  cbn [List.filter _apply_rules_loop]. fold (is_active y).
  destruct (is_active y) eqn:Hact; cbn [negb]; [| exact IH].
  cbn [_apply_rules_loop]. fold (is_active y). rewrite Hact. cbn [negb].
  now rewrite IH.
Qed.

(** Switching a rule off is the same as deleting it, for rules whose
    priorities are integers or absent (the sort reads the priority of
    every rule, active or not): the inactive rules of a list have no
    part in the classification; their conditions, their actions and
    their names are not read. *)
Theorem inactive_rules_have_no_effect cfg cfg' fs file_path :
  ConfigManager.get_rules cfg'
  = List.filter is_active (ConfigManager.get_rules cfg) ->
  classify_file cfg' fs file_path = classify_file cfg fs file_path.
Proof.
  intros Hrules. unfold classify_file. rewrite Hrules.
  destruct (Path_stat fs (Pathlib.of_str file_path)) as [st | e]; [| reflexivity].
  cbn [rbind]. unfold _apply_rules.
  now rewrite sorted_filter, _apply_rules_loop_filter_active.
Qed.

(** A classification is of one of three kinds, told apart by the
    confidence: a failure (the file could not be examined, or a rule
    could not be evaluated), with the label [other], confidence 0.0,
    no metadata and nothing else; a fallback, with confidence 0.5 and
    the metadata of the file; or the result of a rule, with confidence
    0.9 and the metadata of the file.  A failure and a fallback name no
    rule and ask for no move and no renaming.  The MIME type is never
    empty.  When [stat] fails the classification is a failure. *)
Theorem classification_kinds cfg fs file_path :
  let p := Pathlib.of_str file_path in
  let c := classify_file cfg fs file_path in
  cls_mime_type c <> "" /\
  ( (cls_confidence c = 0.0%Q /\ cls_label c = "other" /\ cls_tags c = [] /\
     cls_metadata c = None /\ cls_rule_matched c = None /\
     cls_move_to c = None /\ cls_rename_to c = None)
    \/
    (cls_confidence c = 0.5%Q /\ cls_rule_matched c = None /\
     cls_move_to c = None /\ cls_rename_to c = None /\
     exists st, Path_stat fs p = Ok st /\
       cls_metadata c = Some {| md_filename := Pathlib.name p;
                                md_extension := Str.lower (Pathlib.suffix p);
                                md_size_bytes := st_size st |})
    \/
    (cls_confidence c = 0.9%Q /\
     exists st, Path_stat fs p = Ok st /\
       cls_metadata c = Some {| md_filename := Pathlib.name p;
                                md_extension := Str.lower (Pathlib.suffix p);
                                md_size_bytes := st_size st |}) ) /\
  (forall e, Path_stat fs p = Raise e ->
     cls_confidence c = 0.0%Q /\ cls_label c = "other").
Proof.
  intros p c.
  assert (Hmime : resolve_mime p <> "").
  { unfold resolve_mime.
    assert (Hg : forall ext, _guess_mime_from_extension ext <> "").
    { intros ext. unfold _guess_mime_from_extension.
      destruct (List.find _ _) as [kv |] eqn:Hfind; [| discriminate].
      apply find_some in Hfind as [Hin _].
      cbn in Hin. repeat (destruct Hin as [<- | Hin]; [discriminate |]). destruct Hin. }
    destruct (guess_type (Pathlib.str p)) as [m |]; [| apply Hg].
    case_bool_decide; [apply Hg | assumption]. }
  subst c. unfold classify_file. fold p.
  destruct (Path_stat fs p) as [st | e] eqn:Hstat; cbn [rbind try_except].
  - destruct (_apply_rules p (resolve_mime p) st (ConfigManager.get_rules cfg))
      as [[m |] | e] eqn:Hrules; cbn.
    + split; [exact Hmime |]. split; [| intros e [=]].
      right. right. split; [reflexivity |]. exists st. split; reflexivity.
    + split; [exact Hmime |]. split; [| intros e [=]].
      right. left. repeat split. exists st. split; reflexivity.
    + rewrite bool_decide_false by exact Hmime.
      split; [exact Hmime |]. split; [| intros e' [=]].
      left. repeat split.
  - cbn. rewrite bool_decide_false by exact Hmime.
    split; [exact Hmime |]. split; [| intros e' _; split; reflexivity].
    left. repeat split.
Qed.

End AppliedRule.

Lemma matched_rule_has_least_priority_witness :
  exists A st,
    @Path_stat Examples.disk_fs Examples.the_disk (Pathlib.of_str "notes.txt") = Ok st /\
    In A [Examples.rule_B; Examples.rule_off; Examples.rule_A] /\
    name A = Some "A" /\ is_active A = true.
Proof.
  destruct (@matched_rule_has_least_priority Examples.literal_regex Examples.no_mimetypes
              Examples.disk_fs
              (Examples.config [Examples.rule_B; Examples.rule_off; Examples.rule_A])
              Examples.the_disk "notes.txt" "A" eq_refl)
    as (A & st & Hstat & Hin & Hn & HA & _).
  exists A, st. repeat split; assumption.
Defined.

Lemma inactive_rules_have_no_effect_witness :
  @classify_file Examples.literal_regex Examples.no_mimetypes Examples.disk_fs
    (Examples.config [Examples.rule_B; Examples.rule_A]) Examples.the_disk "notes.txt"
  = @classify_file Examples.literal_regex Examples.no_mimetypes Examples.disk_fs
      (Examples.config [Examples.rule_B; Examples.rule_off; Examples.rule_A])
      Examples.the_disk "notes.txt".
Proof.
  apply inactive_rules_have_no_effect. reflexivity.
Defined.

Lemma classification_kinds_witness :
  let c := @classify_file Examples.literal_regex Examples.no_mimetypes Examples.disk_fs
             (Examples.config [Examples.rule_A])
             Examples.the_disk "missing.txt" in
  cls_confidence c = 0.0%Q /\ cls_label c = "other".
Proof.
  destruct (@classification_kinds Examples.literal_regex Examples.no_mimetypes
              Examples.disk_fs (Examples.config [Examples.rule_A])
              Examples.the_disk "missing.txt") as (_ & _ & Hfail).
  apply (Hfail (OSError "No such file or directory")). reflexivity.
Defined.

(** ** The priority order *)

Section PriorityOrder.
Context `{RegexEngine} `{Mimetypes} `{FileSystem}.




End PriorityOrder.


(** ** Editing the rules *)

Section EditingRules.
Import ConfigManager.

Lemma save_rules_writable cfg rules :
  rules_file_write_error cfg = None ->
  save_rules cfg rules = {| rules_file := RuleList rules; rules_file_write_error := None |}.
Proof.
  intros Hw. unfold save_rules, _save_rules, json_dump. now rewrite Hw.
Qed.

Lemma save_rules_unwritable cfg rules e :
  rules_file_write_error cfg = Some (OpenRaises e) -> save_rules cfg rules = cfg.
Proof.
  intros Hw. unfold save_rules, _save_rules, json_dump. now rewrite Hw.
Qed.

Lemma save_rules_interrupted cfg rules e complete :
  rules_file_write_error cfg = Some (DumpRaises e complete) ->
  get_rules (save_rules cfg rules) = if complete then rules else [].
Proof.
  intros Hw. unfold save_rules, _save_rules, json_dump. rewrite Hw.
  now destruct complete.
Qed.

Lemma in_range_spec (index : Z) (n : nat) :
  (0 <=? index) && (index <? Z.of_nat n) = true <-> 0 <= index < Z.of_nat n.
Proof. rewrite andb_true_iff, Z.leb_le, Z.ltb_lt. tauto. Qed.

(** Rules that are saved are the rules read back, and a rule that is
    added is read back at the end of the list, when the file can be
    written.  A file that cannot be read, or that does not hold a list,
    counts as an empty list: adding a rule to it leaves that rule
    alone in the file. *)
Theorem saved_rules_are_read_back cfg (rules : list Rule) (rule : Rule) :
  rules_file_write_error cfg = None ->
  get_rules (save_rules cfg rules) = rules /\
  get_rules (fst (add_rule cfg rule)) = get_rules cfg ++ [rule] /\
  ((forall l, rules_file cfg <> RuleList l) ->
     get_rules (fst (add_rule cfg rule)) = [rule]).
Proof.
  intros Hw. split; [| split].
  - now rewrite save_rules_writable.
  - unfold add_rule. cbn. now rewrite save_rules_writable.
  - intros Hbad. unfold add_rule. cbn. rewrite save_rules_writable by exact Hw.
    cbn. unfold get_rules, json_load.
    destruct (rules_file cfg) as [e | | l]; cbn; try reflexivity.
    now destruct (Hbad l).
Qed.

(** [update_rule] and [delete_rule] act on an index from 0 to the
    number of rules minus one: the rule at the index is replaced, or
    removed, and the other rules stay in their order.  Any other
    index, a negative one too, is refused: the result is [False] and
    nothing changes. *)
Theorem rule_edits_within_bounds cfg (index : Z) (rule : Rule) :
  rules_file_write_error cfg = None ->
  let rules := get_rules cfg in
  (0 <= index < Z.of_nat (length rules) ->
     snd (update_rule cfg index rule) = true /\
     get_rules (fst (update_rule cfg index rule)) = <[Z.to_nat index := rule]> rules /\
     get_rules (fst (update_rule cfg index rule)) !! Z.to_nat index = Some rule /\
     length (get_rules (fst (update_rule cfg index rule))) = length rules /\
     snd (delete_rule cfg index) = true /\
     get_rules (fst (delete_rule cfg index)) = delete (Z.to_nat index) rules /\
     S (length (get_rules (fst (delete_rule cfg index)))) = length rules) /\
  (~ 0 <= index < Z.of_nat (length rules) ->
     update_rule cfg index rule = (cfg, false) /\
     delete_rule cfg index = (cfg, false)).
Proof.
  intros Hw rules. split.
  - intros Hin. pose proof (proj2 (in_range_spec index (length rules)) Hin) as Hb.
    unfold update_rule, delete_rule. fold rules. rewrite Hb. cbn [try_except fst snd].
    rewrite !save_rules_writable by exact Hw. cbn.
    repeat split.
    + apply list_lookup_insert_eq. lia.
    + apply length_insert.
    + rewrite length_delete; [| apply lookup_lt_is_Some; lia].
      assert (0 < length rules)%nat by lia. lia.
  - intros Hout.
    assert (Hb : (0 <=? index) && (index <? Z.of_nat (length rules)) = false).
    { destruct ((0 <=? index) && (index <? Z.of_nat (length rules))) eqn:E; [| reflexivity].
      apply in_range_spec in E. contradiction. }
    unfold update_rule, delete_rule. fold rules. rewrite Hb. split; reflexivity.
Qed.

(** When the write of the rules file fails, [add_rule], and
    [update_rule] and [delete_rule] at an index in range, still answer
    [True]: the answer does not tell whether the change was stored.
    When [open] fails the rules are what they were.  When the failure
    comes after the file was opened, the rules that were stored are
    gone: the file holds the new list if all of it was written, and
    reads back as the empty list if not. *)
Theorem rule_edits_on_unwritable_file cfg (failure : write_failure)
    (index : Z) (rule : Rule) :
  rules_file_write_error cfg = Some failure ->
  let rules := get_rules cfg in
  let outcome (after : t * bool) (new_rules : list Rule) :=
    snd after = true /\
    match failure with
    | OpenRaises _ => fst after = cfg
    | DumpRaises _ complete =>
        get_rules (fst after) = if complete then new_rules else []
    end in
  outcome (add_rule cfg rule) (rules ++ [rule]) /\
  (0 <= index < Z.of_nat (length rules) ->
     outcome (update_rule cfg index rule) (<[Z.to_nat index := rule]> rules) /\
     outcome (delete_rule cfg index) (delete (Z.to_nat index) rules)).
Proof.
  intros Hw rules outcome. subst outcome. cbv beta. split.
  - unfold add_rule. cbn [try_except fst snd]. split; [reflexivity |].
    destruct failure as [e | e complete].
    + now apply (save_rules_unwritable _ _ e).
    + now apply (save_rules_interrupted _ _ e).
  - intros Hin. pose proof (proj2 (in_range_spec index _) Hin) as Hb.
    unfold update_rule, delete_rule. fold rules. rewrite Hb.
    cbn [try_except fst snd].
    destruct failure as [e | e complete].
    + rewrite !(save_rules_unwritable _ _ e) by exact Hw. repeat split.
    + rewrite !(save_rules_interrupted _ _ e complete) by exact Hw. repeat split.
Qed.

End EditingRules.

Lemma saved_rules_are_read_back_witness :
  ConfigManager.get_rules
    (fst (ConfigManager.add_rule
            (ConfigManager.mk (ConfigManager.Unreadable (OSError "No such file")) None)
            Examples.rule_A))
  = [Examples.rule_A].
Proof.
  destruct (saved_rules_are_read_back
              (ConfigManager.mk (ConfigManager.Unreadable (OSError "No such file")) None)
              [] Examples.rule_A eq_refl) as (_ & _ & Hbad).
  apply Hbad. intros l. discriminate.
Defined.

Lemma rule_edits_within_bounds_witness :
  ConfigManager.get_rules
    (fst (ConfigManager.update_rule
            (Examples.config [Examples.rule_A; Examples.rule_B]) 1 Examples.rule_C))
  = [Examples.rule_A; Examples.rule_C] /\
  ConfigManager.delete_rule (Examples.config [Examples.rule_A; Examples.rule_B]) (-1)
  = (Examples.config [Examples.rule_A; Examples.rule_B], false).
Proof.
  destruct (rule_edits_within_bounds
              (Examples.config [Examples.rule_A; Examples.rule_B]) 1 Examples.rule_C eq_refl)
    as [Hin _].
  destruct (rule_edits_within_bounds
              (Examples.config [Examples.rule_A; Examples.rule_B]) (-1) Examples.rule_C eq_refl)
    as [_ Hout].
  split.
  - apply Hin. cbn. lia.
  - apply Hout. cbn. lia.
Defined.

(** The disk is full: [add_rule] answers [True] and the rule that was
    stored is lost. *)
Lemma rule_edits_on_unwritable_file_witness :
  let cfg :=
    ConfigManager.mk (ConfigManager.RuleList [Examples.rule_A])
      (Some (ConfigManager.DumpRaises (OSError "No space left on device") false)) in
  snd (ConfigManager.add_rule cfg Examples.rule_B) = true /\
  ConfigManager.get_rules (fst (ConfigManager.add_rule cfg Examples.rule_B)) = [].
Proof.
  intros cfg.
  destruct (rule_edits_on_unwritable_file cfg
              (ConfigManager.DumpRaises (OSError "No space left on device") false)
              0 Examples.rule_B eq_refl) as [Hadd _].
  exact Hadd.
Defined.

(** ** Where a file is moved to *)

Section MoveTarget.
Context `{FileSystem} `{Sqlite}.
Import FileOrganizer.

(** The path conflict resolution returns does not exist, unless the
    destination and all its 1000 candidates exist: then it is the
    destination itself, which exists. *)
Theorem resolved_path_is_free_unless_exhausted (fs : FS) (destination_path q : Path) :
  _resolve_filename_conflict fs destination_path = Ok q ->
  Path_exists fs q = Ok false \/
  (q = destination_path /\ Path_exists fs destination_path = Ok true /\
   forall N, (1 <= N <= 1000)%nat ->
     Path_exists fs (candidate destination_path N) = Ok true).
Proof. apply _resolve_filename_conflict_free. Qed.

(** Conflict resolution looks at the file system through [exists] only. *)
Lemma _resolve_loop_ext (fs fs' : FS) (destination_path parent : Path)
    (stem suffix : string) (fuel counter : nat) :
  (forall p, Path_exists fs' p = Path_exists fs p) ->
  _resolve_loop fs' destination_path parent stem suffix fuel counter
  = _resolve_loop fs destination_path parent stem suffix fuel counter.
Proof.
  intros Hext. revert counter. induction fuel as [| fuel IH]; intros counter; [reflexivity |].
  cbn [_resolve_loop]. rewrite Hext.
  destruct (Path_exists fs _) as [[] | e]; cbn [negb]; [| reflexivity | reflexivity].
  destruct (1000 <? counter + 1)%nat; [reflexivity | apply IH].
Qed.

Lemma _resolve_filename_conflict_ext (fs fs' : FS) (destination_path : Path) :
  (forall p, Path_exists fs' p = Path_exists fs p) ->
  _resolve_filename_conflict fs' destination_path
  = _resolve_filename_conflict fs destination_path.
Proof.
  intros Hext. unfold _resolve_filename_conflict, _resolve_filename_conflict_fuel.
  rewrite Hext.
  destruct (Path_exists fs destination_path) as [[] | e]; cbn [negb];
    [| reflexivity | reflexivity].
  now rewrite (_resolve_loop_ext fs fs').
Qed.

Lemma organize_file_success (fs fs1 fs2 : FS) (db : DB) (now : DateTime)
    (home : result Path) (file_path : string) (classification : Classification)
    (move_to : string) (final_destination : Path) (u u' : unit) :
  let source_path := Pathlib.of_str file_path in
  let destination_path :=
    Pathlib.of_str (_expand_path_template move_to source_path now home) in
  cls_move_to classification = Some move_to -> move_to <> "" ->
  Path_mkdir_parents fs (Pathlib.parent destination_path) = (fs1, Ok u) ->
  _resolve_filename_conflict fs1 destination_path = Ok final_destination ->
  shutil_move fs1 (Pathlib.str source_path) (Pathlib.str final_destination)
  = (fs2, Ok u') ->
  organize_file fs db now home file_path classification
  = (fs2,
     DatabaseManager.log_activity db "file_organized" (Pathlib.str source_path)
       [("destination", Pathlib.str final_destination);
        ("label", cls_label classification);
        ("rule", default "fallback" (cls_rule_matched classification))]
       "success",
     Ok (Pathlib.str final_destination)).
Proof.
  intros source_path destination_path Hm Hne Hmk Hres Hmv.
  unfold organize_file, organize_file_try. rewrite Hm.
  destruct move_to as [| c move_to']; [congruence |].
  fold source_path. fold destination_path. rewrite Hmk, Hres, Hmv. reflexivity.
Qed.

(** When the directory is created, a name is found and the move is
    made, [organize_file] returns the path conflict resolution gave,
    and calls [log_activity] with the action [file_organized], the
    destination, the label and the rule (or [fallback]); the path the
    file is moved to did not exist when it was chosen, unless the
    destination and all its 1000 candidates existed. *)
Theorem organize_file_moves (fs fs1 fs2 : FS) (db : DB) (now : DateTime)
    (home : result Path) (file_path : string) (classification : Classification)
    (move_to : string) (final_destination : Path) (u u' : unit) :
  let source_path := Pathlib.of_str file_path in
  let destination_path :=
    Pathlib.of_str (_expand_path_template move_to source_path now home) in
  cls_move_to classification = Some move_to -> move_to <> "" ->
  Path_mkdir_parents fs (Pathlib.parent destination_path) = (fs1, Ok u) ->
  _resolve_filename_conflict fs1 destination_path = Ok final_destination ->
  shutil_move fs1 (Pathlib.str source_path) (Pathlib.str final_destination)
  = (fs2, Ok u') ->
  organize_file fs db now home file_path classification
  = (fs2,
     DatabaseManager.log_activity db "file_organized" (Pathlib.str source_path)
       [("destination", Pathlib.str final_destination);
        ("label", cls_label classification);
        ("rule", default "fallback" (cls_rule_matched classification))]
       "success",
     Ok (Pathlib.str final_destination)) /\
  (Path_exists fs1 final_destination = Ok false \/
   (final_destination = destination_path /\
    Path_exists fs1 destination_path = Ok true /\
    forall N, (1 <= N <= 1000)%nat ->
      Path_exists fs1 (candidate destination_path N) = Ok true)).
Proof.
  intros source_path destination_path Hm Hne Hmk Hres Hmv.
  split; [| now apply _resolve_filename_conflict_free].
  exact (organize_file_success fs fs1 fs2 db now home file_path classification
           move_to final_destination u u' Hm Hne Hmk Hres Hmv).
Qed.

(** The dry run names the path the real run moves the file to, when the
    creation of the directory changes nothing of what exists and the
    move is made; without a [move_to] template both leave the file at
    its source path. *)
Theorem dry_run_names_the_real_destination (fs fs1 fs2 : FS) (db : DB)
    (now : DateTime) (home : result Path) (file_path : string)
    (classification : Classification) :
  let source_path := Pathlib.of_str file_path in
  let dry := dry_run_organize fs now home file_path classification in
  let real := organize_file fs db now home file_path classification in
  (cls_move_to classification = None \/ cls_move_to classification = Some "" ->
     exists plan,
       dry = DryRunPlan plan /\
       dr_would_move plan = false /\ dr_destination plan = None /\
       snd real = Ok (dr_source plan)) /\
  (forall move_to final_destination u u',
     cls_move_to classification = Some move_to -> move_to <> "" ->
     let destination_path :=
       Pathlib.of_str (_expand_path_template move_to source_path now home) in
     Path_mkdir_parents fs (Pathlib.parent destination_path) = (fs1, Ok u) ->
     (forall p, Path_exists fs1 p = Path_exists fs p) ->
     _resolve_filename_conflict fs1 destination_path = Ok final_destination ->
     shutil_move fs1 (Pathlib.str source_path) (Pathlib.str final_destination)
     = (fs2, Ok u') ->
     exists plan d,
       dry = DryRunPlan plan /\
       dr_would_move plan = true /\
       dr_destination plan = Some d /\ snd real = Ok d).
Proof.
  intros source_path dry real. split.
  - intros [Hm | Hm]; subst dry real;
      unfold dry_run_organize, organize_file, organize_file_try; rewrite Hm;
      cbn [try_except]; eexists; repeat split.
  - intros move_to final_destination u u' Hm Hne destination_path Hmk Hext Hres Hmv.
    pose proof (organize_file_success fs fs1 fs2 db now home file_path classification
                  move_to final_destination u u' Hm Hne Hmk Hres Hmv) as Hreal.
    fold real in Hreal. rewrite Hreal.
    assert (Hex : exists b, Path_exists fs final_destination = Ok b).
    { rewrite <- Hext.
      destruct (_resolve_filename_conflict_free fs1 destination_path _ Hres)
        as [Hfree | (-> & Hthere & _)]; eauto. }
    destruct Hex as [b Hb].
    subst dry. unfold dry_run_organize. rewrite Hm.
    destruct move_to as [| c move_to']; [congruence |].
    fold source_path. fold destination_path.
    rewrite <- (_resolve_filename_conflict_ext fs fs1) by exact Hext.
    rewrite Hres. cbn [rbind]. rewrite Hb. cbn [rbind try_except].
    eexists _, _. repeat split.
Qed.

End MoveTarget.

(** [/data/a.txt] taken twice over: the path returned is free. *)
Lemma resolved_path_is_free_unless_exhausted_witness :
  @Path_exists Examples.disk_fs Examples.crowded_disk (Pathlib.of_str "/data/a_2.txt")
  = Ok false.
Proof.
  destruct (@resolved_path_is_free_unless_exhausted Examples.disk_fs
              Examples.crowded_disk (Pathlib.of_str "/data/a.txt")
              (Pathlib.of_str "/data/a_2.txt")) as [Hfree | (Heq & _)].
  - reflexivity.
  - exact Hfree.
  - discriminate Heq.
Defined.

(** The note goes to the archive of the year. *)
Lemma organize_file_moves_witness :
  snd (@FileOrganizer.organize_file Examples.disk_fs Examples.list_db
         Examples.the_disk [] Examples.noon Examples.home_dir
         "notes.txt" Examples.to_archive)
  = Ok "/home/user/Archive/2024/notes.txt".
Proof.
  destruct (@organize_file_moves Examples.disk_fs Examples.list_db
              Examples.the_disk Examples.the_disk
              (Examples.mkDisk [("/home/user/Archive/2024/notes.txt", 12)] true)
              [] Examples.noon Examples.home_dir "notes.txt" Examples.to_archive
              "{{HOME}}/Archive/{{YYYY}}/{{BASENAME}}"
              (Pathlib.of_str "/home/user/Archive/2024/notes.txt") tt tt) as [Hreal _].
  - reflexivity.
  - discriminate.
  - reflexivity.
  - reflexivity.
  - reflexivity.
  - rewrite Hreal. reflexivity.
Defined.

Lemma dry_run_names_the_real_destination_witness :
  exists plan d,
    @FileOrganizer.dry_run_organize Examples.disk_fs Examples.the_disk
      Examples.noon Examples.home_dir "notes.txt" Examples.to_archive
    = DryRunPlan plan /\
    dr_would_move plan = true /\
    dr_destination plan = Some d /\
    snd (@FileOrganizer.organize_file Examples.disk_fs Examples.list_db
           Examples.the_disk [] Examples.noon Examples.home_dir
           "notes.txt" Examples.to_archive) = Ok d.
Proof.
  destruct (@dry_run_names_the_real_destination Examples.disk_fs Examples.list_db
              Examples.the_disk Examples.the_disk
              (Examples.mkDisk [("/home/user/Archive/2024/notes.txt", 12)] true)
              [] Examples.noon Examples.home_dir "notes.txt" Examples.to_archive)
    as [_ Hmove].
  apply (Hmove "{{HOME}}/Archive/{{YYYY}}/{{BASENAME}}"
           (Pathlib.of_str "/home/user/Archive/2024/notes.txt") tt tt).
  - reflexivity.
  - discriminate.
  - reflexivity.
  - reflexivity.
  - reflexivity.
  - reflexivity.
Defined.

(** ** Templates without placeholders *)

Section PlainTemplates.
Import FileOrganizer.

Lemma replace_go_absent (old new s : string) :
  Str.contains old s = false -> Str.replace_go old new 0 s = s.
Proof.
  induction s as [| c s IH]; [reflexivity |].
  intros Hc. change (Str.contains old (String c s))
    with (Str.startswith (String c s) old || Str.contains old s) in Hc.
  apply orb_false_iff in Hc as [Hs Hc].
  change (Str.replace_go old new 0 (String c s))
    with (if Str.startswith (String c s) old
          then new +:+ Str.replace_go old new (String.length old - 1) s
          else String c (Str.replace_go old new 0 s)).
  rewrite Hs. now rewrite IH.
Qed.

(** [s.replace(old, new)] is [s] when [old] does not occur in [s]. *)
Lemma replace_absent (s old new : string) :
  Str.contains old s = false -> Str.replace s old new = s.
Proof.
  destruct old as [| a old]; [destruct s; discriminate |].
  apply replace_go_absent.
Qed.

(** A template in which none of the ten placeholders occurs is the
    destination as it is written, whatever the file, the time and the
    home directory are, also when the home directory cannot be found
    and whatever braces the template has. *)
Theorem expand_without_placeholders (template : string) (source_path : Path)
    (now : DateTime) (home : result Path) :
  Forall (fun name => Str.contains (placeholder name) template = false) recognized ->
  _expand_path_template template source_path now home = template.
Proof.
  intros Hrec. unfold recognized in Hrec.
  repeat match type of Hrec with
         | Forall _ (_ :: _) =>
             let Hn := fresh "Hn" in
             apply Forall_cons in Hrec as [Hn Hrec];
             change (placeholder ?n) with ("{{" +:+ n +:+ "}}") in Hn; cbn in Hn
         end.
  unfold _expand_path_template.
  repeat match goal with
         | Hn : Str.contains ?old template = false |- _ =>
             rewrite (replace_absent template old _ Hn); clear Hn
         end.
  destruct home as [h | e]; cbn [rbind try_except]; [| reflexivity].
  match goal with
  | Hn : Str.contains ?old template = false |- _ =>
      exact (replace_absent template old _ Hn)
  end.
Qed.

End PlainTemplates.

(** Braces that are not one of the ten placeholders stay. *)
Lemma expand_without_placeholders_witness :
  FileOrganizer._expand_path_template "/srv/{inbox}/{{year}}"
    (Pathlib.of_str "notes.txt") Examples.noon (Raise (RuntimeError "no home"))
  = "/srv/{inbox}/{{year}}".
Proof.
  apply expand_without_placeholders. repeat constructor.
Defined.

(** ** Files the watcher ignores *)

Section IgnoredFiles.
Import FileWatcherHandler.

Lemma startswith_spec (s p : string) :
  Str.startswith s p = true <-> exists rest, s = p +:+ rest.
Proof.
  split.
  - revert s. induction p as [| a p IH]; intros s; [intros _; now exists s |].
    destruct s as [| b s]; [discriminate |].
    rewrite startswith_cons. destruct (decide (a = b)) as [-> | _]; [| discriminate].
    intros Hs. destruct (IH s Hs) as [rest ->]. now exists rest.
  - intros [rest ->]. apply startswith_self_app.
Qed.

Lemma contains_cons (sub : string) (c : ascii) (s : string) :
  Str.contains sub (String c s)
  = Str.startswith (String c s) sub || Str.contains sub s.
Proof. reflexivity. Qed.

Lemma contains_nil (sub : string) :
  Str.contains sub "" = Str.startswith "" sub.
Proof. change (Str.contains sub "") with (Str.startswith "" sub || false). apply orb_false_r. Qed.

(** [sub in s] holds when [s] is [sub] with something before it and
    something after it. *)
Lemma contains_spec (sub s : string) :
  Str.contains sub s = true <-> exists pre post, s = pre +:+ sub +:+ post.
Proof.
  split.
  - induction s as [| c s IH].
    + rewrite contains_nil. intros Hs.
      apply startswith_spec in Hs as [rest Hs]. now exists "", rest.
    + rewrite contains_cons. intros Hs. apply orb_true_iff in Hs as [Hs | Hs].
      * apply startswith_spec in Hs as [rest Hs]. now exists "", rest.
      * destruct (IH Hs) as (pre & post & ->). now exists (String c pre), post.
  - intros (pre & post & ->). induction pre as [| c pre IH].
    + change ("" +:+ sub +:+ post) with (sub +:+ post).
      pose proof (startswith_self_app sub post) as Hs.
      destruct (sub +:+ post) as [| c s'].
      * now rewrite contains_nil.
      * now rewrite contains_cons, Hs.
    + rewrite app_cons, contains_cons, IH. apply orb_true_r.
Qed.

Lemma lower_char_dot (c : ascii) : Str.lower_char c = "."%char <-> c = "."%char.
Proof.
  destruct c as [[] [] [] [] [] [] [] []]; vm_compute; split; congruence.
Qed.

Lemma startswith_dot_lower (s : string) :
  Str.startswith (Str.lower s) "." = Str.startswith s ".".
Proof.
  destruct s as [| c s]; [reflexivity |].
  cbn [Str.lower]. rewrite !startswith_cons.
  destruct (decide ("."%char = Str.lower_char c)) as [Hl | Hl],
           (decide ("."%char = c)) as [Hc | Hc].
  - now rewrite !startswith_nil.
  - exfalso. apply Hc. symmetry. now apply lower_char_dot.
  - exfalso. apply Hl. symmetry. now apply lower_char_dot.
  - reflexivity.
Qed.

(** A file is ignored when one of the eight markers occurs anywhere in
    its lower-cased name, or when its name starts with a dot; the
    directories of the path do not count. *)
Theorem should_ignore_file_iff (file_path : string) :
  let name := Pathlib.name (Pathlib.of_str file_path) in
  _should_ignore_file file_path = true <->
  (exists marker pre post,
     In marker ignore_patterns /\ Str.lower name = pre +:+ marker +:+ post) \/
  (exists rest, name = "." +:+ rest).
Proof.
  intros name. unfold _should_ignore_file. fold name.
  destruct (existsb _ ignore_patterns) eqn:Hex.
  - split; [intros _ | reflexivity]. left.
    apply existsb_exists in Hex as (marker & Hin & Hc).
    apply contains_spec in Hc as (pre & post & Hc). now exists marker, pre, post.
  - destruct (Str.startswith name ".") eqn:Hdot.
    + split; [intros _ | reflexivity]. right. now apply startswith_spec.
    + split; [discriminate |]. intros [(marker & pre & post & Hin & Hl) | Hrest].
      * assert (existsb (fun pattern => Str.contains pattern (Str.lower name))
                  ignore_patterns = true) as Hex'.
        { apply existsb_exists. exists marker. split; [exact Hin |].
          apply contains_spec. now exists pre, post. }
        congruence.
      * apply startswith_spec in Hrest. congruence.
Qed.

(** Letter case does not count: two paths whose names are the same once
    lower-cased are both ignored or both processed. *)
Theorem should_ignore_file_case_insensitive (p q : string) :
  Str.lower (Pathlib.name (Pathlib.of_str p))
  = Str.lower (Pathlib.name (Pathlib.of_str q)) ->
  _should_ignore_file p = _should_ignore_file q.
Proof.
  intros Hl. unfold _should_ignore_file. rewrite Hl.
  rewrite <- (startswith_dot_lower (Pathlib.name (Pathlib.of_str p))).
  rewrite <- (startswith_dot_lower (Pathlib.name (Pathlib.of_str q))).
  now rewrite Hl.
Qed.

End IgnoredFiles.

(** [Report.PARTIAL.docx] is ignored as [report.partial.docx] is: the
    name has [.part] in it. *)
Lemma should_ignore_file_case_insensitive_witness :
  FileWatcherHandler._should_ignore_file "/w/Report.PARTIAL.docx"
  = FileWatcherHandler._should_ignore_file "/w/sub/report.partial.docx" /\
  FileWatcherHandler._should_ignore_file "/w/sub/report.partial.docx" = true.
Proof.
  split; [| reflexivity].
  apply should_ignore_file_case_insensitive. reflexivity.
Defined.

(** ** Classification followed by the move *)

Section ClassifyThenOrganize.
Context `{RegexEngine} `{Mimetypes} `{FileSystem} `{Sqlite}.
Import FileOrganizer.

(** A classification asks for a move only on behalf of a rule. *)
Lemma classify_file_move_to cfg fs file_path (m : string) :
  let p := Pathlib.of_str file_path in
  cls_move_to (classify_file cfg fs file_path) = Some m ->
  exists A st,
    Path_stat fs p = Ok st /\
    In A (ConfigManager.get_rules cfg) /\ is_active A = true /\
    _rule_matches p (resolve_mime p) st A = Ok true /\
    move_to (default no_actions (then_ A)) = Some m.
Proof.
  intros p. unfold classify_file. fold p.
  destruct (Path_stat fs p) as [st | e] eqn:Hstat; cbn [rbind try_except];
    [| cbn; discriminate].
  destruct (_apply_rules p (resolve_mime p) st (ConfigManager.get_rules cfg))
    as [[ra |] | e] eqn:Hrules; cbn; try discriminate.
  intros Hm. unfold _apply_rules in Hrules.
  destruct (_apply_rules_loop_found _ _ _ _ _ Hrules)
    as (pre & A & post & n & Hsorted & HA & HmA & Hn & -> & Hpre).
  exists A, st. cbn in Hm. repeat split; try assumption.
  apply In_sorted. rewrite Hsorted. apply in_or_app. right. now left.
Qed.

(** A new file is classified and then organized.  Unless an active rule
    of the rules file matches the file and gives a non-empty [move_to],
    the two steps leave the file system and the database as they are
    and the file keeps its path: fallback classifications, and the
    classifications of files that could not be examined, never move a
    file. *)
Theorem files_move_only_by_a_rule cfg (fs : FS) (db : DB) (now : DateTime)
    (home : result Path) (file_path : string) :
  let p := Pathlib.of_str file_path in
  let classification := classify_file cfg fs file_path in
  organize_file fs db now home file_path classification
  = (fs, db, Ok (Pathlib.str p))
  \/
  exists A st m,
    Path_stat fs p = Ok st /\
    In A (ConfigManager.get_rules cfg) /\ is_active A = true /\
    _rule_matches p (resolve_mime p) st A = Ok true /\
    move_to (default no_actions (then_ A)) = Some m /\ m <> "" /\
    cls_move_to classification = Some m.
Proof.
  intros p classification.
  destruct (cls_move_to classification) as [m |] eqn:Hm.
  - destruct (decide (m = "")) as [-> | Hne].
    + left. unfold organize_file, organize_file_try. rewrite Hm. reflexivity.
    + right. destruct (classify_file_move_to cfg fs file_path m Hm)
        as (A & st & Hst & Hin & Hact & Hmatch & Hmove).
      exists A, st, m. repeat split; assumption.
  - left. unfold organize_file, organize_file_try. rewrite Hm. reflexivity.
Qed.

End ClassifyThenOrganize.

(** ** When the fallback is used *)

Section FallbackUse.
Context `{RegexEngine} `{Mimetypes} `{FileSystem}.

(** When the loop comes to its end, every active rule was evaluated
    and did not match. *)
Lemma _apply_rules_loop_none p mime st (l : list Rule) :
  _apply_rules_loop p mime st l = Ok None ->
  forall A, In A l -> is_active A = true -> _rule_matches p mime st A = Ok false.
Proof.
  induction l as [| y l IH]; [intros _ A [] |].
  cbn [_apply_rules_loop]. fold (is_active y).
  destruct (is_active y) eqn:Hact; cbn [negb].
  - destruct (_rule_matches p mime st y) as [[] | e] eqn:Hm; cbn [rbind].
    + destruct (rule_name y) as [n | e]; cbn [rbind]; [| discriminate].
      destruct (_apply_rule_actions y) as [a | e]; cbn [rbind]; discriminate.
    + intros Hl A [<- | HA] HactA; [exact Hm | now apply IH].
    + discriminate.
  - intros Hl A [<- | HA] HactA; [congruence | now apply IH].
Qed.

(** A classification with confidence 0.5 is a fallback: the file could
    be examined, every active rule of the rules file was evaluated
    without an error and none matched; the label and the tags are those
    of the fallback.  So a file that an active rule matches is never
    classified by the fallback. *)
Theorem fallback_means_no_rule_matched cfg fs file_path :
  let p := Pathlib.of_str file_path in
  let c := classify_file cfg fs file_path in
  cls_confidence c = 0.5%Q ->
  exists st,
    Path_stat fs p = Ok st /\
    (forall A, In A (ConfigManager.get_rules cfg) -> is_active A = true ->
       _rule_matches p (resolve_mime p) st A = Ok false) /\
    cls_label c = fb_label (_fallback_classification p (resolve_mime p)) /\
    cls_tags c = fb_tags (_fallback_classification p (resolve_mime p)).
Proof.
  intros p c. subst c. unfold classify_file. fold p.
  destruct (Path_stat fs p) as [st | e] eqn:Hstat; cbn [rbind try_except];
    [| cbn; discriminate].
  destruct (_apply_rules p (resolve_mime p) st (ConfigManager.get_rules cfg))
    as [[m |] | e] eqn:Hrules; cbn; try discriminate.
  intros _. exists st. repeat split.
  intros A HA Hact. unfold _apply_rules in Hrules.
  apply (_apply_rules_loop_none _ _ _ _ Hrules); [| exact Hact].
  now apply In_sorted.
Qed.

End FallbackUse.

(** [notes.txt] is a document by the fallback: the rule for PDF files
    was evaluated and did not match. *)
Lemma fallback_means_no_rule_matched_witness :
  exists st,
    @Path_stat Examples.disk_fs Examples.the_disk (Pathlib.of_str "notes.txt") = Ok st /\
    @_rule_matches Examples.literal_regex (Pathlib.of_str "notes.txt") "text/plain" st
      Examples.rule_pdf_capitals = Ok false.
Proof.
  destruct (@fallback_means_no_rule_matched Examples.literal_regex Examples.no_mimetypes
              Examples.disk_fs (Examples.config [Examples.rule_pdf_capitals])
              Examples.the_disk "notes.txt") as (st & Hst & Hrules & _).
  - reflexivity.
  - exists st. split; [exact Hst |].
    apply (Hrules Examples.rule_pdf_capitals); [now left | reflexivity].
Defined.
